(** * chess3-backend: the session orchestration engine of [server.js]

    A shallow embedding of the Socket.IO game logic of [src/server.js]
    (player registry, mode queues, the [Match] class with its clock,
    [matchPlayers] and [handleGameOver]) together with the properties the
    specification states about it.

    Conventions of the embedding.
    - Handlers are functions from the in-memory state to the new state and
      an [Output]: the events emitted through Socket.IO and the write
      statements issued to the store, in program order.
    - [Date.now()], [Math.random()] and [uuidv4()] are inputs of the
      handler that calls them.  The [uuidv4()] used as primary key of a
      ledger row is not recorded.
    - Millisecond values are integers ([Z]).  Money amounts are JavaScript
      numbers: binary64 floating-point values ([float], the primitive
      type of the kernel), with the arithmetic and the comparisons of
      IEEE 754, so [entryFee * 0.70] is rounded as the source rounds it.
    - Ids, modes and squares are strings; an account id is [null] or a
      string.
    - The rules engine (chess.js) is an interface, [RulesOracle].
    - An [await pool.query(...)] is a suspension point, at which other
      events are handled.  The state records the continuations that are
      suspended ([Task]): a [join_queue] waiting for its balance query
      and a [make_move] waiting for the statements of [handleGameOver].
      The statements of one handler are issued at one suspension, and
      [matchPlayers], which no handler awaits, runs in one piece.
    - The balance query of [join_queue], whose failure the handler
      catches, answers rows or fails ([BalanceAnswer]).  The statements
      of [handleGameOver], which nothing catches, are all accepted by the
      store ([on_settlement_done]) or one of them is rejected
      ([on_settlement_failed]).  The statements of [matchPlayers] are
      accepted. *)

From stdpp Require Import gmap strings list fin_maps.
From Stdlib Require Import ZArith QArith Floats Lia.
From Equations Require Import Equations.

Local Open Scope Z_scope.

(** ** Data model *)

Inductive Color := white | black.

Inductive Winner := WinnerWhite | WinnerBlack | WinnerDraw.

Inductive Reason := timeout | checkmate | draw.

Inductive Status := active | finished.

(** [match.result]: [{ winner, reason }]. *)
Record Result := { winner : Winner; reason : Reason }.

(** [match.clock]: [{ whiteMs, blackMs, lastMoveTs }]. *)
Record Clock := { whiteMs : Z; blackMs : Z; lastMoveTs : Z }.

#[global] Instance Color_eq_dec : EqDecision Color.
Proof. solve_decision. Defined.
#[global] Instance Winner_eq_dec : EqDecision Winner.
Proof. solve_decision. Defined.
#[global] Instance Reason_eq_dec : EqDecision Reason.
Proof. solve_decision. Defined.
#[global] Instance Status_eq_dec : EqDecision Status.
Proof. solve_decision. Defined.

Definition other_side (c : Color) : Color :=
  match c with white => black | black => white end.

Definition winner_of (c : Color) : Winner :=
  match c with white => WinnerWhite | black => WinnerBlack end.

(** A JavaScript value used as an account id in an event payload:
    [undefined], [null] or a string. *)
Inductive JsId := JsUndefined | JsNull | JsStr (id : string).

(** The default parameter [dbId = null] of the [Player] constructor. *)
Definition to_dbId (v : JsId) : option string :=
  match v with JsStr id => Some id | _ => None end.

(** [p.dbId === userId], where [p.dbId] is [null] or a string. *)
Definition same_dbId (d : option string) (v : JsId) : bool :=
  match d, v with
  | None, JsNull => true
  | Some a, JsStr b => bool_decide (a = b)
  | _, _ => false
  end.

(** Truthiness of a value that is [null] or a string. *)
Definition truthy (d : option string) : bool :=
  match d with
  | Some id => negb (bool_decide (id = EmptyString))
  | None => false
  end.

(** *** [class Player]

    [p_gameMode] and [p_entryFee] are the properties [gameMode] and
    [entryFee] that [join_queue] assigns to the object; they are
    [undefined] ([None]) until then. *)
Record Player := {
  playerId : string;
  socketId : string;
  dbId : option string;
  username : string;
  color : option Color;
  currentGameId : option string;
  p_gameMode : option string;
  p_entryFee : option float
}.

(** [new Player(playerId, socketId, dbId = null, username = 'Guest')] *)
Definition new_Player (pid sock : string) (userId : JsId)
    (name : option string) : Player :=
  {| playerId := pid; socketId := sock; dbId := to_dbId userId;
     username := default "Guest" name; color := None;
     currentGameId := None; p_gameMode := None; p_entryFee := None |}.

Definition set_color (c : Color) (p : Player) : Player :=
  {| playerId := playerId p; socketId := socketId p; dbId := dbId p;
     username := username p; color := Some c;
     currentGameId := currentGameId p; p_gameMode := p_gameMode p;
     p_entryFee := p_entryFee p |}.

Definition set_intent (mode : string) (fee : float) (p : Player) : Player :=
  {| playerId := playerId p; socketId := socketId p; dbId := dbId p;
     username := username p; color := color p;
     currentGameId := currentGameId p; p_gameMode := Some mode;
     p_entryFee := Some fee |}.

(** *** The [players] Map, socket id to [Player], in insertion order *)

Definition players_get (k : string) (ps : list (string * Player))
    : option Player :=
  snd <$> List.find (fun e => bool_decide (fst e = k)) ps.

Fixpoint players_set (k : string) (v : Player) (ps : list (string * Player))
    : list (string * Player) :=
  match ps with
  | [] => [(k, v)]
  | e :: ps' =>
      if bool_decide (fst e = k) then (k, v) :: ps'
      else e :: players_set k v ps'
  end.

Definition players_delete (k : string) (ps : list (string * Player))
    : list (string * Player) :=
  List.filter (fun e => negb (bool_decide (fst e = k))) ps.

(** [Array.from(players.values()).find(p => p.playerId === pid)] *)
Definition find_player (pid : string) (ps : list (string * Player))
    : option Player :=
  List.find (fun p => bool_decide (playerId p = pid)) (List.map snd ps).

(** An assignment to a property of the [Player] object whose id is
    [pid]; the object is seen through the registry if it is still in
    it. *)
Definition update_player (pid : string) (f : Player -> Player)
    (ps : list (string * Player)) : list (string * Player) :=
  List.map (fun e => if bool_decide (playerId (snd e) = pid)
                     then (fst e, f (snd e)) else e) ps.

(** *** The [queues] object, mode to array of player ids *)

(** [idx = q.indexOf(x); if (idx > -1) q.splice(idx, 1)] *)
Fixpoint remove_first (x : string) (q : list string) : list string :=
  match q with
  | [] => []
  | y :: q' => if bool_decide (y = x) then q' else y :: remove_first x q'
  end.

(** The loop [for (const mode in queues)] that takes [pid] out. *)
Definition remove_from_queues (pid : string)
    (qs : gmap string (list string)) : gmap string (list string) :=
  remove_first pid <$> qs.

Definition initial_queues : gmap string (list string) :=
  <["BULLET" := []]> (<["BLITZ" := []]> (<["RAPID" := []]>
    (<["CLASSICAL" := []]> (<["TOURNAMENT" := []]> ∅)))).

(** The names [queues] inherits from [Object.prototype].  For such a
    [mode], [queues[mode]] is a function or object without [push]. *)
Definition object_prototype_keys : list string :=
  ["constructor"; "__defineGetter__"; "__defineSetter__"; "hasOwnProperty";
   "__lookupGetter__"; "__lookupSetter__"; "isPrototypeOf";
   "propertyIsEnumerable"; "toString"; "valueOf"; "__proto__";
   "toLocaleString"].

(** *** What a handler sends out *)

Inductive GameOverMessage := YouWon (winnings : float) | BetterLuck.

Inductive Payload :=
| force_disconnect
| error_message (need have : float)
| illegal_move (why : string)
| move_result (fen : string) (turn : Color) (whiteMs blackMs : Z)
    (from to : string) (promotion : option string)
| game_over (r : Result) (winnings : float) (totalReturn : option float)
    (message : GameOverMessage)
| match_found (matchId : string) (color : Color) (initialFen : string)
    (clock : Clock) (opponent : string).

(** An event pushed to the connection [fst]. *)
Definition Emit : Type := string * Payload.

Inductive TxType := tx_entry_fee | tx_refund | tx_winnings.

(** The write statements of [server.js] to the store, with their
    parameters. *)
Inductive Stmt :=
| DebitWallet (amount : float) (user : option string)
| CreditWallet (amount : float) (user : option string)
| InsertTransaction (user : option string) (amount : float) (type : TxType)
    (about : string)
| IncrementDraws (user : option string)
| RecordWin (user : option string)
| RecordLoss (user : option string)
| EndMatchDraw (matchId : string)
| EndMatchWon (winner : option string) (why : Reason) (matchId : string)
| InsertEarning (matchId : string) (amount : float)
| InsertMatch (matchId : string) (white black : option string)
    (entry_fee stake_amount : float).

Record Output := { emitted : list Emit; issued : list Stmt }.

Definition silent : Output := {| emitted := []; issued := [] |}.

Definition emit (es : list Emit) : Output := {| emitted := es; issued := [] |}.

(** The answer of the store to
    [SELECT wallet_balance FROM users WHERE id = $1]: the rows, each
    through [parseFloat] ([NaN] for a value that is no number), or a
    rejected promise. *)
Inductive BalanceAnswer := Rows (rows : list float) | QueryFailed.



(** The payload of [join_queue].  [jd_entryFee] is
    [parseFloat(data.entryFee)], [NaN] when the payload has no number
    there. *)
Record JoinData := {
  jd_userId : JsId;
  jd_gameMode : option string;
  jd_entryFee : float;
  jd_username : option string
}.

(** The payload of [make_move]. *)
Record MoveData := {
  md_matchId : string;
  md_from : string;
  md_to : string;
  md_promotion : option string
}.

(** What [matchPlayers] draws from its environment: [Math.random() < 0.5],
    [uuidv4()] for the match and [Date.now()] in the constructor. *)
Record PairEnv := { isP1White : bool; freshMatchId : string; pairedAt : Z }.

(** [data.gameMode || 'BULLET'] *)
Definition join_mode (d : JoinData) : string :=
  match jd_gameMode d with
  | Some m => if bool_decide (m = EmptyString) then "BULLET" else m
  | None => "BULLET"
  end.

(** Falsiness of a number: [0], [-0] and [NaN] are falsy. *)
Definition js_falsy (x : float) : bool :=
  (x =? 0)%float || PrimFloat.is_nan x.

(** [parseFloat(data.entryFee) || 10.0] *)
Definition join_fee (d : JoinData) : float :=
  if js_falsy (jd_entryFee d) then 10%float else jd_entryFee d.

(** A continuation waiting for the store. *)
Inductive Task :=
| AwaitBalance (sock pid : string) (mode : string) (fee : float)
| AwaitSettlement (mid : string) (called_with : option Result).

(** The chess.js instance a [Match] owns.  [chess_move] is
    [chess.move({ from, to, promotion })]: [None] is the falsy answer the
    source tests with [if (!move)], and leaves the position as it was. *)
Class RulesOracle := {
  position : Type;
  chess_new : position;
  chess_move : position -> string -> string -> option string -> option position;
  chess_turn : position -> Color;
  chess_fen : position -> string;
  chess_isCheckmate : position -> bool;
  chess_isDraw : position -> bool
}.

Section Engine.

Context {oracle : RulesOracle}.

(** *** [class Match] *)

Record Match := {
  matchId : string;
  players_white : string;
  players_black : string;
  whiteDbId : option string;
  blackDbId : option string;
  gameMode : string;
  entryFee : float;
  chess : position;
  fen : string;
  turn : Color;
  status : Status;
  clock : Clock;
  result : option Result
}.

Definition set_position (pos : position) (m : Match) : Match :=
  {| matchId := matchId m; players_white := players_white m;
     players_black := players_black m; whiteDbId := whiteDbId m;
     blackDbId := blackDbId m; gameMode := gameMode m;
     entryFee := entryFee m; chess := pos; fen := chess_fen pos;
     turn := chess_turn pos; status := status m; clock := clock m;
     result := result m |}.

Definition set_clock (c : Clock) (m : Match) : Match :=
  {| matchId := matchId m; players_white := players_white m;
     players_black := players_black m; whiteDbId := whiteDbId m;
     blackDbId := blackDbId m; gameMode := gameMode m;
     entryFee := entryFee m; chess := chess m; fen := fen m;
     turn := turn m; status := status m; clock := c;
     result := result m |}.

(** [this.status = 'finished'; this.result = r] *)
Definition finish (r : Result) (m : Match) : Match :=
  {| matchId := matchId m; players_white := players_white m;
     players_black := players_black m; whiteDbId := whiteDbId m;
     blackDbId := blackDbId m; gameMode := gameMode m;
     entryFee := entryFee m; chess := chess m; fen := fen m;
     turn := turn m; status := finished; clock := clock m;
     result := Some r |}.

(** Time controls of the constructor, in ms. *)
Definition timeMs (mode : string) : Z :=
  if String.eqb mode "BLITZ" then 180000
  else if String.eqb mode "RAPID" then 300000
  else if String.eqb mode "CLASSICAL" then 600000
  else 60000.

(** [new Match(matchId, whitePlayerId, blackPlayerId, whiteDbId, blackDbId,
    gameMode, entryFee)], with [now] the value of [Date.now()]. *)
Definition new_Match (mid wp bp : string) (wdb bdb : option string)
    (mode : string) (fee : float) (now : Z) : Match :=
  {| matchId := mid; players_white := wp; players_black := bp;
     whiteDbId := wdb; blackDbId := bdb; gameMode := mode; entryFee := fee;
     chess := chess_new; fen := chess_fen chess_new; turn := white;
     status := active;
     clock := {| whiteMs := timeMs mode; blackMs := timeMs mode;
                 lastMoveTs := now |};
     result := None |}.

(** The clock after the deduction of [updateClock]: the elapsed time is
    taken from the budget of [this.turn]. *)
Definition charge (t : Color) (now : Z) (c : Clock) : Clock :=
  let elapsed := now - lastMoveTs c in
  match t with
  | white => {| whiteMs := Z.max 0 (whiteMs c - elapsed);
                blackMs := blackMs c; lastMoveTs := now |}
  | black => {| whiteMs := whiteMs c;
                blackMs := Z.max 0 (blackMs c - elapsed); lastMoveTs := now |}
  end.

(** [Match.updateClock()]; the boolean is its return value. *)
Definition updateClock (now : Z) (m : Match) : Match * bool :=
  let m1 := set_clock (charge (turn m) now (clock m)) m in
  if whiteMs (clock m1) =? 0 then
    (finish {| winner := WinnerBlack; reason := timeout |} m1, true)
  else if blackMs (clock m1) =? 0 then
    (finish {| winner := WinnerWhite; reason := timeout |} m1, true)
  else (m1, false).

(** The answer of [makeMove]: [{ success: true }] or
    [{ success: false, reason }]. *)
Inductive MoveAnswer := MoveOk | MoveFailed (why : string).

(** [Match.makeMove(from, to, promotion)] *)
Definition makeMove (from to : string) (promotion : option string) (now : Z)
    (m : Match) : Match * MoveAnswer :=
  match chess_move (chess m) from to promotion with
  | None => (m, MoveFailed "Invalid move")
  | Some pos =>
      let m1 := set_position pos m in
      let m2 := fst (updateClock now m1) in
      let m3 :=
        if chess_isCheckmate pos then
          finish {| winner := winner_of (other_side (chess_turn pos));
                    reason := checkmate |} m2
        else if chess_isDraw pos then
          finish {| winner := WinnerDraw; reason := draw |} m2
        else m2 in
      (m3, MoveOk)
  end.

(** *** The process state

    [heap] holds every [Match] object that was constructed, under its
    [matchId]; handlers and suspended continuations share the object
    through that key.  [matches] is the key set of the Map [matches]
    (each object is stored there under its own id).  [suspended] are the
    continuations waiting for the store. *)
Record State := {
  heap : gmap string Match;
  matches : gset string;
  players : list (string * Player);
  queues : gmap string (list string);
  suspended : list Task
}.

Definition initial_state : State :=
  {| heap := ∅; matches := ∅; players := []; queues := initial_queues;
     suspended := [] |}.

Definition set_players (ps : list (string * Player)) (s : State) : State :=
  {| heap := heap s; matches := matches s; players := ps;
     queues := queues s; suspended := suspended s |}.

Definition set_queues (qs : gmap string (list string)) (s : State) : State :=
  {| heap := heap s; matches := matches s; players := players s;
     queues := qs; suspended := suspended s |}.

Definition set_suspended (ts : list Task) (s : State) : State :=
  {| heap := heap s; matches := matches s; players := players s;
     queues := queues s; suspended := ts |}.

(** A mutation of the [Match] object [mid]. *)
Definition store_match (mid : string) (m : Match) (s : State) : State :=
  {| heap := <[mid := m]> (heap s); matches := matches s;
     players := players s; queues := queues s; suspended := suspended s |}.

(** [matches.get(mid)] *)
Definition matches_get (mid : string) (s : State) : option Match :=
  if bool_decide (mid ∈ matches s) then heap s !! mid else None.

(** [matches.set(mid, m)] for a newly constructed [m]. *)
Definition matches_set (mid : string) (m : Match) (s : State) : State :=
  {| heap := <[mid := m]> (heap s); matches := {[mid]} ∪ matches s;
     players := players s; queues := queues s; suspended := suspended s |}.

(** [matches.delete(mid)] *)
Definition matches_delete (mid : string) (s : State) : State :=
  {| heap := heap s; matches := matches s ∖ {[mid]};
     players := players s; queues := queues s; suspended := suspended s |}.

(** *** [register_player] *)

(** One round of the clean-up loop over [players.entries()]. *)
Definition evict (userId : JsId) (sock : string) (acc : State * list Emit)
    (e : string * Player) : State * list Emit :=
  if same_dbId (dbId (snd e)) userId && negb (bool_decide (fst e = sock))
  then
    let s := fst acc in
    (set_players (players_delete (fst e) (players s))
       (set_queues (remove_from_queues (playerId (snd e)) (queues s)) s),
     snd acc ++ [(fst e, force_disconnect)])
  else acc.

Definition register_player (sock : string) (userId : JsId) (uuid : string)
    (s : State) : State * Output :=
  let '(s1, es) := fold_left (evict userId sock) (players s) (s, []) in
  (set_players
     (players_set sock (new_Player uuid sock userId None) (players s1)) s1,
   emit es).

(** *** [disconnect] *)

Definition disconnect (sock : string) (s : State) : State * Output :=
  match players_get sock (players s) with
  | Some player =>
      (set_players (players_delete sock (players s))
         (set_queues (remove_from_queues (playerId player) (queues s)) s),
       silent)
  | None => (s, silent)
  end.

(** *** [matchPlayers] *)

(** The lookup of a queue entry with its stale check
    [!p || !p.socketId]. *)
Definition live_player (pid : string) (ps : list (string * Player))
    : option Player :=
  match find_player pid ps with
  | Some p => if bool_decide (socketId p = EmptyString) then None else Some p
  | None => None
  end.

(** [p1.dbId && p2.dbId && p1.dbId === p2.dbId] *)
Definition self_match (p1 p2 : Player) : bool :=
  truthy (dbId p1) && truthy (dbId p2) && bool_decide (dbId p1 = dbId p2).

(** The synchronous head of [matchPlayers]: the recursion that drops
    stale entries and self-matches, then takes the first two entries.
    It answers the queue that is left and the pair, if any. *)
Equations pair_queue (ps : list (string * Player)) (q : list string)
    : list string * option (Player * Player) by wf (length q) lt :=
pair_queue ps (p1Id :: p2Id :: rest) :=
  match live_player p1Id ps with
  | None => pair_queue ps (p2Id :: rest)
  | Some p1 =>
      match live_player p2Id ps with
      | None => pair_queue ps (p1Id :: rest)
      | Some p2 =>
          if self_match p1 p2 then pair_queue ps (p1Id :: rest)
          else (rest, Some (p1, p2))
      end
  end;
pair_queue ps q := (q, None).

(** The statements of the deduction, in program order. *)
Definition entry_fee_stmts (fee : float) (mode : string) (p1 p2 : Player)
    : list Stmt :=
  (if truthy (dbId p1) then [DebitWallet fee (dbId p1)] else []) ++
  (if truthy (dbId p2) then [DebitWallet fee (dbId p2)] else []) ++
  (if truthy (dbId p1)
   then [InsertTransaction (dbId p1) fee tx_entry_fee mode] else []) ++
  (if truthy (dbId p2)
   then [InsertTransaction (dbId p2) fee tx_entry_fee mode] else []).

(** [matchPlayers(mode, fee)], its [try] block running to its end.  The
    queue entries [p1Id] and [p2Id] are [playerId p1] and [playerId p2],
    by the lookup that found the two players. *)
Definition matchPlayers (mode : string) (fee : float) (env : PairEnv)
    (s : State) : State * Output :=
  match queues s !! mode with
  | None => (s, silent)
  | Some q0 =>
      let '(q, found) := pair_queue (players s) q0 in
      let s1 := set_queues (<[mode := q]> (queues s)) s in
      match found with
      | None => (s1, silent)
      | Some (p1, p2) =>
          let mid := freshMatchId env in
          let c1 := if isP1White env then white else black in
          let wdb := if isP1White env then dbId p1 else dbId p2 in
          let bdb := if isP1White env then dbId p2 else dbId p1 in
          let m :=
            new_Match mid
              (if isP1White env then playerId p1 else playerId p2)
              (if isP1White env then playerId p2 else playerId p1)
              wdb bdb mode fee (pairedAt env) in
          let ps :=
            update_player (playerId p2) (set_color (other_side c1))
              (update_player (playerId p1) (set_color c1) (players s1)) in
          (set_players ps (matches_set mid m s1),
           {| emitted :=
                [(socketId p1,
                  match_found mid c1 (fen m) (clock m) (username p2));
                 (socketId p2,
                  match_found mid (other_side c1) (fen m) (clock m)
                    (username p1))];
              issued :=
                entry_fee_stmts fee mode p1 p2
                ++ [InsertMatch mid wdb bdb fee fee] |})
      end
  end.

(** *** [join_queue] *)

(** The handler from "CHECK IF ALREADY IN QUEUE" on, for the player
    object [pid]. *)
Definition enqueue (pid mode : string) (fee : float) (env : PairEnv)
    (s : State) : State * Output :=
  let qs1 := remove_from_queues pid (queues s) in
  if bool_decide (mode ∈ object_prototype_keys)
     && bool_decide (qs1 !! mode = None)
  then (set_queues qs1 s, silent)
  else
    let q := default [] (qs1 !! mode) ++ [pid] in
    let s2 :=
      set_players (update_player pid (set_intent mode fee) (players s))
        (set_queues (<[mode := q]> qs1) s) in
    if (2 <=? length q)%nat then matchPlayers mode fee env s2
    else (s2, silent).

(** [balance < fee] on the first row, when there is one.  The
    comparison is false when one of the two is [NaN]. *)
Definition insufficient (a : BalanceAnswer) (fee : float) : option float :=
  match a with
  | Rows (balance :: _) =>
      if (balance <? fee)%float then Some balance else None
  | _ => None
  end.

(** The registry after the anonymous fallback
    [if (!players.has(socket.id)) players.set(socket.id, new Player(...))]. *)
Definition auto_register (sock : string) (d : JoinData) (uuid : string)
    (ps : list (string * Player)) : list (string * Player) :=
  match players_get sock ps with
  | Some _ => ps
  | None =>
      players_set sock (new_Player uuid sock (jd_userId d) (jd_username d)) ps
  end.

(** [const player = players.get(socket.id)] after that fallback. *)
Definition join_player (sock : string) (d : JoinData) (uuid : string)
    (ps : list (string * Player)) : Player :=
  match players_get sock ps with
  | Some p => p
  | None => new_Player uuid sock (jd_userId d) (jd_username d)
  end.

(** The handler up to its balance query.  A player with a [dbId] waits
    for the store; any other is enqueued at once. *)
Definition join_queue (sock : string) (d : JoinData) (uuid : string)
    (env : PairEnv) (s : State) : State * Output :=
  let s1 := set_players (auto_register sock d uuid (players s)) s in
  let player := join_player sock d uuid (players s) in
  let mode := join_mode d in
  let fee := join_fee d in
  if truthy (dbId player) then
    (set_suspended
       (suspended s1 ++ [AwaitBalance sock (playerId player) mode fee]) s1,
     silent)
  else enqueue (playerId player) mode fee env s1.

(** The handler after the balance query has been answered. *)
Definition join_queue_resume (sock pid mode : string) (fee : float)
    (a : BalanceAnswer) (env : PairEnv) (s : State) : State * Output :=
  match insufficient a fee with
  | Some balance => (s, emit [(sock, error_message fee balance)])
  | None => enqueue pid mode fee env s
  end.

(** *** [handleGameOver] *)

(** The three statements of a refund for one side of a drawn match. *)
Definition refund_stmts (fee : float) (user : option string) (mid : string)
    : list Stmt :=
  if truthy user
  then [CreditWallet fee user; InsertTransaction user fee tx_refund mid;
        IncrementDraws user]
  else [].

(** [handleGameOver(match)].  [called_with] is [match.result] as the
    function reads it before its first store statement; [m] is the
    object as it is read after that (the reason of the match record and
    the [game_over] payloads); [ps] is the registry at that time.
    [None] is the [TypeError] of [match.result.reason] on a [null]
    result. *)
Definition handleGameOver (called_with : option Result) (m : Match)
    (ps : list (string * Player)) : option Output :=
  match called_with with
  | None => None
  | Some r0 =>
      match winner r0 with
      | WinnerDraw =>
          match reason r0 with
          | draw =>
              let fee :=
                if js_falsy (entryFee m) then 10%float else entryFee m in
              Some {| emitted := [];
                      issued :=
                        refund_stmts fee (whiteDbId m) (matchId m)
                        ++ refund_stmts fee (blackDbId m) (matchId m)
                        ++ [EndMatchDraw (matchId m)] |}
          | _ => Some silent
          end
      | _ =>
          let white_won := bool_decide (winner r0 = WinnerWhite) in
          let winnerId := if white_won then whiteDbId m else blackDbId m in
          let loserId := if white_won then blackDbId m else whiteDbId m in
          let winnings := (entryFee m * 0.70)%float in
          let companyCut := (entryFee m * 0.30)%float in
          let totalReturn := (entryFee m + winnings)%float in
          match result m with
          | None => None
          | Some r1 =>
              let white_wins := bool_decide (winner r1 = WinnerWhite) in
              let winnerPlayerId :=
                if white_wins then players_white m else players_black m in
              let loserPlayerId :=
                if white_wins then players_black m else players_white m in
              Some {| emitted :=
                        match find_player winnerPlayerId ps with
                        | Some p =>
                            [(socketId p,
                              game_over r1 winnings (Some totalReturn)
                                (YouWon winnings))]
                        | None => []
                        end
                        ++
                        match find_player loserPlayerId ps with
                        | Some p =>
                            [(socketId p,
                              game_over r1 0%float None BetterLuck)]
                        | None => []
                        end;
                      issued :=
                        [RecordWin winnerId; RecordLoss loserId;
                         EndMatchWon winnerId (reason r1) (matchId m);
                         CreditWallet totalReturn winnerId;
                         InsertTransaction winnerId totalReturn tx_winnings
                           (matchId m);
                         InsertEarning (matchId m) companyCut] |}
          end
      end
  end.

(** *** [make_move] *)

(** The handler up to the first store statement of [handleGameOver]. *)
Definition make_move (sock : string) (d : MoveData) (now : Z) (s : State)
    : State * Output :=
  match matches_get (md_matchId d) s with
  | None => (s, silent)
  | Some m =>
      match makeMove (md_from d) (md_to d) (md_promotion d) now m with
      | (_, MoveFailed why) => (s, emit [(sock, illegal_move why)])
      | (m', MoveOk) =>
          let s1 := store_match (md_matchId d) m' s in
          let moveResult :=
            move_result (fen m') (turn m') (whiteMs (clock m'))
              (blackMs (clock m')) (md_from d) (md_to d) (md_promotion d) in
          let push pid :=
            match find_player pid (players s) with
            | Some p => [(socketId p, moveResult)]
            | None => []
            end in
          let out :=
            emit (push (players_white m') ++ push (players_black m')) in
          match status m' with
          | finished =>
              (set_suspended
                 (suspended s1
                  ++ [AwaitSettlement (md_matchId d) (result m')]) s1,
               out)
          | active => (s1, out)
          end
      end
  end.

(** The rest of the handler when the store accepts every statement:
    [handleGameOver] runs to its end, then [matches.delete(matchId)]. *)
Definition make_move_resume (mid : string) (called_with : option Result)
    (s : State) : State * Output :=
  match heap s !! mid with
  | Some m =>
      match handleGameOver called_with m (players s) with
      | Some out => (matches_delete mid s, out)
      | None => (s, silent)
      end
  | None => (s, silent)
  end.

(** The rest of the handler when the store rejects the [k]-th statement
    of [handleGameOver], counted from 0.  Nothing catches the rejection:
    the statements behind it are not issued, no [game_over] is sent and
    [matches.delete(matchId)] is not reached.  [issued] are the
    statements the store has accepted.  The server is taken to go on
    after the rejection, which no handler of the process receives. *)
Definition make_move_abort (mid : string) (called_with : option Result)
    (k : nat) (s : State) : option (State * Output) :=
  match heap s !! mid with
  | Some m =>
      match handleGameOver called_with m (players s) with
      | Some out =>
          if bool_decide (k < length (issued out))%nat
          then Some (s, {| emitted := []; issued := take k (issued out) |})
          else None
      | None => None
      end
  | None => None
  end.

(** *** The event loop *)

Inductive Event :=
| on_register_player (sock : string) (userId : JsId) (uuid : string)
| on_join_queue (sock : string) (d : JoinData) (uuid : string)
    (env : PairEnv)
| on_make_move (sock : string) (d : MoveData) (now : Z)
| on_disconnect (sock : string)
| on_balance_reply (i : nat) (a : BalanceAnswer) (env : PairEnv)
| on_settlement_done (i : nat)
| on_settlement_failed (i k : nat).

(** The store answers the balance query of the [i]-th suspended
    continuation. *)
Definition balance_reply (i : nat) (a : BalanceAnswer) (env : PairEnv)
    (s : State) : option (State * Output) :=
  match suspended s !! i with
  | Some (AwaitBalance sock pid mode fee) =>
      Some (join_queue_resume sock pid mode fee a env
              (set_suspended (delete i (suspended s)) s))
  | _ => None
  end.

(** The store has answered the statements of the [i]-th suspended
    continuation, a settlement. *)
Definition settlement_done (i : nat) (s : State) : option (State * Output) :=
  match suspended s !! i with
  | Some (AwaitSettlement mid r) =>
      Some (make_move_resume mid r
              (set_suspended (delete i (suspended s)) s))
  | _ => None
  end.

(** The store rejects the [k]-th statement of the [i]-th suspended
    continuation, a settlement. *)
Definition settlement_failed (i k : nat) (s : State)
    : option (State * Output) :=
  match suspended s !! i with
  | Some (AwaitSettlement mid r) =>
      make_move_abort mid r k (set_suspended (delete i (suspended s)) s)
  | _ => None
  end.

Definition handle (e : Event) (s : State) : option (State * Output) :=
  match e with
  | on_register_player sock userId uuid =>
      Some (register_player sock userId uuid s)
  | on_join_queue sock d uuid env => Some (join_queue sock d uuid env s)
  | on_make_move sock d now => Some (make_move sock d now s)
  | on_disconnect sock => Some (disconnect sock s)
  | on_balance_reply i a env => balance_reply i a env s
  | on_settlement_done i => settlement_done i s
  | on_settlement_failed i k => settlement_failed i k s
  end.

(** The events that belong to the handling of a [make_move]. *)
Definition is_make_move (e : Event) : bool :=
  match e with
  | on_make_move _ _ _ | on_settlement_done _ | on_settlement_failed _ _ =>
      true
  | _ => false
  end.

(** [uuidv4()] never answers the id of a [Match] that exists. *)
Definition fresh (e : Event) (s : State) : Prop :=
  match e with
  | on_join_queue _ _ _ env | on_balance_reply _ _ env =>
      freshMatchId env ∉ dom (heap s)
  | _ => True
  end.

#[local] Instance fresh_dec e s : Decision (fresh e s).
Proof. destruct e; simpl; apply _. Defined.

Definition step (s : State) (e : Event) (s' : State) : Prop :=
  fresh e s /\ exists out, handle e s = Some (s', out).

Inductive reachable : State -> Prop :=
| reachable_initial : reachable initial_state
| reachable_step s e s' : reachable s -> step s e s' -> reachable s'.

(** The run of a list of events from [s], with what each event sent
    out; [None] if an event replies to no continuation or brings an id
    that is in use. *)
Fixpoint run (es : list Event) (s : State) : option (State * list Output) :=
  match es with
  | [] => Some (s, [])
  | e :: es' =>
      if bool_decide (fresh e s) then
        match handle e s with
        | Some (s1, out) =>
            match run es' s1 with
            | Some (s2, outs) => Some (s2, out :: outs)
            | None => None
            end
        | None => None
        end
      else None
  end.

(** The state a run ends in ([s] itself if the run is refused). *)
Definition state_after (es : list Event) (s : State) : State :=
  match run es s with Some (s', _) => s' | None => s end.

(** What the last event of a run sent out. *)
Definition last_output (es : list Event) (s : State) : Output :=
  match run es s with
  | Some (_, outs) => List.last outs silent
  | None => silent
  end.

(** The test of the clean-up loop of [register_player]: the entry holds
    the account that registers, on another connection. *)
Definition evicted (userId : JsId) (sock : string) (e : string * Player)
    : Prop :=
  same_dbId (dbId (snd e)) userId && negb (bool_decide (fst e = sock)) = true.

(** [same_matches s s']: the two states have the same [Match] objects
    and the same Map [matches]. *)
Definition same_matches (s s' : State) : Prop :=
  heap s' = heap s /\ matches s' = matches s.

(** *** Invariants of the reachable states *)

(** A result is well formed when a drawn one carries the reason
    [draw]. *)
Definition outcome_ok (o : option Result) : Prop :=
  forall r, o = Some r -> winner r = WinnerDraw -> reason r = draw.

(** No player id is twice in a queue, or in two queues. *)
Definition queues_ok (qs : gmap string (list string)) : Prop :=
  (forall mode q, qs !! mode = Some q -> NoDup q) /\
  (forall m1 m2 q1 q2 pid,
     qs !! m1 = Some q1 -> qs !! m2 = Some q2 ->
     pid ∈ q1 -> pid ∈ q2 -> m1 = m2).

(** [shrinks qs' qs]: every queue of [qs'] is the queue of the same mode
    in [qs] with some entries taken out. *)
Definition shrinks (qs' qs : gmap string (list string)) : Prop :=
  forall mode q', qs' !! mode = Some q' ->
    exists q, qs !! mode = Some q /\ q' `sublist_of` q.

Definition match_ok (m : Match) : Prop :=
  js_falsy (entryFee m) = false /\ outcome_ok (result m).

Definition task_ok (s : State) (t : Task) : Prop :=
  match t with
  | AwaitBalance _ _ _ fee => js_falsy fee = false
  | AwaitSettlement mid _ =>
      exists m, heap s !! mid = Some m /\ status m = finished
  end.

Record inv (s : State) : Prop := {
  inv_queues : queues_ok (queues s);
  inv_heap : forall mid m, heap s !! mid = Some m -> match_ok m;
  inv_tasks : forall t, t ∈ suspended s -> task_ok s t
}.

End Engine.

(** ** A rules engine for worked examples

    chess.js restricted to three games: a position is the list of moves
    played, a move is accepted when it continues one of the games, and
    the terminal flags are those chess.js raises at the end of the game:
    checkmate after [fools_mate], a draw by threefold repetition after
    [knights_dance].  The FEN of a position is stood in for by its
    moves. *)

Definition fools_mate : list (string * string) :=
  [("f2", "f3"); ("e7", "e5"); ("g2", "g4"); ("d8", "h4")].

Definition knights_dance : list (string * string) :=
  [("g1", "f3"); ("g8", "f6"); ("f3", "g1"); ("f6", "g8");
   ("g1", "f3"); ("g8", "f6"); ("f3", "g1"); ("f6", "g8")].

Definition open_game : list (string * string) :=
  [("e2", "e4"); ("e7", "e5")].

Definition scripted_games : list (list (string * string)) :=
  [fools_mate; knights_dance; open_game].

Definition script_move (pos : list (string * string)) (from to : string)
    (promotion : option string) : option (list (string * string)) :=
  let pos' := pos ++ [(from, to)] in
  match promotion with
  | Some _ => None
  | None =>
      if existsb (fun g => bool_decide (take (length pos') g = pos'))
           scripted_games
      then Some pos' else None
  end.

#[global] Instance script_oracle : RulesOracle := {|
  position := list (string * string);
  chess_new := [];
  chess_move := script_move;
  chess_turn := fun pos => if Nat.even (length pos) then white else black;
  chess_fen :=
    fun pos => String.concat " " (List.map (fun p => fst p +:+ snd p) pos);
  chess_isCheckmate := fun pos => bool_decide (pos = fools_mate);
  chess_isDraw := fun pos => bool_decide (pos = knights_dance)
|}.

(** *** Worked scenarios *)

Definition bullet_env (mid : string) (now : Z) : PairEnv :=
  {| isP1White := true; freshMatchId := mid; pairedAt := now |}.

Definition join_data (user : JsId) (mode : option string) (fee : float)
    (name : string) : JoinData :=
  {| jd_userId := user; jd_gameMode := mode; jd_entryFee := fee;
     jd_username := Some name |}.

Definition move_on (mid from to : string) : MoveData :=
  {| md_matchId := mid; md_from := from; md_to := to;
     md_promotion := None |}.

(** Two anonymous connections [sA] and [sB] join BULLET with stake 10
    and are paired at time 1000 in match [m1], [sA] as white. *)
Definition anonymous_pairing : list Event :=
  [on_join_queue "sA" (join_data JsUndefined None 10 "alice") "pA"
     (bullet_env "m1" 1000);
   on_join_queue "sB" (join_data JsUndefined None 10 "bob") "pB"
     (bullet_env "m1" 1000)].

(** Two accounts [uA] and [uB], each with balance 50, register, join
    BULLET with stake 10 and are paired at time 1000 in match [m1], [uA]
    as white. *)
Definition account_pairing : list Event :=
  [on_register_player "sA" (JsStr "uA") "pA";
   on_register_player "sB" (JsStr "uB") "pB";
   on_join_queue "sA" (join_data (JsStr "uA") None 10 "alice") "xA"
     (bullet_env "m1" 1000);
   on_balance_reply 0 (Rows [50%float]) (bullet_env "m1" 1000);
   on_join_queue "sB" (join_data (JsStr "uB") None 10 "bob") "xB"
     (bullet_env "m1" 1000);
   on_balance_reply 0 (Rows [50%float]) (bullet_env "m1" 1000)].

(** In [m1], white plays f3 at 6000, black e5 at 7000, and white plays
    g4 only at 100000. *)
Definition slow_third_move : list Event :=
  [on_make_move "sA" (move_on "m1" "f2" "f3") 6000;
   on_make_move "sB" (move_on "m1" "e7" "e5") 7000;
   on_make_move "sA" (move_on "m1" "g2" "g4") 100000].

(** In [m1], both sides move a knight out and back twice, one move a
    second. *)
Definition repetition : list Event :=
  [on_make_move "sA" (move_on "m1" "g1" "f3") 2000;
   on_make_move "sB" (move_on "m1" "g8" "f6") 3000;
   on_make_move "sA" (move_on "m1" "f3" "g1") 4000;
   on_make_move "sB" (move_on "m1" "f6" "g8") 5000;
   on_make_move "sA" (move_on "m1" "g1" "f3") 6000;
   on_make_move "sB" (move_on "m1" "g8" "f6") 7000;
   on_make_move "sA" (move_on "m1" "f3" "g1") 8000;
   on_make_move "sB" (move_on "m1" "f6" "g8") 9000].

(** Account [uA] joins BLITZ with stake 5 and waits; account [uB] then
    joins BLITZ with stake 100 and the two are paired. *)
Definition uneven_stakes : list Event :=
  [on_register_player "sA" (JsStr "uA") "pA";
   on_register_player "sB" (JsStr "uB") "pB";
   on_join_queue "sA" (join_data (JsStr "uA") (Some "BLITZ") 5 "alice") "xA"
     (bullet_env "m1" 1000);
   on_balance_reply 0 (Rows [5%float]) (bullet_env "m1" 1000);
   on_join_queue "sB" (join_data (JsStr "uB") (Some "BLITZ") 100 "bob") "xB"
     (bullet_env "m1" 1000);
   on_balance_reply 0 (Rows [500%float]) (bullet_env "m1" 1000)].

(** The [Match] object [mid] of a state, and the registry entry of a
    connection. *)
Definition match_of (mid : string) (s : State) : Match :=
  default (new_Match mid EmptyString EmptyString None None EmptyString 0 0)
    (heap s !! mid).

Definition player_of (sock : string) (s : State) : Player :=
  default (new_Player EmptyString sock JsUndefined None)
    (players_get sock (players s)).

(** [m1] between two anonymous players after white's first move, played
    at 6000: black is to move with 55000 ms left. *)
Definition black_to_move : State :=
  state_after
    (anonymous_pairing ++ [on_make_move "sA" (move_on "m1" "f2" "f3") 6000])
    initial_state.

(** [m1] between the accounts [uA] and [uB], finished on time by white's
    slow third move; its settlement waits for the store. *)
Definition settling : State :=
  state_after (account_pairing ++ slow_third_move) initial_state.

(** The same once the settlement has run. *)
Definition settled : State :=
  state_after (account_pairing ++ slow_third_move ++ [on_settlement_done 0])
    initial_state.

(** The accounts [uA] and [uB] are registered on [sA] and [sB]. *)
Definition registered : State :=
  state_after (take 2 account_pairing) initial_state.

(** Account [uA] waits in the BULLET queue on connection [sA]. *)
Definition queued : State :=
  state_after (take 4 account_pairing) initial_state.

(** Account [uA] waits in the BLITZ queue, where it joined with stake
    5. *)
Definition blitz_waiting : State :=
  state_after (take 4 uneven_stakes) initial_state.


(** ** Further predicates *)

(** A registry is well formed when no connection has two entries and
    every [Player] is stored under its own [socketId]. *)
Definition registry_ok (ps : list (string * Player)) : Prop :=
  NoDup (fst <$> ps) /\ forall e, e ∈ ps -> socketId (snd e) = fst e.

(** No own key of [queues] is a name it inherits from
    [Object.prototype]. *)
Definition keys_ok (qs : gmap string (list string)) : Prop :=
  forall mode, mode ∈ object_prototype_keys -> qs !! mode = None.

(** No queue holds more than one entry. *)
Definition waiting_ok (qs : gmap string (list string)) : Prop :=
  forall mode q, qs !! mode = Some q -> (length q <= 1)%nat.

(** A queue entry that [matchPlayers] drops when it is the second of
    the queue behind the player [p1]: stale, or of the account of
    [p1]. *)
Definition dropped_behind (p1 : Player) (ps : list (string * Player))
    (pid : string) : Prop :=
  live_player pid ps = None \/
  exists p, live_player pid ps = Some p /\ self_match p1 p = true.

Section SessionPredicates.

Context {oracle : RulesOracle}.

Definition clock_ok (m : Match) : Prop :=
  0 <= whiteMs (clock m) /\ 0 <= blackMs (clock m) /\
  (status m = active -> 0 < whiteMs (clock m) /\ 0 < blackMs (clock m)).

(** The fields of a [Match] that are set by the constructor only. *)
Definition same_session (m m' : Match) : Prop :=
  matchId m' = matchId m /\
  players_white m' = players_white m /\
  players_black m' = players_black m /\
  whiteDbId m' = whiteDbId m /\
  blackDbId m' = blackDbId m /\
  gameMode m' = gameMode m /\
  entryFee m' = entryFee m.

Definition match_wf (mid : string) (m : Match) : Prop :=
  matchId m = mid /\
  clock_ok m /\
  (status m = finished <-> is_Some (result m)) /\
  players_white m <> players_black m /\
  truthy (whiteDbId m) && truthy (blackDbId m)
  && bool_decide (whiteDbId m = blackDbId m) = false.

Definition task_wf (t : Task) : Prop :=
  match t with
  | AwaitSettlement _ r => is_Some r /\ outcome_ok r
  | AwaitBalance _ _ _ _ => True
  end.

Record wf (s : State) : Prop := {
  wf_registry : registry_ok (players s);
  wf_heap : forall mid m, heap s !! mid = Some m -> match_wf mid m;
  wf_tasks : forall t, t ∈ suspended s -> task_wf t;
  wf_keys : keys_ok (queues s);
  wf_waiting : waiting_ok (queues s)
}.

(** The statement that closes the record of match [mid]. *)
Definition closes (mid : string) (st : Stmt) : bool :=
  match st with
  | EndMatchDraw mid' | EndMatchWon _ _ mid' => bool_decide (mid' = mid)
  | _ => false
  end.

(** The events the handling of [e] may push to a connection [to]:
    [force_disconnect] from a registration, [match_found] from a join,
    [error_message] or [match_found] from the answer to a balance
    query, [move_result], or [illegal_move] to the sender, from a
    move, [game_over] from a settlement the store accepts, and nothing
    from a disconnect or from a settlement the store rejects. *)
Definition may_send (e : Event) (to : string) (p : Payload) : bool :=
  match e, p with
  | on_register_player _ _ _, force_disconnect => true
  | on_join_queue _ _ _ _, match_found _ _ _ _ _ => true
  | on_balance_reply _ _ _, (error_message _ _ | match_found _ _ _ _ _) =>
      true
  | on_make_move _ _ _, move_result _ _ _ _ _ _ _ => true
  | on_make_move sock _ _, illegal_move _ => bool_decide (to = sock)
  | on_settlement_done _, game_over _ _ _ _ => true
  | _, _ => false
  end.

End SessionPredicates.

(** ** [POST /api/wallet/add]

    The handler takes a client from the pool and runs, in a
    transaction, the update of the balance and the insertion of a
    [deposit] transaction.  [ok] tells which statements the store
    accepts; a refused statement is a rejected promise. *)

Inductive WalletQuery :=
| q_begin
| q_update (amount : Q) (userId : string)
| q_insert_deposit (userId : string) (amount : Q)
| q_commit
| q_rollback.

Inductive ClientCall := Query (q : WalletQuery) | Release.

(** [res.json({ success: true, ... })] or
    [res.status(500).json({ success: false, ... })]. *)
Inductive WalletResponse := cash_added | server_error.

(** The statements of the [try] block: each is awaited, and the first
    that is refused ends the block.  The answer is the statements sent
    and whether the block ran to its end. *)
Fixpoint try_queries (ok : WalletQuery -> bool) (qs : list WalletQuery)
    : list WalletQuery * bool :=
  match qs with
  | [] => ([], true)
  | q :: qs' =>
      if ok q then
        let '(sent, done) := try_queries ok qs' in (q :: sent, done)
      else ([q], false)
  end.

(** The handler: the calls on the client, in order, and the response,
    if one is sent.  [connects] is whether [pool.connect()] answers. *)
Definition wallet_add (connects : bool) (ok : WalletQuery -> bool)
    (userId : string) (amount : Q)
    : list ClientCall * option WalletResponse :=
  if connects then
    let '(sent, done) :=
      try_queries ok
        [q_begin; q_update amount userId; q_insert_deposit userId amount;
         q_commit] in
    if done then (List.map Query sent ++ [Release], Some cash_added)
    else if ok q_rollback then
      (List.map Query sent ++ [Query q_rollback; Release], Some server_error)
    else (List.map Query sent ++ [Query q_rollback; Release], None)
  else ([], None).

(** *** Further worked states *)

(** The accounts [uA] and [uB] are registered on [sA] and [sB]; the
    BULLET queue holds an id [pZ] that is not in the registry, then
    [pA] and [pB]. *)
Definition two_in_line : State :=
  set_queues (<["BULLET" := ["pZ"; "pA"; "pB"]]> (queues registered))
    registered.

(** Account [uA] is registered on [sA]; connection [sG] has joined
    without an account and waits in the BULLET queue. *)
Definition with_guest : State :=
  state_after
    [on_register_player "sA" (JsStr "uA") "pA";
     on_join_queue "sG" (join_data JsUndefined None 10 "guest") "pG"
       (bullet_env "m1" 1000)]
    initial_state.

(** The anonymous connection [sA] has joined a mode of its own naming,
    [ARENA]. *)
Definition own_mode : State :=
  state_after
    [on_join_queue "sA" (join_data JsUndefined (Some "ARENA") 10 "alice") "pA"
       (bullet_env "m1" 1000)]
    initial_state.

(** [account_pairing] with another stake: the accounts [uA] and [uB],
    each with balance 50, join BULLET with stake [fee] and are paired
    at time 1000 in match [m1], [uA] as white. *)
Definition account_pairing_at (fee : float) : list Event :=
  [on_register_player "sA" (JsStr "uA") "pA";
   on_register_player "sB" (JsStr "uB") "pB";
   on_join_queue "sA" (join_data (JsStr "uA") None fee "alice") "xA"
     (bullet_env "m1" 1000);
   on_balance_reply 0 (Rows [50%float]) (bullet_env "m1" 1000);
   on_join_queue "sB" (join_data (JsStr "uB") None fee "bob") "xB"
     (bullet_env "m1" 1000);
   on_balance_reply 0 (Rows [50%float]) (bullet_env "m1" 1000)].

(** [m1] with stake [fee], finished on time by white's slow third
    move; its settlement waits for the store. *)
Definition settling_at (fee : float) : State :=
  state_after (account_pairing_at fee ++ slow_third_move) initial_state.

(** In [m1] with stake 10, black answers only at 100000, which uses up
    the budget of white (the clock charges the side that is to move
    next); white plays g4 at 100500 while the settlement waits.  Each
    of the two moves finds a budget at zero and starts a settlement. *)
Definition finished_twice : State :=
  state_after
    (account_pairing
     ++ [on_make_move "sA" (move_on "m1" "f2" "f3") 6000;
         on_make_move "sB" (move_on "m1" "e7" "e5") 100000;
         on_make_move "sA" (move_on "m1" "g2" "g4") 100500])
    initial_state.

(** The environment of a pairing in which the second player of the
    pair is white. *)
Definition second_is_white (mid : string) (now : Z) : PairEnv :=
  {| isP1White := false; freshMatchId := mid; pairedAt := now |}.

(** ** Properties of [Match] *)

Section MatchProperties.

Context {oracle : RulesOracle}.

Lemma updateClock_clock now m :
  clock (fst (updateClock now m)) = charge (turn m) now (clock m).
Proof.
  unfold updateClock. cbn.
  repeat case_match; reflexivity.
Qed.

Lemma updateClock_status now m :
  status m = finished -> status (fst (updateClock now m)) = finished.
Proof.
  intros Hm. unfold updateClock. repeat case_match; cbn; auto.
Qed.

(** An accepted move takes the elapsed time from the budget of the side
    the oracle reports to move next, and leaves the other budget as it
    was. *)
Lemma makeMove_clock from to promotion now m pos :
  chess_move (chess m) from to promotion = Some pos ->
  clock (fst (makeMove from to promotion now m))
  = charge (chess_turn pos) now (clock m).
Proof.
  intros Hmove. unfold makeMove. rewrite Hmove. cbn.
  assert (Hc : clock (fst (updateClock now (set_position pos m)))
               = charge (chess_turn pos) now (clock m))
    by (rewrite updateClock_clock; reflexivity).
  repeat case_match; cbn; exact Hc.
Qed.

Lemma makeMove_refused from to promotion now m :
  chess_move (chess m) from to promotion = None ->
  makeMove from to promotion now m = (m, MoveFailed "Invalid move").
Proof. intros Hmove. unfold makeMove. rewrite Hmove. reflexivity. Qed.

Lemma makeMove_status from to promotion now m :
  status m = finished ->
  status (fst (makeMove from to promotion now m)) = finished.
Proof.
  intros Hm. unfold makeMove. case_match; cbn; [|exact Hm].
  assert (status (fst (updateClock now (set_position p m))) = finished)
    by (apply updateClock_status; exact Hm).
  repeat case_match; cbn; auto.
Qed.

Lemma makeMove_entryFee from to promotion now m :
  entryFee (fst (makeMove from to promotion now m)) = entryFee m.
Proof.
  unfold makeMove, updateClock. repeat case_match; reflexivity.
Qed.

Lemma makeMove_outcome_ok from to promotion now m :
  outcome_ok (result m) ->
  outcome_ok (result (fst (makeMove from to promotion now m))).
Proof.
  intros Hm. unfold makeMove, updateClock.
  repeat case_match; cbn; try exact Hm;
    intros r [= <-]; cbn; try discriminate; try reflexivity;
    destruct (chess_turn _); discriminate.
Qed.

(** The timeout verdict of an accepted move that is neither mate nor
    draw: a side whose budget is at zero after the deduction loses. *)
Lemma makeMove_timeout from to promotion now m pos m' :
  chess_move (chess m) from to promotion = Some pos ->
  chess_isCheckmate pos = false ->
  chess_isDraw pos = false ->
  fst (makeMove from to promotion now m) = m' ->
  (whiteMs (clock m') = 0 ->
   status m' = finished /\
   result m' = Some {| winner := WinnerBlack; reason := timeout |}) /\
  (whiteMs (clock m') <> 0 -> blackMs (clock m') = 0 ->
   status m' = finished /\
   result m' = Some {| winner := WinnerWhite; reason := timeout |}) /\
  (whiteMs (clock m') <> 0 -> blackMs (clock m') <> 0 ->
   status m' = status m /\ result m' = result m).
Proof.
  intros Hmove Hmate Hdraw <-. unfold makeMove.
  rewrite Hmove, Hmate, Hdraw. cbn. unfold updateClock.
  destruct (Z.eqb_spec
              (whiteMs (clock (set_clock
                 (charge (turn (set_position pos m)) now
                    (clock (set_position pos m))) (set_position pos m)))) 0)
    as [Hw|Hw]; cbn in *.
  - repeat split; intros; try reflexivity; congruence.
  - destruct (Z.eqb_spec
              (blackMs (charge (chess_turn pos) now (clock m))) 0)
      as [Hb|Hb]; cbn in *.
    + repeat split; intros; try reflexivity; congruence.
    + repeat split; intros; try reflexivity; congruence.
Qed.

End MatchProperties.

(** C3.  In a BULLET match started at time 1000, white answers with its
    first move f2-f3 at time 6000.  The 5000 ms white spent are taken
    from black's budget and white's budget is untouched; had white
    waited until 71000, black's budget would be at zero and white would
    win on time. *)
Theorem C3_white_moves_black_is_charged :
  let m0 := new_Match "m1" "pA" "pB" None None "BULLET" 10 1000 in
  turn m0 = white /\
  clock m0 = {| whiteMs := 60000; blackMs := 60000; lastMoveTs := 1000 |} /\
  snd (makeMove "f2" "f3" None 6000 m0) = MoveOk /\
  clock (fst (makeMove "f2" "f3" None 6000 m0))
  = {| whiteMs := 60000; blackMs := 55000; lastMoveTs := 6000 |} /\
  clock (fst (makeMove "f2" "f3" None 71000 m0))
  = {| whiteMs := 60000; blackMs := 0; lastMoveTs := 71000 |} /\
  result (fst (makeMove "f2" "f3" None 71000 m0))
  = Some {| winner := WinnerWhite; reason := timeout |}.
Proof. vm_compute. repeat split; reflexivity. Qed.

(** ** What each handler leaves alone *)

(** From [handle e s = Some (s', out)] for a handler that always
    answers, name [s'] as the state the handler ends in. *)
Ltac handled H s' :=
  injection H as H; apply (f_equal fst) in H; cbn [fst] in H; subst s'.

Section Frames.

Context {oracle : RulesOracle}.

Lemma same_matches_refl s : same_matches s s.
Proof. split; reflexivity. Qed.

Lemma evict_fold_frame userId sock l acc :
  same_matches (fst acc) (fst (fold_left (evict userId sock) l acc)) /\
  suspended (fst (fold_left (evict userId sock) l acc))
  = suspended (fst acc).
Proof.
  revert acc. induction l as [|e l IH]; intros acc; cbn.
  - split; [apply same_matches_refl | reflexivity].
  - destruct (IH (evict userId sock acc e)) as [[Hh Hm] Hs].
    unfold same_matches. rewrite Hh, Hm, Hs.
    unfold evict. case_match; cbn; auto.
Qed.

Lemma register_player_frame sock userId uuid s :
  same_matches s (fst (register_player sock userId uuid s)) /\
  suspended (fst (register_player sock userId uuid s)) = suspended s.
Proof.
  unfold register_player.
  pose proof (evict_fold_frame userId sock (players s) (s, [])) as H.
  destruct (fold_left _ _ _) as [s1 es]. cbn in *. exact H.
Qed.

Lemma disconnect_frame sock s :
  same_matches s (fst (disconnect sock s)) /\
  suspended (fst (disconnect sock s)) = suspended s.
Proof.
  unfold disconnect, same_matches. case_match; cbn; auto.
Qed.

(** [matchPlayers] may construct one [Match], under the id it drew. *)
Lemma matchPlayers_frame mode fee env s :
  let s' := fst (matchPlayers mode fee env s) in
  suspended s' = suspended s /\
  (same_matches s s' \/
   exists m,
     heap s' = <[freshMatchId env := m]> (heap s) /\
     entryFee m = fee /\ status m = active /\ result m = None /\
     matches s' = {[freshMatchId env]} ∪ matches s).
Proof.
  unfold matchPlayers.
  destruct (queues s !! mode) as [q0|]; cbn;
    [|split; [reflexivity | left; split; reflexivity]].
  destruct (pair_queue (players s) q0) as [q [[p1 p2]|]]; cbn.
  - split; [reflexivity|]. right. eexists.
    split; [reflexivity|]. cbn. auto.
  - split; [reflexivity | left; split; reflexivity].
Qed.

Lemma enqueue_frame pid mode fee env s :
  let s' := fst (enqueue pid mode fee env s) in
  suspended s' = suspended s /\
  (same_matches s s' \/
   exists m,
     heap s' = <[freshMatchId env := m]> (heap s) /\
     entryFee m = fee /\ status m = active /\ result m = None /\
     matches s' = {[freshMatchId env]} ∪ matches s).
Proof.
  unfold enqueue. case_match; cbn.
  - split; [reflexivity | left; split; reflexivity].
  - case_match; cbn.
    + match goal with
      | |- context [matchPlayers _ _ _ ?s2] =>
          pose proof (matchPlayers_frame mode fee env s2) as Hframe
      end.
      cbn in Hframe. exact Hframe.
    + split; [reflexivity | left; split; reflexivity].
Qed.

Lemma make_move_frame sock d now s :
  let s' := fst (make_move sock d now s) in
  matches s' = matches s /\
  forall mid, mid <> md_matchId d -> heap s' !! mid = heap s !! mid.
Proof.
  unfold make_move.
  destruct (matches_get (md_matchId d) s) as [m|]; cbn; [|auto].
  destruct (makeMove _ _ _ _ m) as [m' [|why]]; cbn; [|auto].
  destruct (status m'); cbn; split; try reflexivity;
    intros mid Hne; rewrite lookup_insert_ne; auto.
Qed.

Lemma make_move_resume_frame mid r s :
  let s' := fst (make_move_resume mid r s) in
  heap s' = heap s /\ suspended s' = suspended s /\
  (matches s' = matches s \/ matches s' = matches s ∖ {[mid]}).
Proof.
  unfold make_move_resume. repeat case_match; cbn; auto.
Qed.

(** A settlement that the store rejects leaves the state as it is, but
    for its continuation, and sends nothing. *)
Lemma settlement_failed_frame i k s s' out :
  settlement_failed i k s = Some (s', out) ->
  s' = set_suspended (delete i (suspended s)) s /\ emitted out = [].
Proof.
  unfold settlement_failed, make_move_abort.
  repeat case_match; try discriminate. intros [= <- <-]. auto.
Qed.

(** A [Match] object changes only under a [make_move] for its id. *)
Lemma step_heap s e s' mid m :
  step s e s' ->
  heap s !! mid = Some m ->
  (forall sock d now, e = on_make_move sock d now -> md_matchId d <> mid) ->
  heap s' !! mid = Some m.
Proof.
  intros [Hfresh [out Hh]] Hm Hnot.
  assert (Hmid : mid ∈ dom (heap s)) by (apply elem_of_dom; eauto).
  destruct e as [sock u uuid|sock d uuid env|sock d now|sock|i a env|i|i k];
    cbn in Hh, Hfresh.
  - handled Hh s'.
    destruct (register_player_frame sock u uuid s) as [[-> _] _]. exact Hm.
  - handled Hh s'. unfold join_queue.
    case_match; cbn; [exact Hm|].
    match goal with
    | |- context [enqueue ?p ?mo ?f ?en ?s1] =>
        destruct (enqueue_frame p mo f en s1)
          as [_ [[-> _]|(m' & -> & _)]]
    end; cbn; [exact Hm|].
    rewrite lookup_insert_ne; [exact Hm|].
    intros Heq. apply Hfresh. rewrite Heq. exact Hmid.
  - handled Hh s'.
    destruct (make_move_frame sock d now s) as [_ ->]; [exact Hm|].
    intros Heq. eapply Hnot; [reflexivity | symmetry; exact Heq].
  - handled Hh s'.
    destruct (disconnect_frame sock s) as [[-> _] _]. exact Hm.
  - unfold balance_reply in Hh. repeat case_match; try discriminate.
    handled Hh s'. unfold join_queue_resume.
    case_match; cbn; [exact Hm|].
    match goal with
    | |- context [enqueue ?p ?mo ?f ?en ?s1] =>
        destruct (enqueue_frame p mo f en s1)
          as [_ [[-> _]|(m' & -> & _)]]
    end; cbn; [exact Hm|].
    rewrite lookup_insert_ne; [exact Hm|].
    intros Heq. apply Hfresh. rewrite Heq. exact Hmid.
  - unfold settlement_done in Hh. repeat case_match; try discriminate.
    handled Hh s'.
    match goal with
    | |- context [make_move_resume ?a ?b ?s1] =>
        destruct (make_move_resume_frame a b s1) as [-> _]
    end. exact Hm.
  - apply settlement_failed_frame in Hh as [-> _]. exact Hm.
Qed.

(** An id that has left the Map [matches] does not come back. *)
Lemma step_not_live s e s' mid :
  step s e s' ->
  mid ∈ dom (heap s) ->
  mid ∉ matches s ->
  mid ∉ matches s'.
Proof.
  intros [Hfresh [out Hh]] Hmid Hdead.
  destruct e as [sock u uuid|sock d uuid env|sock d now|sock|i a env|i|i k];
    cbn in Hh, Hfresh.
  - handled Hh s'.
    destruct (register_player_frame sock u uuid s) as [[_ ->] _]. exact Hdead.
  - handled Hh s'. unfold join_queue.
    case_match; cbn; [exact Hdead|].
    match goal with
    | |- context [enqueue ?p ?mo ?f ?en ?s1] =>
        destruct (enqueue_frame p mo f en s1)
          as [_ [[_ ->]|(m' & _ & _ & _ & _ & ->)]]
    end; cbn; [exact Hdead|].
    intros [Heq%elem_of_singleton|Hin]%elem_of_union; [|exact (Hdead Hin)].
    apply Hfresh. rewrite <- Heq. exact Hmid.
  - handled Hh s'.
    destruct (make_move_frame sock d now s) as [-> _]. exact Hdead.
  - handled Hh s'.
    destruct (disconnect_frame sock s) as [[_ ->] _]. exact Hdead.
  - unfold balance_reply in Hh. repeat case_match; try discriminate.
    handled Hh s'. unfold join_queue_resume.
    case_match; cbn; [exact Hdead|].
    match goal with
    | |- context [enqueue ?p ?mo ?f ?en ?s1] =>
        destruct (enqueue_frame p mo f en s1)
          as [_ [[_ ->]|(m' & _ & _ & _ & _ & ->)]]
    end; cbn; [exact Hdead|].
    intros [Heq%elem_of_singleton|Hin]%elem_of_union; [|exact (Hdead Hin)].
    apply Hfresh. rewrite <- Heq. exact Hmid.
  - unfold settlement_done in Hh. repeat case_match; try discriminate.
    handled Hh s'.
    match goal with
    | |- context [make_move_resume ?a ?b ?s1] =>
        destruct (make_move_resume_frame a b s1) as (_ & _ & [-> | ->])
    end; cbn; [exact Hdead|].
    intros [Hin _]%elem_of_difference. exact (Hdead Hin).
  - apply settlement_failed_frame in Hh as [-> _]. exact Hdead.
Qed.

(** A move for an id that is not in the Map [matches] does nothing. *)
Lemma make_move_unknown sock d now s :
  md_matchId d ∉ matches s ->
  make_move sock d now s = (s, silent).
Proof.
  intros Hdead. unfold make_move, matches_get.
  rewrite bool_decide_eq_false_2 by exact Hdead. reflexivity.
Qed.

Lemma step_make_move sock d now s :
  step s (on_make_move sock d now) (fst (make_move sock d now s)).
Proof.
  split; [exact I|]. exists (snd (make_move sock d now s)). cbn [handle].
  destruct (make_move sock d now s); reflexivity.
Qed.

(** The state after a move does not depend on who sent it. *)
Lemma make_move_any_sender sock1 sock2 d now s :
  fst (make_move sock1 d now s) = fst (make_move sock2 d now s).
Proof.
  unfold make_move. repeat case_match; reflexivity.
Qed.

Lemma run_reachable es : forall s s' outs,
  reachable s -> run es s = Some (s', outs) -> reachable s'.
Proof.
  induction es as [|e es IH]; intros s s' outs Hs Hrun; cbn in Hrun.
  - injection Hrun as <- _. exact Hs.
  - case_bool_decide as Hf; [|discriminate].
    destruct (handle e s) as [[s1 out]|] eqn:He; [|discriminate].
    destruct (run es s1) as [[s2 outs']|] eqn:Hr; [|discriminate].
    injection Hrun as <- _.
    eapply IH; [|exact Hr].
    eapply reachable_step; [exact Hs|]. split; [exact Hf|]. eauto.
Qed.

Lemma state_after_reachable es s :
  reachable s -> reachable (state_after es s).
Proof.
  intros Hs. unfold state_after.
  destruct (run es s) as [[s' outs]|] eqn:Hr; [|exact Hs].
  eapply run_reachable; eauto.
Qed.

End Frames.

(** ** The queues *)

Section Queues.

Lemma remove_first_sublist x q : remove_first x q `sublist_of` q.
Proof.
  induction q as [|y q IH]; cbn; [constructor|].
  case_bool_decide; [apply sublist_cons; reflexivity|].
  apply sublist_skip. exact IH.
Qed.

Lemma remove_first_gone x q : NoDup q -> x ∉ remove_first x q.
Proof.
  induction 1 as [|y q Hy Hq IH]; cbn; [apply not_elem_of_nil|].
  case_bool_decide as Hxy; [subst; exact Hy|].
  intros [->|Hin]%elem_of_cons; [congruence|]. exact (IH Hin).
Qed.

Lemma shrinks_refl qs : shrinks qs qs.
Proof. intros mode q Hq. exists q. split; [exact Hq | reflexivity]. Qed.

Lemma shrinks_trans qs1 qs2 qs3 :
  shrinks qs1 qs2 -> shrinks qs2 qs3 -> shrinks qs1 qs3.
Proof.
  intros H12 H23 mode q1 Hq1.
  destruct (H12 mode q1 Hq1) as (q2 & Hq2 & Hs12).
  destruct (H23 mode q2 Hq2) as (q3 & Hq3 & Hs23).
  exists q3. split; [exact Hq3 | etrans; eauto].
Qed.

Lemma queues_ok_shrinks qs qs' :
  queues_ok qs -> shrinks qs' qs -> queues_ok qs'.
Proof.
  intros [Hnd Hone] Hsh. split.
  - intros mode q' Hq'. destruct (Hsh mode q' Hq') as (q & Hq & Hsub).
    eapply sublist_NoDup; [eapply Hnd; exact Hq | exact Hsub].
  - intros m1 m2 q1 q2 pid H1 H2 Hin1 Hin2.
    destruct (Hsh m1 q1 H1) as (k1 & Hk1 & Hs1).
    destruct (Hsh m2 q2 H2) as (k2 & Hk2 & Hs2).
    eapply (Hone m1 m2 k1 k2 pid); eauto using elem_of_sublist.
Qed.

Lemma remove_from_queues_shrinks pid qs :
  shrinks (remove_from_queues pid qs) qs.
Proof.
  intros mode q' Hq'. unfold remove_from_queues in Hq'.
  rewrite lookup_fmap in Hq'.
  destruct (qs !! mode) as [q|]; [|discriminate].
  injection Hq' as <-. exists q. split; [reflexivity|].
  apply remove_first_sublist.
Qed.

Lemma remove_from_queues_gone pid qs mode q :
  queues_ok qs ->
  remove_from_queues pid qs !! mode = Some q -> pid ∉ q.
Proof.
  intros [Hnd _] Hq. unfold remove_from_queues in Hq.
  rewrite lookup_fmap in Hq.
  destruct (qs !! mode) as [q0|] eqn:Hq0; [|discriminate].
  injection Hq as <-. apply remove_first_gone. eapply Hnd; exact Hq0.
Qed.

Lemma insert_shrinks mode q q' (qs : gmap string (list string)) :
  qs !! mode = Some q -> q' `sublist_of` q ->
  shrinks (<[mode := q']> qs) qs.
Proof.
  intros Hq Hsub m k Hk.
  destruct (decide (mode = m)) as [->|Hne].
  - rewrite lookup_insert_eq in Hk. injection Hk as <-. eauto.
  - rewrite lookup_insert_ne in Hk by exact Hne.
    exists k. split; [exact Hk | reflexivity].
Qed.

(** Pushing an id that is in no queue keeps the queues well formed. *)
Lemma push_ok pid mode (qs : gmap string (list string)) :
  queues_ok qs ->
  (forall m q, qs !! m = Some q -> pid ∉ q) ->
  queues_ok (<[mode := default [] (qs !! mode) ++ [pid]]> qs).
Proof.
  intros [Hnd Hone] Hout.
  assert (Hq0 : NoDup (default [] (qs !! mode)) /\
                (pid ∉ default [] (qs !! mode)) /\
                (forall x, x ∈ default [] (qs !! mode) ->
                           exists q, qs !! mode = Some q /\ x ∈ q)).
  { destruct (qs !! mode) as [q0|] eqn:E; cbn.
    - repeat split; eauto.
    - repeat split; [constructor | apply not_elem_of_nil |].
      intros x Hx. exfalso. eapply not_elem_of_nil; exact Hx. }
  destruct Hq0 as (Hnd0 & Hpid0 & Hfrom).
  split.
  - intros m q Hq. destruct (decide (mode = m)) as [->|Hne].
    + rewrite lookup_insert_eq in Hq. injection Hq as <-.
      apply NoDup_app. repeat split; [exact Hnd0 | | apply NoDup_singleton].
      intros x Hx ->%list_elem_of_singleton. contradiction.
    + rewrite lookup_insert_ne in Hq by exact Hne. eapply Hnd; exact Hq.
  - intros m1 m2 q1 q2 x H1 H2 Hin1 Hin2.
    destruct (decide (mode = m1)) as [->|Hne1];
      destruct (decide (m1 = m2)) as [|Hne12]; try assumption.
    + rewrite lookup_insert_eq in H1. injection H1 as <-.
      rewrite lookup_insert_ne in H2 by exact Hne12.
      apply elem_of_app in Hin1 as [Hin1| ->%list_elem_of_singleton].
      * destruct (Hfrom x Hin1) as (q & Hq & Hxq). eapply Hone; eauto.
      * exfalso. eapply Hout; eauto.
    + rewrite lookup_insert_ne in H1 by exact Hne1.
      destruct (decide (mode = m2)) as [->|Hne2].
      * rewrite lookup_insert_eq in H2. injection H2 as <-.
        apply elem_of_app in Hin2 as [Hin2| ->%list_elem_of_singleton].
        -- destruct (Hfrom x Hin2) as (q & Hq & Hxq). eapply Hone; eauto.
        -- exfalso. eapply Hout; eauto.
      * rewrite lookup_insert_ne in H2 by exact Hne2. eapply Hone; eauto.
Qed.

(** [matchPlayers] only takes entries out of the queue. *)
Lemma pair_queue_sublist ps q : fst (pair_queue ps q) `sublist_of` q.
Proof.
  funelim (pair_queue ps q); simp pair_queue; cbn; try reflexivity.
  repeat case_match; cbn;
    first
      [ do 2 apply sublist_cons; reflexivity
      | transitivity (p1Id :: rest);
        [solve [eauto] | apply sublist_skip, sublist_cons; reflexivity]
      | transitivity (p2Id :: rest);
        [solve [eauto] | apply sublist_cons; reflexivity] ].
Qed.

End Queues.

(** ** The invariant *)

Section Invariant.

Context {oracle : RulesOracle}.

Lemma join_fee_nonzero d : js_falsy (join_fee d) = false.
Proof.
  unfold join_fee. destruct (js_falsy (jd_entryFee d)) eqn:E;
    [reflexivity | exact E].
Qed.

Lemma evict_fold_queues userId sock l acc :
  shrinks (queues (fst (fold_left (evict userId sock) l acc)))
    (queues (fst acc)).
Proof.
  revert acc. induction l as [|e l IH]; intros acc; cbn.
  - apply shrinks_refl.
  - eapply shrinks_trans; [apply IH|].
    unfold evict. case_match; cbn; [|apply shrinks_refl].
    apply remove_from_queues_shrinks.
Qed.

Lemma register_player_queues sock userId uuid s :
  shrinks (queues (fst (register_player sock userId uuid s))) (queues s).
Proof.
  unfold register_player.
  pose proof (evict_fold_queues userId sock (players s) (s, [])) as Hq.
  destruct (fold_left _ _ _) as [s1 es]. exact Hq.
Qed.

Lemma disconnect_queues sock s :
  shrinks (queues (fst (disconnect sock s))) (queues s).
Proof.
  unfold disconnect. case_match; cbn; [|apply shrinks_refl].
  apply remove_from_queues_shrinks.
Qed.

Lemma matchPlayers_queues mode fee env s :
  shrinks (queues (fst (matchPlayers mode fee env s))) (queues s).
Proof.
  unfold matchPlayers.
  destruct (queues s !! mode) as [q0|] eqn:Hq0; cbn; [|apply shrinks_refl].
  pose proof (pair_queue_sublist (players s) q0) as Hsub.
  destruct (pair_queue (players s) q0) as [q [[p1 p2]|]]; cbn in *;
    eapply insert_shrinks; eauto.
Qed.

Lemma enqueue_queues_ok pid mode fee env s :
  queues_ok (queues s) ->
  queues_ok (queues (fst (enqueue pid mode fee env s))).
Proof.
  intros Hok. unfold enqueue.
  assert (Hok1 : queues_ok (remove_from_queues pid (queues s)))
    by (eapply queues_ok_shrinks; [exact Hok|];
        apply remove_from_queues_shrinks).
  assert (Hok2 : queues_ok
            (<[mode := default [] (remove_from_queues pid (queues s) !! mode)
                       ++ [pid]]> (remove_from_queues pid (queues s)))).
  { apply push_ok; [exact Hok1|].
    intros m q Hq.
    eapply (remove_from_queues_gone pid (queues s)); eauto. }
  case_match; cbn; [exact Hok1|].
  case_match; cbn; [|exact Hok2].
  eapply queues_ok_shrinks; [|apply matchPlayers_queues]. exact Hok2.
Qed.

Lemma make_move_queues sock d now s :
  queues (fst (make_move sock d now s)) = queues s.
Proof. unfold make_move. repeat case_match; reflexivity. Qed.

Lemma make_move_resume_queues mid r s :
  queues (fst (make_move_resume mid r s)) = queues s.
Proof. unfold make_move_resume. repeat case_match; reflexivity. Qed.

Lemma initial_queues_ok : queues_ok initial_queues.
Proof.
  assert (Hall : forall mode q,
            initial_queues !! mode = Some q -> q = []).
  { intros mode q. unfold initial_queues.
    repeat (rewrite lookup_insert; case_decide; [congruence|]).
    rewrite lookup_empty. discriminate. }
  split.
  - intros mode q ->%Hall. constructor.
  - intros m1 m2 q1 q2 pid ->%Hall _ Hin. exfalso.
    eapply not_elem_of_nil; exact Hin.
Qed.

Lemma inv_initial : inv initial_state.
Proof.
  split; cbn.
  - apply initial_queues_ok.
  - intros mid m Hm. rewrite lookup_empty in Hm. discriminate.
  - intros t Ht. exfalso. eapply not_elem_of_nil; exact Ht.
Qed.

(** A state with the same objects and continuations, and well formed
    queues. *)
Lemma inv_frame s s' :
  inv s -> queues_ok (queues s') -> heap s' = heap s ->
  suspended s' = suspended s -> inv s'.
Proof.
  intros [Hq Hh Ht] Hq' Hh' Ht'. split.
  - exact Hq'.
  - rewrite Hh'. exact Hh.
  - rewrite Ht'. intros t Hin. specialize (Ht t Hin).
    destruct t; cbn in *; [exact Ht|]. rewrite Hh'. exact Ht.
Qed.

Lemma inv_delete_task i s :
  inv s -> inv (set_suspended (delete i (suspended s)) s).
Proof.
  intros [Hq Hh Ht]. split; cbn; [exact Hq | exact Hh |].
  intros t Hin%list_elem_of_delete_inv. exact (Ht t Hin).
Qed.

Lemma inv_enqueue pid mode fee env s :
  inv s -> js_falsy fee = false -> freshMatchId env ∉ dom (heap s) ->
  inv (fst (enqueue pid mode fee env s)).
Proof.
  intros Hinv Hfee Hfresh.
  pose proof (enqueue_queues_ok pid mode fee env s (inv_queues s Hinv))
    as Hq'.
  destruct (enqueue_frame pid mode fee env s)
    as [Hsusp [[Hh _]|(m & Hh & Hmfee & _ & Hmres & _)]].
  - eapply inv_frame; eauto.
  - destruct Hinv as [Hq Hheap Ht]. split; [exact Hq'| |].
    + intros mid m0 Hm0. rewrite Hh in Hm0.
      destruct (decide (freshMatchId env = mid)) as [<-|Hne].
      * rewrite lookup_insert_eq in Hm0.
        injection Hm0 as <-. split; [rewrite Hmfee; exact Hfee|].
        rewrite Hmres. intros r [=].
      * rewrite lookup_insert_ne in Hm0 by exact Hne. eapply Hheap; eauto.
    + rewrite Hsusp. intros t Hin. specialize (Ht t Hin).
      destruct t as [| mid r]; cbn in *; [exact Ht|].
      destruct Ht as (m0 & Hm0 & Hfin). exists m0. split; [|exact Hfin].
      rewrite Hh, lookup_insert_ne; [exact Hm0|].
      intros <-. apply Hfresh. apply elem_of_dom. eauto.
Qed.

Lemma inv_make_move sock d now s :
  inv s -> inv (fst (make_move sock d now s)).
Proof.
  intros Hinv. unfold make_move, matches_get.
  case_bool_decide as Hlive; [|exact Hinv].
  destruct (heap s !! md_matchId d) as [m|] eqn:Hm; [|exact Hinv].
  pose proof (makeMove_status (md_from d) (md_to d) (md_promotion d) now m)
    as Hstat.
  pose proof (makeMove_entryFee (md_from d) (md_to d) (md_promotion d) now m)
    as Hfee.
  pose proof (makeMove_outcome_ok (md_from d) (md_to d) (md_promotion d)
                now m) as Hout.
  destruct (makeMove _ _ _ _ m) as [m' [|why]]; cbn in *; [|exact Hinv].
  destruct Hinv as [Hq Hheap Ht].
  assert (Hheap' : forall mid m0,
            <[md_matchId d := m']> (heap s) !! mid = Some m0 -> match_ok m0).
  { intros mid m0 Hm0.
    destruct (decide (md_matchId d = mid)) as [<-|Hne].
    - rewrite lookup_insert_eq in Hm0. injection Hm0 as <-.
      destruct (Hheap _ _ Hm) as [Hf Ho]. split; [rewrite Hfee; exact Hf|].
      apply Hout. exact Ho.
    - rewrite lookup_insert_ne in Hm0 by exact Hne. eapply Hheap; eauto. }
  assert (Ht' : forall t, t ∈ suspended s ->
            task_ok (store_match (md_matchId d) m' s) t).
  { intros t Hin. specialize (Ht t Hin).
    destruct t as [| mid r]; cbn in *; [exact Ht|].
    destruct Ht as (m0 & Hm0 & Hfin).
    destruct (decide (md_matchId d = mid)) as [<-|Hne].
    - exists m'. rewrite lookup_insert_eq. split; [reflexivity|].
      apply Hstat. congruence.
    - exists m0. rewrite lookup_insert_ne by exact Hne. auto. }
  destruct (status m') eqn:Hst; cbn.
  - split; [exact Hq | exact Hheap' | exact Ht'].
  - split; [exact Hq | exact Hheap' |]. cbn.
    intros t [Hin| ->%list_elem_of_singleton]%elem_of_app;
      [exact (Ht' t Hin)|].
    cbn. exists m'. rewrite lookup_insert_eq. auto.
Qed.

Lemma inv_make_move_resume mid r s :
  inv s -> inv (fst (make_move_resume mid r s)).
Proof.
  intros Hinv.
  destruct (make_move_resume_frame mid r s) as (Hh & Hs & _).
  eapply inv_frame; eauto.
  rewrite make_move_resume_queues. apply Hinv.
Qed.

Lemma inv_set_players ps s : inv s -> inv (set_players ps s).
Proof. intros Hinv. eapply inv_frame; eauto. apply Hinv. Qed.

Lemma inv_step s e s' : inv s -> step s e s' -> inv s'.
Proof.
  intros Hinv [Hfresh [out Hh]].
  destruct e as [sock u uuid|sock d uuid env|sock d now|sock|i a env|i|i k];
    cbn in Hh, Hfresh.
  - handled Hh s'.
    destruct (register_player_frame sock u uuid s) as [[Hheap _] Hsusp].
    eapply inv_frame; eauto.
    eapply queues_ok_shrinks; [apply Hinv | apply register_player_queues].
  - handled Hh s'. unfold join_queue. case_match; cbn.
    + destruct Hinv as [Hq Hheap Ht]. split; cbn; auto.
      intros t [Hin| ->%list_elem_of_singleton]%elem_of_app.
      * specialize (Ht t Hin). destruct t; cbn in *; auto.
      * cbn. apply join_fee_nonzero.
    + apply inv_enqueue;
        [apply inv_set_players; exact Hinv | apply join_fee_nonzero
        | exact Hfresh].
  - handled Hh s'. apply inv_make_move. exact Hinv.
  - handled Hh s'.
    destruct (disconnect_frame sock s) as [[Hheap _] Hsusp].
    eapply inv_frame; eauto.
    eapply queues_ok_shrinks; [apply Hinv | apply disconnect_queues].
  - unfold balance_reply in Hh.
    destruct (suspended s !! i) as [[sk pid mode fee|]|] eqn:Hi;
      try discriminate.
    handled Hh s'. unfold join_queue_resume.
    pose proof (inv_tasks s Hinv _ (list_elem_of_lookup_2 _ _ _ Hi)) as Hfee.
    cbn in Hfee.
    case_match; cbn; [apply inv_delete_task; exact Hinv|].
    apply inv_enqueue; [apply inv_delete_task; exact Hinv | exact Hfee
                       | exact Hfresh].
  - unfold settlement_done in Hh.
    destruct (suspended s !! i) as [[|mid r]|] eqn:Hi; try discriminate.
    handled Hh s'. apply inv_make_move_resume, inv_delete_task. exact Hinv.
  - apply settlement_failed_frame in Hh as [-> _].
    apply inv_delete_task. exact Hinv.
Qed.

Lemma inv_reachable s : reachable s -> inv s.
Proof.
  induction 1 as [|s e s' _ IH Hstep]; [apply inv_initial|].
  eapply inv_step; eauto.
Qed.

End Invariant.

(** ** The registry *)

Section Registry.

Lemma players_get_None k ps :
  players_get k ps = None <-> forall e, e ∈ ps -> fst e <> k.
Proof.
  unfold players_get. induction ps as [|e ps IH]; cbn.
  - split; [|reflexivity]. intros _ e He. exfalso.
    eapply not_elem_of_nil; exact He.
  - case_bool_decide as Hk; cbn.
    + split; [discriminate|]. intros Hall. exfalso.
      eapply (Hall e); [left | exact Hk].
    + rewrite IH. split.
      * intros Hall e' [->|Hin]%elem_of_cons; auto.
      * intros Hall e' Hin. apply Hall. right. exact Hin.
Qed.

Lemma players_get_set_eq k v ps :
  players_get k (players_set k v ps) = Some v.
Proof.
  unfold players_get. induction ps as [|e ps IH]; cbn.
  - rewrite bool_decide_eq_true_2 by reflexivity. reflexivity.
  - case_bool_decide as Hk; cbn.
    + rewrite bool_decide_eq_true_2 by reflexivity. reflexivity.
    + rewrite bool_decide_eq_false_2 by exact Hk. exact IH.
Qed.

Lemma players_get_set_ne k k' v ps :
  k' <> k -> players_get k' (players_set k v ps) = players_get k' ps.
Proof.
  intros Hne. unfold players_get. induction ps as [|e ps IH]; cbn.
  - rewrite bool_decide_eq_false_2 by (cbn; congruence). reflexivity.
  - case_bool_decide as Hk; cbn.
    + rewrite !bool_decide_eq_false_2 by (cbn; congruence). reflexivity.
    + case_bool_decide; cbn; [reflexivity | exact IH].
Qed.

Lemma elem_of_players_set e k v ps :
  e ∈ players_set k v ps -> e = (k, v) \/ e ∈ ps.
Proof.
  induction ps as [|e0 ps IH]; cbn.
  - intros ->%list_elem_of_singleton. left. reflexivity.
  - case_bool_decide.
    + intros [->|Hin]%elem_of_cons; [left; reflexivity|].
      right. right. exact Hin.
    + intros [->|Hin]%elem_of_cons; [right; left|].
      destruct (IH Hin) as [->|Hin']; [left; reflexivity|].
      right. right. exact Hin'.
Qed.

Lemma elem_of_players_delete e k ps :
  e ∈ players_delete k ps <-> e ∈ ps /\ fst e <> k.
Proof.
  unfold players_delete. rewrite list_elem_of_In, List.filter_In.
  rewrite <- list_elem_of_In, negb_true_iff, bool_decide_eq_false.
  reflexivity.
Qed.

End Registry.

Section RegistryLoop.

Context {oracle : RulesOracle}.

Lemma evict_fold_emits userId sock l acc x :
  x ∈ snd acc -> x ∈ snd (fold_left (evict userId sock) l acc).
Proof.
  revert acc. induction l as [|e l IH]; intros acc Hx; cbn; [exact Hx|].
  apply IH. unfold evict. case_match; cbn; [|exact Hx].
  apply elem_of_app. left. exact Hx.
Qed.

Lemma evict_fold_notified userId sock l acc e0 :
  e0 ∈ l -> evicted userId sock e0 ->
  (fst e0, force_disconnect) ∈ snd (fold_left (evict userId sock) l acc).
Proof.
  revert acc. induction l as [|e l IH]; intros acc Hin Hev.
  - exfalso. eapply not_elem_of_nil; exact Hin.
  - cbn. apply elem_of_cons in Hin as [->|Hin]; [|apply IH; assumption].
    apply evict_fold_emits. unfold evict. unfold evicted in Hev.
    rewrite Hev. cbn. apply elem_of_app. right. left.
Qed.

Lemma evict_fold_players userId sock l acc e :
  e ∈ players (fst (fold_left (evict userId sock) l acc)) ->
  e ∈ players (fst acc) /\
  forall e0, e0 ∈ l -> evicted userId sock e0 -> fst e0 <> fst e.
Proof.
  revert acc. induction l as [|e1 l IH]; intros acc He; cbn in He.
  - split; [exact He|]. intros e0 Hin. exfalso.
    eapply not_elem_of_nil; exact Hin.
  - destruct (IH _ He) as [Hacc Hrest]. unfold evict in Hacc.
    destruct (same_dbId (dbId (snd e1)) userId
              && negb (bool_decide (fst e1 = sock))) eqn:Hev; cbn in Hacc.
    + apply elem_of_players_delete in Hacc as [Hacc Hne]. split; [exact Hacc|].
      intros e0 [->|Hin]%elem_of_cons Hev0; [congruence|]. auto.
    + split; [exact Hacc|].
      intros e0 [->|Hin]%elem_of_cons Hev0; [|auto].
      unfold evicted in Hev0. congruence.
Qed.

Lemma evict_fold_dequeued userId sock l acc e0 mode q :
  queues_ok (queues (fst acc)) ->
  e0 ∈ l -> evicted userId sock e0 ->
  queues (fst (fold_left (evict userId sock) l acc)) !! mode = Some q ->
  playerId (snd e0) ∉ q.
Proof.
  revert acc. induction l as [|e l IH]; intros acc Hok Hin Hev Hq.
  - exfalso. eapply not_elem_of_nil; exact Hin.
  - cbn in Hq.
    assert (Hok' : queues_ok (queues (fst (evict userId sock acc e)))).
    { unfold evict. case_match; cbn; [|exact Hok].
      eapply queues_ok_shrinks; [exact Hok|].
      apply remove_from_queues_shrinks. }
    apply elem_of_cons in Hin as [->|Hin]; [|eapply IH; eauto].
    destruct (evict_fold_queues userId sock l (evict userId sock acc e)
                mode q Hq) as (q1 & Hq1 & Hsub).
    intros Hpid. apply (elem_of_sublist _ _ _ Hpid) in Hsub.
    revert Hq1 Hsub. unfold evict. unfold evicted in Hev. rewrite Hev. cbn.
    intros Hq1 Hsub.
    eapply (remove_from_queues_gone _ (queues (fst acc))); eauto.
Qed.

(** C9.  When [register_player] is handled for a connection [sock] and
    account [u] while the registry holds an entry of another connection
    [sId] with the same account, that entry is evicted: its player id
    is in no mode queue afterwards, [force_disconnect] is sent to
    [sId], its registry entry is gone, and the new entry of [sock] is
    the only entry of the registry with account [u]. *)
Theorem C9_duplicate_login_evicts s sock u uuid sId p :
  reachable s ->
  (sId, p) ∈ players s -> dbId p = Some u -> sId <> sock ->
  let s' := fst (register_player sock (JsStr u) uuid s) in
  let out := snd (register_player sock (JsStr u) uuid s) in
  (forall mode q, queues s' !! mode = Some q -> playerId p ∉ q) /\
  (sId, force_disconnect) ∈ emitted out /\
  players_get sId (players s') = None /\
  players_get sock (players s') = Some (new_Player uuid sock (JsStr u) None) /\
  (forall sId' p', (sId', p') ∈ players s' -> dbId p' = Some u ->
                   sId' = sock).
Proof.
  intros Hreach Hin Hdb Hne.
  assert (Hev : evicted (JsStr u) sock (sId, p)).
  { unfold evicted. cbn. rewrite Hdb. cbn.
    rewrite bool_decide_eq_true_2 by reflexivity.
    rewrite bool_decide_eq_false_2 by exact Hne. reflexivity. }
  pose proof (inv_queues s (inv_reachable s Hreach)) as Hok.
  unfold register_player.
  pose proof (evict_fold_dequeued (JsStr u) sock (players s) (s, [])
                (sId, p)) as Hdeq.
  pose proof (evict_fold_notified (JsStr u) sock (players s) (s, [])
                (sId, p) Hin Hev) as Hnote.
  pose proof (evict_fold_players (JsStr u) sock (players s) (s, []))
    as Hplay.
  destruct (fold_left (evict (JsStr u) sock) (players s) (s, []))
    as [s1 es].
  unfold emit. cbn [fst snd emitted players queues set_players] in *.
  repeat split.
  - intros mode q Hq. eapply Hdeq; eauto.
  - exact Hnote.
  - rewrite players_get_set_ne by exact Hne.
    apply players_get_None. intros e He.
    destruct (Hplay e He) as [_ Hkeys].
    intros Hk. eapply (Hkeys (sId, p)); eauto.
  - apply players_get_set_eq.
  - intros sId' p' [Heq|He]%elem_of_players_set Hdb'; [congruence|].
    destruct (Hplay _ He) as [Hs Hkeys].
    destruct (decide (sId' = sock)) as [|Hne']; [assumption|].
    exfalso. eapply (Hkeys (sId', p')); [exact Hs| |reflexivity].
    unfold evicted. cbn. rewrite Hdb'. cbn.
    rewrite bool_decide_eq_true_2 by reflexivity.
    rewrite bool_decide_eq_false_2 by exact Hne'. reflexivity.
Qed.

(** ** The queues, again *)

Lemma enqueue_other_queues pid mode fee env s m q :
  queues_ok (queues s) ->
  queues (fst (enqueue pid mode fee env s)) !! m = Some q ->
  m <> mode -> pid ∉ q.
Proof.
  intros Hok Hq Hne. unfold enqueue in Hq.
  assert (Hgone : forall q1,
            remove_from_queues pid (queues s) !! m = Some q1 -> pid ∉ q1)
    by (intros q1; apply (remove_from_queues_gone pid (queues s)); exact Hok).
  case_match; cbn in Hq; [eauto|].
  case_match; cbn in Hq.
  - destruct (matchPlayers_queues _ _ _ _ _ _ Hq) as (q1 & Hq1 & Hsub).
    cbn in Hq1. rewrite lookup_insert_ne in Hq1 by congruence.
    intros Hpid. eapply Hgone; eauto using elem_of_sublist.
  - rewrite lookup_insert_ne in Hq by congruence. eauto.
Qed.

Lemma disconnect_dequeues sock player s m q :
  queues_ok (queues s) ->
  players_get sock (players s) = Some player ->
  queues (fst (disconnect sock s)) !! m = Some q ->
  playerId player ∉ q.
Proof.
  intros Hok Hp Hq. unfold disconnect in Hq. rewrite Hp in Hq. cbn in Hq.
  eapply (remove_from_queues_gone _ (queues s)); eauto.
Qed.

(** C7.  In every reachable state a player id is in at most one mode
    queue, and at most once in it.  After a join of [pid] to [mode],
    [pid] is in no queue of another mode; after the disconnect of a
    connection, the id of its player is in no queue. *)
Theorem C7_one_queue_per_participant s :
  reachable s ->
  ((forall mode q, queues s !! mode = Some q -> NoDup q) /\
   (forall m1 m2 q1 q2 pid,
      queues s !! m1 = Some q1 -> queues s !! m2 = Some q2 ->
      pid ∈ q1 -> pid ∈ q2 -> m1 = m2)) /\
  (forall pid mode fee env m q,
     queues (fst (enqueue pid mode fee env s)) !! m = Some q ->
     m <> mode -> pid ∉ q) /\
  (forall sock player m q,
     players_get sock (players s) = Some player ->
     queues (fst (disconnect sock s)) !! m = Some q ->
     playerId player ∉ q).
Proof.
  intros Hreach.
  pose proof (inv_queues s (inv_reachable s Hreach)) as Hok.
  split; [exact Hok|]. split.
  - intros pid mode fee env m q. apply enqueue_other_queues. exact Hok.
  - intros sock player m q. apply disconnect_dequeues. exact Hok.
Qed.

End RegistryLoop.

(** ** Sessions, settlement and pairing *)

Section Sessions.

Context {oracle : RulesOracle}.

(** An active session in the Map [matches] is left exactly as it is by
    every event that is not a [make_move] for its id. *)
Lemma active_match_stays s e s' mid m :
  reachable s -> step s e s' ->
  matches_get mid s = Some m -> status m = active ->
  (forall sock d now, e = on_make_move sock d now -> md_matchId d <> mid) ->
  matches_get mid s' = Some m.
Proof.
  intros Hreach Hstep Hget Hact Hnot.
  unfold matches_get in Hget. case_bool_decide as Hlive; [|discriminate].
  pose proof (step_heap s e s' mid m Hstep Hget Hnot) as Hheap.
  unfold matches_get. rewrite bool_decide_eq_true_2; [exact Hheap|].
  destruct Hstep as [Hfresh [out Hh]].
  destruct e as [sock u uuid|sock d uuid env|sock d now|sock|i a env|i|i k];
    cbn in Hh, Hfresh.
  - handled Hh s'.
    destruct (register_player_frame sock u uuid s) as [[_ ->] _]. exact Hlive.
  - handled Hh s'. unfold join_queue. case_match; cbn; [exact Hlive|].
    match goal with
    | |- context [enqueue ?p ?mo ?f ?en ?s1] =>
        destruct (enqueue_frame p mo f en s1)
          as [_ [[_ ->]|(m' & _ & _ & _ & _ & ->)]]
    end; cbn; [exact Hlive|].
    apply elem_of_union. right. exact Hlive.
  - handled Hh s'.
    destruct (make_move_frame sock d now s) as [-> _]. exact Hlive.
  - handled Hh s'.
    destruct (disconnect_frame sock s) as [[_ ->] _]. exact Hlive.
  - unfold balance_reply in Hh. repeat case_match; try discriminate.
    handled Hh s'. unfold join_queue_resume. case_match; cbn; [exact Hlive|].
    match goal with
    | |- context [enqueue ?p ?mo ?f ?en ?s1] =>
        destruct (enqueue_frame p mo f en s1)
          as [_ [[_ ->]|(m' & _ & _ & _ & _ & ->)]]
    end; cbn; [exact Hlive|].
    apply elem_of_union. right. exact Hlive.
  - unfold settlement_done in Hh.
    destruct (suspended s !! i) as [[|mid' r]|] eqn:Hi; try discriminate.
    handled Hh s'.
    pose proof (inv_tasks s (inv_reachable s Hreach) _
                  (list_elem_of_lookup_2 _ _ _ Hi)) as (m0 & Hm0 & Hfin).
    assert (Hne : mid <> mid') by (intros ->; congruence).
    match goal with
    | |- context [make_move_resume ?a ?b ?s1] =>
        destruct (make_move_resume_frame a b s1) as (_ & _ & [-> | ->])
    end; cbn; [exact Hlive|].
    apply elem_of_difference. split; [exact Hlive|].
    intros ->%elem_of_singleton. congruence.
  - apply settlement_failed_frame in Hh as [-> _]. exact Hlive.
Qed.

(** The same over a whole run of events. *)
Lemma active_match_stays_run es : forall s s' outs mid m,
  reachable s -> run es s = Some (s', outs) ->
  matches_get mid s = Some m -> status m = active ->
  Forall (fun e => forall sock d now,
            e = on_make_move sock d now -> md_matchId d <> mid) es ->
  matches_get mid s' = Some m.
Proof.
  induction es as [|e es IH]; intros s s' outs mid m Hreach Hrun Hget Hact Hall;
    cbn in Hrun.
  - injection Hrun as <- _. exact Hget.
  - case_bool_decide as Hf; [|discriminate].
    destruct (handle e s) as [[s1 out]|] eqn:He; [|discriminate].
    destruct (run es s1) as [[s2 outs']|] eqn:Hr; [|discriminate].
    injection Hrun as <- _.
    apply Forall_cons in Hall as [He0 Hall].
    assert (Hstep : step s e s1) by (split; eauto).
    eapply IH; [| exact Hr | | exact Hact | exact Hall].
    + eapply reachable_step; eauto.
    + eapply active_match_stays; eauto.
Qed.

(** C4, as the code has it.  A timeout is found only while a move is
    applied: every event that is not a [make_move] for an active session
    leaves that session as it is, in the Map [matches], whatever the
    time; and an accepted move that is neither mate nor draw finishes
    the session with reason [timeout] against the side whose budget is
    at zero after the deduction. *)
Theorem C4_timeout_only_when_a_move_is_applied :
  (forall s e s' mid m,
     reachable s -> step s e s' ->
     matches_get mid s = Some m -> status m = active ->
     (forall sock d now, e = on_make_move sock d now -> md_matchId d <> mid) ->
     matches_get mid s' = Some m) /\
  (forall from to promotion now m pos m',
     chess_move (chess m) from to promotion = Some pos ->
     chess_isCheckmate pos = false ->
     chess_isDraw pos = false ->
     fst (makeMove from to promotion now m) = m' ->
     (whiteMs (clock m') = 0 ->
      status m' = finished /\
      result m' = Some {| winner := WinnerBlack; reason := timeout |}) /\
     (whiteMs (clock m') <> 0 -> blackMs (clock m') = 0 ->
      status m' = finished /\
      result m' = Some {| winner := WinnerWhite; reason := timeout |}) /\
     (whiteMs (clock m') <> 0 -> blackMs (clock m') <> 0 ->
      status m' = status m /\ result m' = result m)).
Proof.
  split.
  - apply active_match_stays.
  - apply makeMove_timeout.
Qed.

Lemma classic_move (e : Event) (mid : string) :
  (exists sock d now, e = on_make_move sock d now /\ md_matchId d = mid) \/
  (forall sock d now, e = on_make_move sock d now -> md_matchId d <> mid).
Proof.
  destruct e as [| |sock d now| | | |]; try (right; discriminate).
  destruct (decide (md_matchId d = mid)) as [Hd|Hd].
  - left. eauto.
  - right. intros sock' d' now' [= -> -> ->]. exact Hd.
Qed.

(** C2, as the code has it. Once a session has left the Map [matches]
    (the handler takes it out when its settlement has run), its object
    never changes again, it never comes back into the Map, and a
    [make_move] for it does nothing: same state, nothing sent, nothing
    issued, no settlement started. *)
Theorem C2_settled_session_is_inert s e s' mid m :
  step s e s' ->
  heap s !! mid = Some m ->
  mid ∉ matches s ->
  heap s' !! mid = Some m /\
  (mid ∉ matches s') /\
  (forall sock d now,
     e = on_make_move sock d now -> md_matchId d = mid ->
     s' = s /\ handle e s = Some (s, silent)).
Proof.
  intros Hstep Hm Hdead.
  assert (Hmove : forall sock d now,
            e = on_make_move sock d now -> md_matchId d = mid ->
            s' = s /\ handle e s = Some (s, silent)).
  { intros sock d now -> Hd. destruct Hstep as [_ [out Hh]]. cbn in *.
    rewrite make_move_unknown in * by (rewrite Hd; exact Hdead).
    split; congruence. }
  split; [|split; [|exact Hmove]].
  - destruct (classic_move e mid) as [(sock & d & now & -> & Hd)|Hnot].
    + destruct (Hmove sock d now eq_refl Hd) as [-> _]. exact Hm.
    + eapply step_heap; eauto.
  - eapply step_not_live; eauto. apply elem_of_dom. eauto.
Qed.

(** The settlement of a draw sends nothing, whoever is connected. *)
Lemma handleGameOver_draw_silent r m ps out :
  winner r = WinnerDraw ->
  handleGameOver (Some r) m ps = Some out ->
  emitted out = [].
Proof.
  intros Hw. unfold handleGameOver. rewrite Hw.
  destruct (reason r); intros [= <-]; reflexivity.
Qed.

(** The settlement of a decisive result sends [game_over] to the winner
    and to the loser, each if it is in the registry. *)
Lemma handleGameOver_decisive_notifies r m ps out :
  winner r <> WinnerDraw ->
  result m = Some r ->
  handleGameOver (Some r) m ps = Some out ->
  let white_wins := bool_decide (winner r = WinnerWhite) in
  let won := if white_wins then players_white m else players_black m in
  let lost := if white_wins then players_black m else players_white m in
  emitted out
  = match find_player won ps with
    | Some p =>
        [(socketId p,
          game_over r (entryFee m * 0.70)
            (Some (entryFee m + entryFee m * 0.70))
            (YouWon (entryFee m * 0.70)))]%float
    | None => []
    end
    ++
    match find_player lost ps with
    | Some p => [(socketId p, game_over r 0%float None BetterLuck)]
    | None => []
    end.
Proof.
  intros Hw Hr. unfold handleGameOver. rewrite Hr.
  destruct (winner r) eqn:E; try congruence; intros [= <-]; reflexivity.
Qed.

(** What a pairing by [matchPlayers] issues and constructs. *)
Lemma matchPlayers_paired mode fee env s q0 q p1 p2 :
  queues s !! mode = Some q0 ->
  pair_queue (players s) q0 = (q, Some (p1, p2)) ->
  let mid := freshMatchId env in
  let wdb := if isP1White env then dbId p1 else dbId p2 in
  let bdb := if isP1White env then dbId p2 else dbId p1 in
  issued (snd (matchPlayers mode fee env s))
  = entry_fee_stmts fee mode p1 p2 ++ [InsertMatch mid wdb bdb fee fee] /\
  List.map fst (emitted (snd (matchPlayers mode fee env s)))
  = [socketId p1; socketId p2] /\
  exists m, heap (fst (matchPlayers mode fee env s)) !! mid = Some m /\
            entryFee m = fee /\ whiteDbId m = wdb /\ blackDbId m = bdb.
Proof.
  intros Hq0 Hpair. unfold matchPlayers. rewrite Hq0, Hpair. cbn.
  repeat split. eexists. rewrite lookup_insert_eq.
  repeat split; reflexivity.
Qed.

Lemma matchPlayers_unpaired mode fee env s :
  emitted (snd (matchPlayers mode fee env s)) = [] \/
  exists q0 q p1 p2,
    queues s !! mode = Some q0 /\
    pair_queue (players s) q0 = (q, Some (p1, p2)).
Proof.
  unfold matchPlayers.
  destruct (queues s !! mode) as [q0|] eqn:Hq0; [|left; reflexivity].
  destruct (pair_queue (players s) q0) as [q [[p1 p2]|]] eqn:Hp;
    [|left; reflexivity].
  right. eauto 10.
Qed.

End Sessions.

(** ** Worked runs *)

(** Decide a closed proposition by evaluation. *)
Ltac by_evaluation := apply (bool_decide_unpack _); vm_compute; exact I.

Ltac split_conj := repeat match goal with |- _ /\ _ => split end.

Ltac evaluate := vm_compute; reflexivity.

Lemma black_to_move_reachable : reachable black_to_move.
Proof. apply state_after_reachable, reachable_initial. Qed.

Lemma settling_reachable : reachable settling.
Proof. apply state_after_reachable, reachable_initial. Qed.

Lemma settled_reachable : reachable settled.
Proof. apply state_after_reachable, reachable_initial. Qed.

Lemma queued_reachable : reachable queued.
Proof. apply state_after_reachable, reachable_initial. Qed.

(** C1.  Match [m1] has player [pA] (connection [sA]) as white and
    [pB] (connection [sB]) as black, and white is to move.  The move
    f2-f3 sent by black's connection [sB], or by a connection [sX] that
    is not in the registry, is applied all the same: no rejection is
    sent, the position and the turn change, and both players get
    [move_result]. *)
Theorem C1_move_of_any_connection_is_applied :
  let s := state_after anonymous_pairing initial_state in
  turn (match_of "m1" s) = white /\
  players_white (match_of "m1" s) = "pA" /\
  players_black (match_of "m1" s) = "pB" /\
  playerId (player_of "sA" s) = "pA" /\
  playerId (player_of "sB" s) = "pB" /\
  players_get "sX" (players s) = None /\
  let applied sock :=
    let s' := fst (make_move sock (move_on "m1" "f2" "f3") 6000 s) in
    let out := snd (make_move sock (move_on "m1" "f2" "f3") 6000 s) in
    chess (match_of "m1" s') = [("f2", "f3")] /\
    turn (match_of "m1" s') = black /\
    emitted out
    = [("sA", move_result "f2f3" black 60000 55000 "f2" "f3" None);
       ("sB", move_result "f2f3" black 60000 55000 "f2" "f3" None)] in
  applied "sB" /\ applied "sX".
Proof. cbv zeta. split_conj; evaluate. Qed.

(** C8.  Match [m1] between the accounts [uA] and [uB], both connected,
    ends in a draw by repetition.  The settlement refunds both stakes
    and ends the match record, and sends nothing: neither connection
    gets [game_over]. *)
Theorem C8_draw_sends_no_game_over :
  let s := state_after (account_pairing ++ repetition) initial_state in
  status (match_of "m1" s) = finished /\
  result (match_of "m1" s)
  = Some {| winner := WinnerDraw; reason := draw |} /\
  suspended s
  = [AwaitSettlement "m1" (Some {| winner := WinnerDraw; reason := draw |})] /\
  socketId (player_of "sA" s) = "sA" /\
  socketId (player_of "sB" s) = "sB" /\
  (snd <$> settlement_done 0 s)
  = Some {| emitted := [];
            issued :=
              [CreditWallet 10 (Some "uA");
               InsertTransaction (Some "uA") 10 tx_refund "m1";
               IncrementDraws (Some "uA");
               CreditWallet 10 (Some "uB");
               InsertTransaction (Some "uB") 10 tx_refund "m1";
               IncrementDraws (Some "uB");
               EndMatchDraw "m1"] |}.
Proof. cbv zeta. split_conj; evaluate. Qed.

(** The claim C2 fails while a settlement waits for the store.  In
    [settling], [m1] is finished with white the winner on time and is
    still in the Map [matches].  Black's move d8-h4 is then applied: the
    position, the turn and the clock change, the result becomes a win
    of black by checkmate, [move_result] is sent, and a second
    settlement is started; both settlements run and credit 17 to [uA]
    and to [uB]. *)
Lemma C2_counterexample :
  let late := on_make_move "sB" (move_on "m1" "d8" "h4") 100500 in
  let s' := fst (make_move "sB" (move_on "m1" "d8" "h4") 100500 settling) in
  let out := snd (make_move "sB" (move_on "m1" "d8" "h4") 100500 settling) in
  reachable settling /\
  "m1" ∈ matches settling /\
  status (match_of "m1" settling) = finished /\
  result (match_of "m1" settling)
  = Some {| winner := WinnerWhite; reason := timeout |} /\
  step settling late s' /\
  result (match_of "m1" s')
  = Some {| winner := WinnerBlack; reason := checkmate |} /\
  chess (match_of "m1" s') = fools_mate /\
  emitted out
  = [("sA", move_result "f2f3 e7e5 g2g4 d8h4" white 58500 0 "d8" "h4" None);
     ("sB", move_result "f2f3 e7e5 g2g4 d8h4" white 58500 0 "d8" "h4" None)] /\
  suspended s'
  = [AwaitSettlement "m1"
       (Some {| winner := WinnerWhite; reason := timeout |});
     AwaitSettlement "m1"
       (Some {| winner := WinnerBlack; reason := checkmate |})] /\
  (List.map issued <$>
     (snd <$> run [on_settlement_done 0; on_settlement_done 0] s'))
  = Some
      [[RecordWin (Some "uA"); RecordLoss (Some "uB");
        EndMatchWon (Some "uA") checkmate "m1";
        CreditWallet (10 + 10 * 0.70) (Some "uA");
        InsertTransaction (Some "uA") (10 + 10 * 0.70) tx_winnings "m1";
        InsertEarning "m1" (10 * 0.30)];
       [RecordWin (Some "uB"); RecordLoss (Some "uA");
        EndMatchWon (Some "uB") checkmate "m1";
        CreditWallet (10 + 10 * 0.70) (Some "uB");
        InsertTransaction (Some "uB") (10 + 10 * 0.70) tx_winnings "m1";
        InsertEarning "m1" (10 * 0.30)]].
Proof.
  cbv zeta. split; [exact settling_reachable|].
  split; [by_evaluation|].
  do 2 (split; [vm_compute; reflexivity|]).
  split.
  { exact (step_make_move _ _ _ _). }
  split_conj; evaluate.
Qed.

(** [settled]: the settlement of [m1] has run, and black's late move
    d8-h4 changes nothing. *)
Lemma C2_witness :
  let e := on_make_move "sB" (move_on "m1" "d8" "h4") 100500 in
  let m := match_of "m1" settled in
  (step settled e settled /\
   heap settled !! "m1" = Some m /\
   "m1" ∉ matches settled) /\
  (heap settled !! "m1" = Some m /\
   ("m1" ∉ matches settled) /\
   (forall sock d now,
      e = on_make_move sock d now -> md_matchId d = "m1" ->
      settled = settled /\ handle e settled = Some (settled, silent))).
Proof.
  cbv zeta.
  assert (Hdead : "m1" ∉ matches settled) by by_evaluation.
  assert (Hm : heap settled !! "m1" = Some (match_of "m1" settled))
    by (vm_compute; reflexivity).
  assert (Hstep : step settled
            (on_make_move "sB" (move_on "m1" "d8" "h4") 100500) settled).
  { split; [exact I|]. exists silent. cbn [handle].
    rewrite make_move_unknown by exact Hdead. reflexivity. }
  split; [split_conj; assumption|].
  exact (C2_settled_session_is_inert settled _ settled "m1" _ Hstep Hm Hdead).
Defined.

(** The claim C4 fails: there is no sweep.  In [black_to_move], black
    has 55000 ms left since time 6000.  Whatever events other than
    [make_move] the process handles from there, at whatever time, [m1]
    stays in the Map [matches], active, with the same clock. *)
Lemma C4_counterexample :
  let m := match_of "m1" black_to_move in
  reachable black_to_move /\
  matches_get "m1" black_to_move = Some m /\
  status m = active /\
  turn m = black /\
  clock m = {| whiteMs := 60000; blackMs := 55000; lastMoveTs := 6000 |} /\
  forall es s' outs,
    Forall (fun e => forall sock d now, e <> on_make_move sock d now) es ->
    run es black_to_move = Some (s', outs) ->
    matches_get "m1" s' = Some m /\ status m = active.
Proof.
  cbv zeta. split; [exact black_to_move_reachable|].
  assert (Hget : matches_get "m1" black_to_move
                 = Some (match_of "m1" black_to_move))
    by (vm_compute; reflexivity).
  assert (Hact : status (match_of "m1" black_to_move) = active)
    by (vm_compute; reflexivity).
  split; [exact Hget|]. split; [exact Hact|].
  do 2 (split; [evaluate|]).
  intros es s' outs Hall Hrun. split; [|exact Hact].
  eapply active_match_stays_run;
    [exact black_to_move_reachable | eassumption | exact Hget | exact Hact |].
  eapply Forall_impl; [eassumption|]. cbn.
  intros e Hne sock d now ->. exfalso. eapply Hne. reflexivity.
Qed.

(** [black_to_move]: the disconnect of a stranger leaves [m1] as it
    is. *)
Lemma C4_witness :
  let e := on_disconnect "sC" in
  let m := match_of "m1" black_to_move in
  (reachable black_to_move /\
   step black_to_move e black_to_move /\
   matches_get "m1" black_to_move = Some m /\
   status m = active /\
   (forall sock d now, e = on_make_move sock d now -> md_matchId d <> "m1")) /\
  matches_get "m1" black_to_move = Some m.
Proof.
  cbv zeta.
  assert (Hstep : step black_to_move (on_disconnect "sC") black_to_move).
  { split; [exact I|]. exists silent. vm_compute. reflexivity. }
  assert (Hget : matches_get "m1" black_to_move
                 = Some (match_of "m1" black_to_move))
    by (vm_compute; reflexivity).
  assert (Hact : status (match_of "m1" black_to_move) = active)
    by (vm_compute; reflexivity).
  assert (Hnot : forall sock d now,
            on_disconnect "sC" = on_make_move sock d now ->
            md_matchId d <> "m1") by discriminate.
  split; [split_conj; solve [assumption | exact black_to_move_reachable]|].
  exact (proj1 C4_timeout_only_when_a_move_is_applied black_to_move _
           black_to_move "m1" _ black_to_move_reachable Hstep Hget Hact Hnot).
Defined.

Lemma registered_reachable : reachable registered.
Proof. apply state_after_reachable, reachable_initial. Qed.

Lemma blitz_waiting_reachable : reachable blitz_waiting.
Proof. apply state_after_reachable, reachable_initial. Qed.

(** [queued]: one player waits in the BULLET queue. *)
Lemma C7_witness :
  reachable queued /\
  ((forall mode q, queues queued !! mode = Some q -> NoDup q) /\
   (forall m1 m2 q1 q2 pid,
      queues queued !! m1 = Some q1 -> queues queued !! m2 = Some q2 ->
      pid ∈ q1 -> pid ∈ q2 -> m1 = m2)) /\
  (forall pid mode fee env m q,
     queues (fst (enqueue pid mode fee env queued)) !! m = Some q ->
     m <> mode -> pid ∉ q) /\
  (forall sock player m q,
     players_get sock (players queued) = Some player ->
     queues (fst (disconnect sock queued)) !! m = Some q ->
     playerId player ∉ q).
Proof.
  split; [exact queued_reachable|].
  exact (C7_one_queue_per_participant queued queued_reachable).
Defined.

(** [queued]: account [uA], waiting in BULLET on [sA], registers again
    on connection [sC]. *)
Lemma C9_witness :
  let p := player_of "sA" queued in
  let s' := fst (register_player "sC" (JsStr "uA") "pC" queued) in
  let out := snd (register_player "sC" (JsStr "uA") "pC" queued) in
  (reachable queued /\
   ("sA", p) ∈ players queued /\
   dbId p = Some "uA" /\
   "sA" <> "sC") /\
  (forall mode q, queues s' !! mode = Some q -> playerId p ∉ q) /\
  ("sA", force_disconnect) ∈ emitted out /\
  players_get "sA" (players s') = None /\
  players_get "sC" (players s')
  = Some (new_Player "pC" "sC" (JsStr "uA") None) /\
  (forall sId' p', (sId', p') ∈ players s' -> dbId p' = Some "uA" ->
                   sId' = "sC").
Proof.
  cbv zeta.
  assert (Hin : ("sA", player_of "sA" queued) ∈ players queued).
  { assert (Hps : players queued
                  = [("sA", player_of "sA" queued);
                     ("sB", player_of "sB" queued)]) by evaluate.
    rewrite Hps. left. }
  assert (Hdb : dbId (player_of "sA" queued) = Some "uA") by evaluate.
  assert (Hne : "sA" <> "sC") by discriminate.
  split; [split_conj; solve [assumption | exact queued_reachable]|].
  exact (C9_duplicate_login_evicts queued "sC" "uA" "pC" "sA" _
           queued_reachable Hin Hdb Hne).
Defined.


(** ** The order of pairing *)

Section Pairing.

Lemma live_player_id pid ps p :
  live_player pid ps = Some p -> playerId p = pid.
Proof.
  unfold live_player, find_player.
  destruct (List.find _ _) as [p0|] eqn:Hf; [|discriminate].
  apply List.find_some in Hf as [_ Hid].
  apply bool_decide_eq_true in Hid.
  case_bool_decide; [discriminate|]. intros [= <-]. exact Hid.
Qed.

Lemma live_player_connected pid ps p :
  live_player pid ps = Some p -> socketId p <> EmptyString.
Proof.
  unfold live_player. destruct (find_player pid ps) as [p0|]; [|discriminate].
  case_bool_decide; [discriminate|]. intros [= <-]. assumption.
Qed.

(** A decomposition that starts with a live entry has nothing stale in
    front of it. *)
Lemma live_head pid p ps (tl d1 tl' : list string) q1 :
  live_player pid ps = Some p ->
  pid :: tl = d1 ++ playerId q1 :: tl' ->
  Forall (fun x => live_player x ps = None) d1 ->
  live_player (playerId q1) ps = Some q1 ->
  d1 = [] /\ q1 = p /\ tl = tl'.
Proof.
  intros Hlive Heq Hstale Hq1. destruct d1 as [|x d1]; cbn in Heq.
  - injection Heq as Hpid Htl. rewrite <- Hpid in Hq1.
    rewrite Hlive in Hq1. injection Hq1 as ->. auto.
  - injection Heq as Hx _. apply Forall_cons in Hstale as [Hx' _].
    rewrite <- Hx in Hx'. congruence.
Qed.

Lemma pair_queue_fifo ps q : forall rest p1 p2,
  pair_queue ps q = (rest, Some (p1, p2)) ->
  exists d1 d2,
    q = d1 ++ playerId p1 :: d2 ++ playerId p2 :: rest /\
    Forall (fun pid => live_player pid ps = None) d1 /\
    live_player (playerId p1) ps = Some p1 /\
    Forall (dropped_behind p1 ps) d2 /\
    live_player (playerId p2) ps = Some p2 /\
    self_match p1 p2 = false.
Proof.
  funelim (pair_queue ps q); intros rest0 q1 q2 Hpq; try discriminate.
  rename H into IHself, H0 into IHstale, H1 into IHhead. clear Heqcall.
  destruct (live_player p1Id ps) as [p1|] eqn:Hl1.
  - pose proof (live_player_id _ _ _ Hl1) as <-.
    destruct (live_player p2Id ps) as [p2|] eqn:Hl2.
    + destruct (self_match p1 p2) eqn:Hself.
      * destruct (IHself p1 p2 _ _ _ Hpq)
          as (d1 & d2 & Heq & Hd1 & Hq1 & Hd2 & Hq2 & Hs).
        destruct (live_head _ _ _ _ _ _ _ Hl1 Heq Hd1 Hq1) as (-> & -> & ->).
        exists [], (p2Id :: d2).
        split_and!;
          [reflexivity | constructor | exact Hq1
          | constructor; [right; eauto | exact Hd2] | exact Hq2 | exact Hs].
      * injection Hpq as <- <- <-.
        pose proof (live_player_id _ _ _ Hl2) as <-.
        exists [], [].
        split_and!;
          [reflexivity | constructor | exact Hl1 | constructor | exact Hl2
          | exact Hself].
    + destruct (IHstale p1 _ _ _ Hpq)
        as (d1 & d2 & Heq & Hd1 & Hq1 & Hd2 & Hq2 & Hs).
      destruct (live_head _ _ _ _ _ _ _ Hl1 Heq Hd1 Hq1) as (-> & -> & ->).
      exists [], (p2Id :: d2).
      split_and!;
        [reflexivity | constructor | exact Hq1
        | constructor; [left; exact Hl2 | exact Hd2] | exact Hq2 | exact Hs].
  - destruct (IHhead _ _ _ Hpq)
      as (d1 & d2 & Heq & Hd1 & Hq1 & Hd2 & Hq2 & Hs).
    exists (p1Id :: d1), d2.
    split_and!;
      [cbn; rewrite Heq; reflexivity | constructor; [exact Hl1 | exact Hd1]
      | exact Hq1 | exact Hd2 | exact Hq2 | exact Hs].
Qed.

Lemma pair_queue_stops ps q : forall rest,
  pair_queue ps q = (rest, None) -> (length rest < 2)%nat.
Proof.
  funelim (pair_queue ps q); intros rest0 Hpq.
  - injection Hpq as <-. cbn. lia.
  - injection Hpq as <-. cbn. lia.
  - repeat case_match; try discriminate; eauto.
Qed.

(** A queue of at most two entries is left with at most one. *)
Lemma pair_queue_short ps q :
  (length q <= 2)%nat -> (length (fst (pair_queue ps q)) <= 1)%nat.
Proof.
  intros Hlen. destruct (pair_queue ps q) as [rest [[p1 p2]|]] eqn:Hpq; cbn.
  - apply pair_queue_fifo in Hpq as (d1 & d2 & -> & _).
    rewrite !length_app in Hlen. cbn in Hlen.
    rewrite !length_app in Hlen. cbn in Hlen. lia.
  - apply pair_queue_stops in Hpq. lia.
Qed.

(** Two entries of a queue without duplicates that are paired are two
    player ids. *)
Lemma pair_queue_distinct ps q rest p1 p2 :
  NoDup q ->
  pair_queue ps q = (rest, Some (p1, p2)) ->
  playerId p1 <> playerId p2.
Proof.
  intros Hnd Hpq.
  apply pair_queue_fifo in Hpq as (d1 & d2 & -> & _).
  apply NoDup_app in Hnd as (_ & _ & Hnd).
  apply NoDup_cons in Hnd as [Hnotin _].
  intros Heq. apply Hnotin. rewrite Heq.
  apply elem_of_app. right. apply list_elem_of_here.
Qed.

End Pairing.

(** ** The registry *)

Section Registry.

Context {oracle : RulesOracle}.

Lemma filter_sublist {A} (f : A -> bool) (l : list A) :
  List.filter f l `sublist_of` l.
Proof.
  induction l as [|x l IH]; cbn; [constructor|].
  destruct (f x); [apply sublist_skip | apply sublist_cons]; exact IH.
Qed.

Lemma registry_ok_delete k ps :
  registry_ok ps -> registry_ok (players_delete k ps).
Proof.
  intros [Hnd Hown]. split.
  - refine (sublist_NoDup _ _ Hnd _).
    apply fmap_sublist, filter_sublist.
  - intros e [He _]%elem_of_players_delete. auto.
Qed.

Lemma players_set_keys k v ps x :
  x ∈ fst <$> players_set k v ps -> x = k \/ x ∈ fst <$> ps.
Proof.
  intros (e & -> & [->|He]%elem_of_players_set)%list_elem_of_fmap.
  - left. reflexivity.
  - right. apply list_elem_of_fmap. eauto.
Qed.

Lemma registry_ok_set k v ps :
  registry_ok ps -> socketId v = k -> registry_ok (players_set k v ps).
Proof.
  intros [Hnd Hown] Hv. split.
  - clear Hown. induction ps as [|e ps IH]; cbn.
    + apply NoDup_singleton.
    + rewrite fmap_cons in Hnd. apply NoDup_cons in Hnd as [Hnotin Hnd].
      case_bool_decide as Hk; rewrite fmap_cons; cbn [fst];
        apply NoDup_cons.
      * rewrite <- Hk. auto.
      * split; [|auto]. intros [Heq|Hin]%players_set_keys; auto.
  - intros e [->|He]%elem_of_players_set; auto.
Qed.

Lemma update_player_keys pid f ps :
  fst <$> update_player pid f ps = fst <$> ps.
Proof.
  unfold update_player. induction ps as [|e ps IH]; cbn; [reflexivity|].
  f_equal; [|exact IH]. case_bool_decide; reflexivity.
Qed.

Lemma registry_ok_update pid f ps :
  (forall p, socketId (f p) = socketId p) ->
  registry_ok ps -> registry_ok (update_player pid f ps).
Proof.
  intros Hf [Hnd Hown]. split.
  - rewrite update_player_keys. exact Hnd.
  - intros e He. unfold update_player in He.
    apply list_elem_of_In, in_map_iff in He as (e0 & <- & He0).
    apply list_elem_of_In in He0.
    case_bool_decide; cbn; [rewrite Hf|]; auto.
Qed.

Lemma evict_fold_registry userId sock l : forall acc,
  registry_ok (players (fst acc)) ->
  registry_ok (players (fst (fold_left (evict userId sock) l acc))).
Proof.
  induction l as [|e l IH]; intros acc Hacc; cbn; [exact Hacc|].
  apply IH. unfold evict. case_match; cbn; [|exact Hacc].
  apply registry_ok_delete. exact Hacc.
Qed.

End Registry.

Section WellFormed.

Context {oracle : RulesOracle}.

Lemma register_player_registry sock userId uuid s :
  registry_ok (players s) ->
  registry_ok (players (fst (register_player sock userId uuid s))).
Proof.
  intros Hok. unfold register_player.
  pose proof (evict_fold_registry userId sock (players s) (s, []) Hok) as Hf.
  destruct (fold_left _ _ _) as [s1 es]; cbn in *.
  apply registry_ok_set; [exact Hf | reflexivity].
Qed.

Lemma disconnect_registry sock s :
  registry_ok (players s) ->
  registry_ok (players (fst (disconnect sock s))).
Proof.
  intros Hok. unfold disconnect. case_match; cbn; [|exact Hok].
  apply registry_ok_delete. exact Hok.
Qed.

Lemma matchPlayers_registry mode fee env s :
  registry_ok (players s) ->
  registry_ok (players (fst (matchPlayers mode fee env s))).
Proof.
  intros Hok. unfold matchPlayers.
  destruct (queues s !! mode) as [q0|]; cbn; [|exact Hok].
  destruct (pair_queue (players s) q0) as [q [[p1 p2]|]]; cbn; [|exact Hok].
  do 2 (apply registry_ok_update; [reflexivity|]). exact Hok.
Qed.

Lemma enqueue_registry pid mode fee env s :
  registry_ok (players s) ->
  registry_ok (players (fst (enqueue pid mode fee env s))).
Proof.
  intros Hok. unfold enqueue. case_match; cbn; [exact Hok|].
  assert (Hok2 : registry_ok
                   (update_player pid (set_intent mode fee) (players s)))
    by (apply registry_ok_update; [reflexivity | exact Hok]).
  case_match; cbn; [|exact Hok2].
  apply matchPlayers_registry. exact Hok2.
Qed.

Lemma auto_register_registry sock d uuid ps :
  registry_ok ps -> registry_ok (auto_register sock d uuid ps).
Proof.
  intros Hok. unfold auto_register. case_match; [exact Hok|].
  apply registry_ok_set; [exact Hok | reflexivity].
Qed.

Lemma make_move_players sock d now s :
  players (fst (make_move sock d now s)) = players s.
Proof. unfold make_move. repeat case_match; reflexivity. Qed.

Lemma make_move_resume_players mid r s :
  players (fst (make_move_resume mid r s)) = players s.
Proof. unfold make_move_resume. repeat case_match; reflexivity. Qed.

(** ** The queues *)

Lemma keys_ok_shrinks qs qs' : shrinks qs' qs -> keys_ok qs -> keys_ok qs'.
Proof.
  intros Hsh Hok mode Hmode.
  destruct (qs' !! mode) as [q'|] eqn:Hq'; [|reflexivity].
  destruct (Hsh _ _ Hq') as (q & Hq & _).
  rewrite (Hok _ Hmode) in Hq. discriminate.
Qed.

Lemma waiting_ok_shrinks qs qs' :
  shrinks qs' qs -> waiting_ok qs -> waiting_ok qs'.
Proof.
  intros Hsh Hok mode q' Hq'.
  destruct (Hsh _ _ Hq') as (q & Hq & Hsub).
  apply sublist_length in Hsub. specialize (Hok _ _ Hq). lia.
Qed.

Lemma matchPlayers_queues_eq mode fee env s q0 :
  queues s !! mode = Some q0 ->
  queues (fst (matchPlayers mode fee env s))
  = <[mode := fst (pair_queue (players s) q0)]> (queues s).
Proof.
  intros Hq0. unfold matchPlayers. rewrite Hq0.
  destruct (pair_queue (players s) q0) as [q [[p1 p2]|]]; reflexivity.
Qed.

Lemma enqueue_keys pid mode fee env s :
  keys_ok (queues s) -> keys_ok (queues (fst (enqueue pid mode fee env s))).
Proof.
  intros Hok.
  assert (Hok1 : keys_ok (remove_from_queues pid (queues s)))
    by (eapply keys_ok_shrinks; [apply remove_from_queues_shrinks|exact Hok]).
  unfold enqueue. case_match eqn:Hthrow; cbn; [exact Hok1|].
  assert (Hmode : mode ∉ object_prototype_keys).
  { intros Hin. rewrite (Hok1 _ Hin) in Hthrow.
    rewrite !bool_decide_eq_true_2 in Hthrow by auto. discriminate. }
  set (q := default [] (remove_from_queues pid (queues s) !! mode) ++ [pid]).
  assert (Hok2 : keys_ok (<[mode := q]> (remove_from_queues pid (queues s)))).
  { intros k Hk. rewrite lookup_insert_ne by congruence. auto. }
  case_match; cbn; [|exact Hok2].
  erewrite matchPlayers_queues_eq; [|cbn; apply lookup_insert_eq].
  intros k Hk. rewrite lookup_insert_ne by congruence. cbn. auto.
Qed.

Lemma enqueue_waiting pid mode fee env s :
  waiting_ok (queues s) ->
  waiting_ok (queues (fst (enqueue pid mode fee env s))).
Proof.
  intros Hok.
  assert (Hok1 : waiting_ok (remove_from_queues pid (queues s)))
    by (eapply waiting_ok_shrinks;
        [apply remove_from_queues_shrinks|exact Hok]).
  unfold enqueue. cbv zeta. case_match; [exact Hok1|].
  set (q := default [] (remove_from_queues pid (queues s) !! mode) ++ [pid]).
  assert (Hq : (length q <= 2)%nat).
  { unfold q. rewrite length_app. cbn.
    destruct (remove_from_queues pid (queues s) !! mode) as [q1|] eqn:Hq1;
      cbn; [|lia].
    specialize (Hok1 _ _ Hq1). lia. }
  destruct (2 <=? length q)%nat eqn:Hlen.
  - erewrite matchPlayers_queues_eq; [|cbn; apply lookup_insert_eq].
    intros k qk Hk. cbn in Hk.
    destruct (decide (mode = k)) as [<-|Hne].
    + rewrite lookup_insert_eq in Hk. injection Hk as <-.
      apply pair_queue_short. exact Hq.
    + rewrite !lookup_insert_ne in Hk by exact Hne. eapply Hok1; eauto.
  - apply Nat.leb_gt in Hlen. intros k qk Hk. cbn in Hk.
    destruct (decide (mode = k)) as [<-|Hne].
    + rewrite lookup_insert_eq in Hk. injection Hk as <-. lia.
    + rewrite lookup_insert_ne in Hk by exact Hne. eapply Hok1; eauto.
Qed.

(** ** The [Match] objects *)

Lemma makeMove_same_session from to promotion now m :
  same_session m (fst (makeMove from to promotion now m)).
Proof.
  unfold makeMove, updateClock, same_session.
  repeat case_match; cbn; split_and!; reflexivity.
Qed.

Lemma charge_nonneg t now c :
  0 <= whiteMs c -> 0 <= blackMs c ->
  0 <= whiteMs (charge t now c) /\ 0 <= blackMs (charge t now c).
Proof. intros Hw Hb. destruct t; cbn; lia. Qed.

Lemma updateClock_clock_ok now m :
  clock_ok m -> clock_ok (fst (updateClock now m)).
Proof.
  intros (Hw & Hb & Hact). unfold updateClock, clock_ok.
  destruct (charge_nonneg (turn m) now (clock m) Hw Hb) as [Hw' Hb'].
  cbn. destruct (whiteMs (charge (turn m) now (clock m)) =? 0) eqn:Ew; cbn.
  { split_and!; [exact Hw' | exact Hb' | discriminate]. }
  destruct (blackMs (charge (turn m) now (clock m)) =? 0) eqn:Eb; cbn.
  { split_and!; [exact Hw' | exact Hb' | discriminate]. }
  apply Z.eqb_neq in Ew, Eb.
  split_and!; [exact Hw' | exact Hb' | intros _; lia].
Qed.

Lemma updateClock_settled now m :
  (status m = finished <-> is_Some (result m)) ->
  (status (fst (updateClock now m)) = finished
   <-> is_Some (result (fst (updateClock now m)))).
Proof.
  intros Hm. unfold updateClock.
  repeat case_match; cbn; try exact Hm; split; eauto.
Qed.

Lemma makeMove_match_wf from to promotion now mid m :
  match_wf mid m -> match_wf mid (fst (makeMove from to promotion now m)).
Proof.
  intros (Hid & Hclock & Hset & Hsides & Hacc).
  destruct (makeMove_same_session from to promotion now m)
    as (Eid & Ew & Eb & Ewd & Ebd & _).
  unfold match_wf. rewrite Eid, Ew, Eb, Ewd, Ebd.
  split_and!; [exact Hid | | | exact Hsides | exact Hacc];
    unfold makeMove; case_match; cbn; try assumption.
  - pose proof (updateClock_clock_ok now (set_position p m)) as Hc.
    specialize (Hc Hclock).
    repeat case_match; cbn; try exact Hc;
      destruct Hc as (Hw & Hb & _);
      (split_and!; [exact Hw | exact Hb | discriminate]).
  - pose proof (updateClock_settled now (set_position p m) Hset) as Hs.
    repeat case_match; cbn; try exact Hs; split; eauto.
Qed.

Lemma timeMs_pos mode : 0 < timeMs mode.
Proof. unfold timeMs. repeat case_match; lia. Qed.

Lemma new_Match_wf mid wp bp wdb bdb mode fee now :
  wp <> bp ->
  truthy wdb && truthy bdb && bool_decide (wdb = bdb) = false ->
  match_wf mid (new_Match mid wp bp wdb bdb mode fee now).
Proof.
  intros Hsides Hacc. pose proof (timeMs_pos mode) as Hpos.
  unfold match_wf, clock_ok. cbn.
  split_and!; [reflexivity | lia | lia | intros _; lia | | exact Hsides
              | exact Hacc].
  split; [discriminate | intros [r [=]]].
Qed.

Lemma self_match_swap p1 p2 :
  self_match p1 p2 = false ->
  truthy (dbId p2) && truthy (dbId p1) && bool_decide (dbId p2 = dbId p1)
  = false.
Proof.
  unfold self_match. intros H.
  destruct (truthy (dbId p1)), (truthy (dbId p2)); cbn in *; try reflexivity.
  repeat case_bool_decide; congruence.
Qed.

Lemma matchPlayers_heap mode fee env s :
  queues_ok (queues s) ->
  (forall mid m, heap s !! mid = Some m -> match_wf mid m) ->
  forall mid m,
    heap (fst (matchPlayers mode fee env s)) !! mid = Some m ->
    match_wf mid m.
Proof.
  intros [Hnd _] Hheap. unfold matchPlayers.
  destruct (queues s !! mode) as [q0|] eqn:Hq0; cbn; [|exact Hheap].
  destruct (pair_queue (players s) q0) as [q [[p1 p2]|]] eqn:Hpq; cbn;
    [|exact Hheap].
  pose proof (pair_queue_distinct _ _ _ _ _ (Hnd _ _ Hq0) Hpq) as Hne.
  apply pair_queue_fifo in Hpq as (_ & _ & _ & _ & _ & _ & _ & Hself).
  intros mid m Hm.
  destruct (decide (freshMatchId env = mid)) as [<-|Hmid].
  - rewrite lookup_insert_eq in Hm. injection Hm as <-.
    destruct (isP1White env).
    + apply new_Match_wf; [exact Hne | exact Hself].
    + apply new_Match_wf; [congruence | apply self_match_swap; exact Hself].
  - rewrite lookup_insert_ne in Hm by exact Hmid. eapply Hheap; eauto.
Qed.

Lemma enqueue_heap pid mode fee env s :
  queues_ok (queues s) ->
  (forall mid m, heap s !! mid = Some m -> match_wf mid m) ->
  forall mid m,
    heap (fst (enqueue pid mode fee env s)) !! mid = Some m ->
    match_wf mid m.
Proof.
  intros Hok Hheap. unfold enqueue.
  assert (Hok1 : queues_ok (remove_from_queues pid (queues s)))
    by (eapply queues_ok_shrinks; [exact Hok|];
        apply remove_from_queues_shrinks).
  assert (Hok2 : queues_ok
            (<[mode := default [] (remove_from_queues pid (queues s) !! mode)
                       ++ [pid]]> (remove_from_queues pid (queues s)))).
  { apply push_ok; [exact Hok1|].
    intros m q Hq.
    eapply (remove_from_queues_gone pid (queues s)); eauto. }
  case_match; cbn; [exact Hheap|].
  case_match; cbn; [|exact Hheap].
  apply matchPlayers_heap; [exact Hok2 | exact Hheap].
Qed.

(** ** The invariant *)

Lemma wf_initial : wf initial_state.
Proof.
  split; cbn.
  - split; [constructor|]. intros e He. exfalso.
    eapply not_elem_of_nil; exact He.
  - intros mid m Hm. rewrite lookup_empty in Hm. discriminate.
  - intros t Ht. exfalso. eapply not_elem_of_nil; exact Ht.
  - intros mode Hmode. unfold object_prototype_keys in Hmode.
    repeat (apply elem_of_cons in Hmode as [->|Hmode];
            [vm_compute; reflexivity|]).
    exfalso. eapply not_elem_of_nil; exact Hmode.
  - intros mode q. unfold initial_queues.
    repeat (rewrite lookup_insert; case_decide; [intros [= <-]; cbn; lia|]).
    rewrite lookup_empty. discriminate.
Qed.

Lemma wf_set_players ps s :
  wf s -> registry_ok ps -> wf (set_players ps s).
Proof. intros [Hr Hh Ht Hk Hw] Hps. split; assumption. Qed.

Lemma wf_delete_task i s :
  wf s -> wf (set_suspended (delete i (suspended s)) s).
Proof.
  intros [Hr Hh Ht Hk Hw]. split; try assumption. cbn.
  intros t Hin. apply Ht.
  eapply elem_of_sublist; [exact Hin | apply sublist_delete].
Qed.

Lemma wf_shrunk s s' :
  wf s -> registry_ok (players s') -> shrinks (queues s') (queues s) ->
  heap s' = heap s -> suspended s' = suspended s -> wf s'.
Proof.
  intros [Hr Hh Ht Hk Hw] Hps Hsh Hheap Hsusp. split.
  - exact Hps.
  - rewrite Hheap. exact Hh.
  - rewrite Hsusp. exact Ht.
  - eapply keys_ok_shrinks; eauto.
  - eapply waiting_ok_shrinks; eauto.
Qed.

Lemma wf_enqueue pid mode fee env s :
  inv s -> wf s -> wf (fst (enqueue pid mode fee env s)).
Proof.
  intros Hinv [Hr Hh Ht Hk Hw].
  destruct (enqueue_frame pid mode fee env s) as [Hsusp _].
  split.
  - apply enqueue_registry. exact Hr.
  - apply enqueue_heap; [apply Hinv | exact Hh].
  - cbv zeta in Hsusp. rewrite Hsusp. exact Ht.
  - apply enqueue_keys. exact Hk.
  - apply enqueue_waiting. exact Hw.
Qed.

Lemma wf_make_move sock d now s :
  inv s -> wf s -> wf (fst (make_move sock d now s)).
Proof.
  intros Hinv Hwf.
  pose proof (make_move_players sock d now s) as Hps.
  pose proof (make_move_queues sock d now s) as Hqs.
  destruct Hwf as [Hr Hh Ht Hk Hw].
  split; [rewrite Hps; exact Hr | | | rewrite Hqs; exact Hk
         | rewrite Hqs; exact Hw]; clear Hps Hqs;
    unfold make_move, matches_get;
    (case_bool_decide as Hlive; [|assumption]);
    (destruct (heap s !! md_matchId d) as [m|] eqn:Hm; [|assumption]);
    pose proof (makeMove_match_wf (md_from d) (md_to d) (md_promotion d)
                  now _ _ (Hh _ _ Hm)) as Hwf';
    pose proof (makeMove_outcome_ok (md_from d) (md_to d) (md_promotion d)
                  now m (proj2 (inv_heap s Hinv _ _ Hm))) as Hout;
    (destruct (makeMove _ _ _ _ m) as [m' [|why]]; cbn in *; [|assumption]).
  - assert (Hheap' : forall mid m0,
              <[md_matchId d := m']> (heap s) !! mid = Some m0 ->
              match_wf mid m0).
    { intros mid m0 Hm0.
      destruct (decide (md_matchId d = mid)) as [<-|Hne].
      - rewrite lookup_insert_eq in Hm0. injection Hm0 as <-. exact Hwf'.
      - rewrite lookup_insert_ne in Hm0 by exact Hne. eapply Hh; eauto. }
    destruct (status m'); cbn; exact Hheap'.
  - destruct (status m') eqn:Hst; cbn; [exact Ht|].
    intros t [Hin| ->%list_elem_of_singleton]%elem_of_app; [auto|].
    cbn. split; [|exact Hout].
    destruct Hwf' as (_ & _ & Hset & _). apply Hset. exact Hst.
Qed.

Lemma wf_make_move_resume mid r s :
  wf s -> wf (fst (make_move_resume mid r s)).
Proof.
  intros Hwf.
  destruct (make_move_resume_frame mid r s) as (Hh & Hs & _).
  eapply wf_shrunk; [exact Hwf | | | exact Hh | exact Hs].
  - rewrite make_move_resume_players. apply Hwf.
  - rewrite make_move_resume_queues. apply shrinks_refl.
Qed.

Lemma wf_step s e s' : inv s -> wf s -> step s e s' -> wf s'.
Proof.
  intros Hinv Hwf [Hfresh [out Hh]].
  destruct e as [sock u uuid|sock d uuid env|sock d now|sock|i a env|i|i k];
    cbn in Hh, Hfresh.
  - handled Hh s'.
    destruct (register_player_frame sock u uuid s) as [[Hheap _] Hsusp].
    eapply wf_shrunk; [exact Hwf| | |exact Hheap|exact Hsusp].
    + apply register_player_registry, Hwf.
    + apply register_player_queues.
  - handled Hh s'. unfold join_queue.
    assert (Hwf1 : wf (set_players (auto_register sock d uuid (players s)) s))
      by (apply wf_set_players; [exact Hwf|];
          apply auto_register_registry, Hwf).
    case_match; cbn.
    + destruct Hwf1 as [Hr Hheap Ht Hk Hw]. split; cbn; auto.
      intros t [Hin| ->%list_elem_of_singleton]%elem_of_app; [auto|exact I].
    + apply wf_enqueue; [apply inv_set_players; exact Hinv | exact Hwf1].
  - handled Hh s'. apply wf_make_move; assumption.
  - handled Hh s'.
    destruct (disconnect_frame sock s) as [[Hheap _] Hsusp].
    eapply wf_shrunk; [exact Hwf| | |exact Hheap|exact Hsusp].
    + apply disconnect_registry, Hwf.
    + apply disconnect_queues.
  - unfold balance_reply in Hh.
    destruct (suspended s !! i) as [[sk pid mode fee|]|] eqn:Hi;
      try discriminate.
    handled Hh s'. unfold join_queue_resume.
    case_match; cbn; [apply wf_delete_task; exact Hwf|].
    apply wf_enqueue; [apply inv_delete_task; exact Hinv
                      | apply wf_delete_task; exact Hwf].
  - unfold settlement_done in Hh.
    destruct (suspended s !! i) as [[|mid r]|] eqn:Hi; try discriminate.
    handled Hh s'. apply wf_make_move_resume, wf_delete_task. exact Hwf.
  - apply settlement_failed_frame in Hh as [-> _].
    apply wf_delete_task. exact Hwf.
Qed.

Lemma wf_reachable s : reachable s -> wf s.
Proof.
  induction 1 as [|s e s' Hreach IH Hstep]; [apply wf_initial|].
  eapply wf_step; eauto. apply inv_reachable. exact Hreach.
Qed.

End WellFormed.

(** ** Sessions and their settlement *)

Section Sessions.

Context {oracle : RulesOracle}.

Lemma players_get_elem_of k v ps :
  NoDup (fst <$> ps) -> (k, v) ∈ ps -> players_get k ps = Some v.
Proof.
  unfold players_get. induction ps as [|e ps IH]; intros Hnd Hin.
  - exfalso. eapply not_elem_of_nil; exact Hin.
  - rewrite fmap_cons in Hnd. apply NoDup_cons in Hnd as [Hnotin Hnd].
    cbn. case_bool_decide as Hk.
    + apply elem_of_cons in Hin as [Heq|Hin]; [subst e; reflexivity|].
      exfalso. apply Hnotin. rewrite Hk.
      apply list_elem_of_fmap. exists (k, v). auto.
    + apply elem_of_cons in Hin as [Heq|Hin]; [subst e; contradiction|].
      auto.
Qed.

(** X1.  In every reachable state the registry holds at most one entry
    per connection, and the [Player] stored for a connection carries
    that connection as its [socketId] and is the one [players.get]
    answers. *)
Theorem X1_one_registry_entry_per_connection s :
  reachable s ->
  NoDup (fst <$> players s) /\
  (forall sock p,
     (sock, p) ∈ players s ->
     socketId p = sock /\ players_get sock (players s) = Some p).
Proof.
  intros Hreach. destruct (wf_registry s (wf_reachable s Hreach)) as [Hnd Hown].
  split; [exact Hnd|]. intros sock p Hin. split.
  - exact (Hown _ Hin).
  - apply players_get_elem_of; assumption.
Qed.

(** X2.  In every reachable state no clock budget of a [Match] is
    negative, and as long as the match is active both budgets are
    positive. *)
Theorem X2_clock_budgets_in_range s mid m :
  reachable s -> heap s !! mid = Some m ->
  0 <= whiteMs (clock m) /\ 0 <= blackMs (clock m) /\
  (status m = active -> 0 < whiteMs (clock m) /\ 0 < blackMs (clock m)).
Proof.
  intros Hreach Hm.
  destruct (wf_heap s (wf_reachable s Hreach) _ _ Hm) as (_ & Hclock & _).
  exact Hclock.
Qed.

(** X3.  In every reachable state a [Match] is stored under its own
    [matchId], and it has a result exactly when its status is
    [finished]. *)
Theorem X3_result_iff_finished s mid m :
  reachable s -> heap s !! mid = Some m ->
  matchId m = mid /\ (status m = finished <-> is_Some (result m)).
Proof.
  intros Hreach Hm.
  destruct (wf_heap s (wf_reachable s Hreach) _ _ Hm) as (Hid & _ & Hset & _).
  auto.
Qed.

(** X4.  In every reachable state the two sides of a [Match] are two
    player ids, and when both sides have an account the accounts
    differ. *)
Theorem X4_no_match_against_oneself s mid m :
  reachable s -> heap s !! mid = Some m ->
  players_white m <> players_black m /\
  (truthy (whiteDbId m) = true -> truthy (blackDbId m) = true ->
   whiteDbId m <> blackDbId m).
Proof.
  intros Hreach Hm.
  destruct (wf_heap s (wf_reachable s Hreach) _ _ Hm)
    as (_ & _ & _ & Hsides & Hacc).
  split; [exact Hsides|]. intros Hw Hb Heq.
  rewrite Hw, Hb, bool_decide_eq_true_2 in Hacc by exact Heq.
  discriminate.
Qed.

Lemma handleGameOver_completes r m ps :
  is_Some r -> outcome_ok r -> is_Some (result m) ->
  exists out,
    handleGameOver r m ps = Some out /\
    length (List.filter (closes (matchId m)) (issued out)) = 1%nat.
Proof.
  intros [r0 ->] Hok [r1 Hr1]. unfold handleGameOver.
  assert (Hc : bool_decide (matchId m = matchId m) = true)
    by (apply bool_decide_eq_true_2; reflexivity).
  destruct (winner r0) eqn:Hw.
  - rewrite Hr1. eexists. split; [reflexivity|]. cbn -[bool_decide].
    rewrite Hc. reflexivity.
  - rewrite Hr1. eexists. split; [reflexivity|]. cbn -[bool_decide].
    rewrite Hc. reflexivity.
  - rewrite (Hok r0 eq_refl Hw). eexists. split; [reflexivity|].
    unfold refund_stmts.
    repeat case_match; cbn -[bool_decide]; rewrite Hc; reflexivity.
Qed.

Lemma settlement_done_completes s i mid r :
  reachable s ->
  suspended s !! i = Some (AwaitSettlement mid r) ->
  exists m out,
    heap s !! mid = Some m /\
    handleGameOver r m (players s) = Some out /\
    settlement_done i s
    = Some (matches_delete mid (set_suspended (delete i (suspended s)) s),
            out) /\
    length (List.filter (closes mid) (issued out)) = 1%nat.
Proof.
  intros Hreach Hi.
  pose proof (list_elem_of_lookup_2 _ _ _ Hi) as Hin.
  destruct (inv_tasks s (inv_reachable s Hreach) _ Hin) as (m & Hm & Hfin).
  destruct (wf_tasks s (wf_reachable s Hreach) _ Hin) as [Hr Hok].
  destruct (wf_heap s (wf_reachable s Hreach) _ _ Hm)
    as (Hid & _ & Hset & _).
  destruct (handleGameOver_completes r m (players s) Hr Hok
              (proj1 Hset Hfin)) as (out & Hgo & Hone).
  exists m, out. split_and!; [exact Hm | exact Hgo | | rewrite <- Hid; exact Hone].
  unfold settlement_done. rewrite Hi. unfold make_move_resume.
  cbn [heap players set_suspended]. rewrite Hm, Hgo. reflexivity.
Qed.

Lemma settlement_failed_aborts s i mid r k m out :
  suspended s !! i = Some (AwaitSettlement mid r) ->
  heap s !! mid = Some m ->
  handleGameOver r m (players s) = Some out ->
  (k < length (issued out))%nat ->
  settlement_failed i k s
  = Some (set_suspended (delete i (suspended s)) s,
          {| emitted := []; issued := take k (issued out) |}).
Proof.
  intros Hi Hm Hgo Hk. unfold settlement_failed. rewrite Hi.
  unfold make_move_abort. cbn [heap players set_suspended].
  rewrite Hm, Hgo, bool_decide_eq_true_2 by exact Hk. reflexivity.
Qed.

(** X5.  In every reachable state a suspended settlement has two
    ends.  When the store accepts its statements, [handleGameOver]
    does not throw, it issues exactly one statement that closes the
    record of the match, and the match is deleted from the Map
    [matches].  When the store rejects the [k]-th of its statements,
    the store has accepted the [k] statements before it and no other,
    nothing is sent, and the Map [matches] is left as it is: the match
    is not deleted.  Either way the continuation is gone. *)
Theorem X5_settlement_accepted_or_rejected s i mid r :
  reachable s ->
  suspended s !! i = Some (AwaitSettlement mid r) ->
  exists m out s',
    heap s !! mid = Some m /\
    handleGameOver r m (players s) = Some out /\
    settlement_done i s = Some (s', out) /\
    length (List.filter (closes mid) (issued out)) = 1%nat /\
    (mid ∉ matches s') /\
    suspended s' = delete i (suspended s) /\
    forall k, (k < length (issued out))%nat ->
      exists s'' out',
        settlement_failed i k s = Some (s'', out') /\
        issued out' = take k (issued out) /\
        emitted out' = [] /\
        matches s'' = matches s /\
        heap s'' = heap s /\
        suspended s'' = delete i (suspended s).
Proof.
  intros Hreach Hi.
  destruct (settlement_done_completes s i mid r Hreach Hi)
    as (m & out & Hm & Hgo & Hdone & Hone).
  exists m, out. eexists.
  split_and!; [exact Hm | exact Hgo | exact Hdone | exact Hone | |
               reflexivity |].
  - cbn. intros [_ Hnot]%elem_of_difference. apply Hnot.
    apply elem_of_singleton. reflexivity.
  - intros k Hk. do 2 eexists.
    split; [exact (settlement_failed_aborts s i mid r k m out Hi Hm Hgo Hk)|].
    cbn. auto.
Qed.

(** *** Moves on a finished match *)

(** A move that the rules engine accepts for a finished match of the
    Map [matches] is applied and starts a settlement. *)
Lemma finished_move_settles sock d now s m pos :
  reachable s ->
  matches_get (md_matchId d) s = Some m ->
  status m = finished ->
  chess_move (chess m) (md_from d) (md_to d) (md_promotion d) = Some pos ->
  exists m' r,
    heap (fst (make_move sock d now s)) !! md_matchId d = Some m' /\
    chess m' = pos /\
    status m' = finished /\
    result m' = Some r /\
    suspended (fst (make_move sock d now s))
    = suspended s ++ [AwaitSettlement (md_matchId d) (Some r)].
Proof.
  intros Hreach Hget Hfin Hmove.
  assert (Hm : heap s !! md_matchId d = Some m).
  { unfold matches_get in Hget. case_bool_decide; [exact Hget|discriminate]. }
  pose proof (makeMove_status (md_from d) (md_to d) (md_promotion d) now m
                Hfin) as Hst.
  pose proof (makeMove_match_wf (md_from d) (md_to d) (md_promotion d) now
                _ _ (wf_heap s (wf_reachable s Hreach) _ _ Hm)) as Hwf.
  assert (Hpos : chess (fst (makeMove (md_from d) (md_to d) (md_promotion d)
                               now m)) = pos).
  { unfold makeMove, updateClock. rewrite Hmove.
    repeat case_match; reflexivity. }
  assert (Hok : snd (makeMove (md_from d) (md_to d) (md_promotion d) now m)
                = MoveOk)
    by (unfold makeMove; rewrite Hmove; reflexivity).
  unfold make_move. rewrite Hget.
  destruct (makeMove _ _ _ _ m) as [m' [|why]]; cbn [fst snd] in *;
    [|discriminate].
  destruct Hwf as (_ & _ & Hset & _).
  destruct (proj1 Hset Hst) as [r Hr].
  rewrite Hst. cbn [fst].
  exists m', r. split_and!; [ | exact Hpos | exact Hst | exact Hr |].
  - cbn. apply lookup_insert_eq.
  - cbn. rewrite Hr. reflexivity.
Qed.

(** X6.  A [Match] of the Map [matches] whose settlement waits for
    the store is finished.  A move for a finished match of the Map
    that the rules engine accepts is applied, and since the status is
    still [finished] another settlement of the same match is started,
    with the result as it is after that move. *)
Theorem X6_move_on_finished_match_settles_again sock d now s m pos :
  reachable s ->
  matches_get (md_matchId d) s = Some m ->
  chess_move (chess m) (md_from d) (md_to d) (md_promotion d) = Some pos ->
  let s' := fst (make_move sock d now s) in
  ((exists r0, AwaitSettlement (md_matchId d) r0 ∈ suspended s) ->
   status m = finished) /\
  (status m = finished ->
   exists m' r,
     heap s' !! md_matchId d = Some m' /\
     chess m' = pos /\
     status m' = finished /\
     result m' = Some r /\
     suspended s'
     = suspended s ++ [AwaitSettlement (md_matchId d) (Some r)]).
Proof.
  intros Hreach Hget Hmove. cbv zeta. split.
  - intros [r0 Hr0].
    assert (Hm : heap s !! md_matchId d = Some m).
    { unfold matches_get in Hget.
      case_bool_decide; [exact Hget|discriminate]. }
    destruct (inv_tasks s (inv_reachable s Hreach) _ Hr0)
      as (m0 & Hm0 & Hfin).
    congruence.
  - intros Hfin.
    exact (finished_move_settles sock d now s m pos Hreach Hget Hfin Hmove).
Qed.

(** *** What a session keeps *)

Lemma same_session_refl m : same_session m m.
Proof. unfold same_session. split_and!; reflexivity. Qed.

Lemma same_session_trans m1 m2 m3 :
  same_session m1 m2 -> same_session m2 m3 -> same_session m1 m3.
Proof.
  unfold same_session.
  intros (?&?&?&?&?&?&?) (?&?&?&?&?&?&?). split_and!; congruence.
Qed.

Lemma step_same_session s e s' mid m :
  step s e s' -> heap s !! mid = Some m ->
  exists m',
    heap s' !! mid = Some m' /\ same_session m m' /\
    (status m = finished -> status m' = finished).
Proof.
  intros Hstep Hm.
  destruct (classic_move e mid) as [(sock & d & now & -> & <-)|Hother].
  - destruct Hstep as [_ [out Hh]]. cbn in Hh. handled Hh s'.
    assert (Hstay : exists m',
              heap s !! md_matchId d = Some m' /\ same_session m m' /\
              (status m = finished -> status m' = finished))
      by (exists m; split_and!; [exact Hm | apply same_session_refl | auto]).
    unfold make_move, matches_get.
    case_bool_decide; [|exact Hstay]. rewrite Hm.
    pose proof (makeMove_same_session (md_from d) (md_to d) (md_promotion d)
                  now m) as Hsame.
    pose proof (makeMove_status (md_from d) (md_to d) (md_promotion d)
                  now m) as Hst.
    destruct (makeMove _ _ _ _ m) as [m' [|why]]; cbn [fst] in *;
      [|exact Hstay].
    exists m'. split_and!; [|exact Hsame|exact Hst].
    destruct (status m'); cbn; apply lookup_insert_eq.
  - exists m. split_and!; [|apply same_session_refl|auto].
    eapply step_heap; eauto.
Qed.

(** X7.  Over any run of events a [Match] object keeps its id, its two
    player ids, its two account ids, its mode and its entry fee, and
    once finished it never becomes active again. *)
Theorem X7_session_identity_is_kept es : forall s s' outs mid m,
  run es s = Some (s', outs) ->
  heap s !! mid = Some m ->
  exists m',
    heap s' !! mid = Some m' /\
    matchId m' = matchId m /\
    players_white m' = players_white m /\
    players_black m' = players_black m /\
    whiteDbId m' = whiteDbId m /\
    blackDbId m' = blackDbId m /\
    gameMode m' = gameMode m /\
    entryFee m' = entryFee m /\
    (status m = finished -> status m' = finished).
Proof.
  induction es as [|e es IH]; intros s s' outs mid m Hrun Hm; cbn in Hrun.
  - injection Hrun as <- _. exists m. split_and!; auto.
  - case_bool_decide as Hf; [|discriminate].
    destruct (handle e s) as [[s1 out]|] eqn:He; [|discriminate].
    destruct (run es s1) as [[s2 outs']|] eqn:Hr; [|discriminate].
    injection Hrun as <- _.
    assert (Hstep : step s e s1) by (split; eauto).
    destruct (step_same_session _ _ _ _ _ Hstep Hm)
      as (m1 & Hm1 & Hs1 & Hf1).
    destruct (IH _ _ _ _ _ Hr Hm1)
      as (m' & Hm' & E1 & E2 & E3 & E4 & E5 & E6 & E7 & Hf').
    destruct Hs1 as (F1 & F2 & F3 & F4 & F5 & F6 & F7).
    exists m'. split_and!; try congruence; auto.
Qed.

End Sessions.

(** ** Queues, registry and handlers *)

Section Handlers.

Context {oracle : RulesOracle}.

(** X8.  When [matchPlayers] pairs two players of a queue, they are the
    first two entries that pass its checks, in queue order: every entry
    in front of the first is stale, every entry between the two is
    stale or holds the account of the first, the two are connected and
    do not hold the same account, and the entries behind them are the
    queue that is left.  [match_found] goes to their two connections. *)
Theorem X8_pairing_takes_the_first_two_in_order mode fee env s q0 :
  queues s !! mode = Some q0 ->
  emitted (snd (matchPlayers mode fee env s)) <> [] ->
  exists d1 d2 rest p1 p2,
    q0 = d1 ++ playerId p1 :: d2 ++ playerId p2 :: rest /\
    Forall (fun pid => live_player pid (players s) = None) d1 /\
    Forall (dropped_behind p1 (players s)) d2 /\
    live_player (playerId p1) (players s) = Some p1 /\
    live_player (playerId p2) (players s) = Some p2 /\
    self_match p1 p2 = false /\
    queues (fst (matchPlayers mode fee env s)) !! mode = Some rest /\
    List.map fst (emitted (snd (matchPlayers mode fee env s)))
    = [socketId p1; socketId p2].
Proof.
  intros Hq0 Hsent.
  destruct (matchPlayers_unpaired mode fee env s)
    as [Hnone|(q0' & rest & p1 & p2 & Hq0' & Hpq)]; [contradiction|].
  rewrite Hq0 in Hq0'. injection Hq0' as <-.
  destruct (matchPlayers_paired mode fee env s q0 rest p1 p2 Hq0 Hpq)
    as (_ & Hto & _).
  pose proof (matchPlayers_queues_eq mode fee env s q0 Hq0) as Hqs.
  rewrite Hpq in Hqs. cbn [fst] in Hqs.
  destruct (pair_queue_fifo _ _ _ _ _ Hpq)
    as (d1 & d2 & Heq & Hd1 & Hl1 & Hd2 & Hl2 & Hself).
  exists d1, d2, rest, p1, p2.
  split_and!; try assumption.
  rewrite Hqs. apply lookup_insert_eq.
Qed.

(** X9.  In every reachable state every queue holds at most one
    entry: a join that makes a second entry runs [matchPlayers], which
    pairs the two or drops entries until fewer than two are left. *)
Theorem X9_at_most_one_waits_per_mode s mode q :
  reachable s -> queues s !! mode = Some q -> (length q <= 1)%nat.
Proof.
  intros Hreach Hq. exact (wf_waiting s (wf_reachable s Hreach) _ _ Hq).
Qed.

(** X10.  A join whose mode is a name [queues] inherits from
    [Object.prototype] stops at [queues[mode].push]: by then the player
    has been taken out of the queue it was in, so it is in no queue;
    no queue of that name is made, no match is made and nothing is
    sent. *)
Theorem X10_join_with_an_inherited_name pid mode fee env s :
  reachable s -> mode ∈ object_prototype_keys ->
  let s' := fst (enqueue pid mode fee env s) in
  snd (enqueue pid mode fee env s) = silent /\
  queues s' = remove_from_queues pid (queues s) /\
  queues s' !! mode = None /\
  (forall m q, queues s' !! m = Some q -> pid ∉ q) /\
  heap s' = heap s /\ matches s' = matches s /\ players s' = players s.
Proof.
  intros Hreach Hmode. cbv zeta.
  pose proof (wf_keys s (wf_reachable s Hreach)) as Hkeys.
  pose proof (inv_queues s (inv_reachable s Hreach)) as Hok.
  assert (Hnone : remove_from_queues pid (queues s) !! mode = None).
  { eapply keys_ok_shrinks; [apply remove_from_queues_shrinks| |]; eauto. }
  unfold enqueue. rewrite Hnone.
  rewrite !bool_decide_eq_true_2 by auto. cbn.
  split_and!; try reflexivity; [exact Hnone|].
  intros m q. apply (remove_from_queues_gone pid (queues s)). exact Hok.
Qed.

(** *** [register_player] *)

Lemma evict_fold_stays userId sock l : forall acc e,
  e ∈ players (fst acc) ->
  (forall e0, e0 ∈ l -> evicted userId sock e0 -> fst e0 <> fst e) ->
  e ∈ players (fst (fold_left (evict userId sock) l acc)).
Proof.
  induction l as [|e1 l IH]; intros acc e He Hkeys; cbn; [exact He|].
  apply IH.
  - unfold evict.
    destruct (same_dbId (dbId (snd e1)) userId
              && negb (bool_decide (fst e1 = sock))) eqn:Hev; cbn;
      [|exact He].
    apply elem_of_players_delete. split; [exact He|].
    intros Heq. apply (Hkeys e1); [left | exact Hev | congruence].
  - intros e0 Hin. apply Hkeys. right. exact Hin.
Qed.

Lemma evict_fold_sent userId sock l : forall acc x,
  x ∈ snd (fold_left (evict userId sock) l acc) ->
  x ∈ snd acc \/
  exists e0, e0 ∈ l /\ evicted userId sock e0 /\ x = (fst e0, force_disconnect).
Proof.
  induction l as [|e1 l IH]; intros acc x Hx; cbn in Hx; [auto|].
  destruct (IH _ _ Hx) as [Hacc|(e0 & Hin & Hev & ->)].
  - unfold evict in Hacc.
    destruct (same_dbId (dbId (snd e1)) userId
              && negb (bool_decide (fst e1 = sock))) eqn:Hev; cbn in Hacc;
      [|auto].
    apply elem_of_app in Hacc as [Hacc| ->%list_elem_of_singleton]; [auto|].
    right. exists e1. split_and!; [left | exact Hev | reflexivity].
  - right. exists e0. split_and!; [right; exact Hin | exact Hev | reflexivity].
Qed.

Lemma registry_key_inj ps (e e0 : string * Player) :
  NoDup (fst <$> ps) -> e ∈ ps -> e0 ∈ ps -> fst e0 = fst e -> e0 = e.
Proof.
  intros Hnd He He0 Hk. destruct e as [k v], e0 as [k0 v0]. cbn in Hk.
  subst k0.
  pose proof (players_get_elem_of _ _ _ Hnd He) as H1.
  pose proof (players_get_elem_of _ _ _ Hnd He0) as H2.
  congruence.
Qed.

Lemma elem_of_players_set_other e k v ps :
  e ∈ ps -> fst e <> k -> e ∈ players_set k v ps.
Proof.
  intros He Hne. induction ps as [|e1 ps IH]; cbn.
  - exfalso. eapply not_elem_of_nil; exact He.
  - apply elem_of_cons in He as [Heq|He].
    + subst e1. rewrite bool_decide_eq_false_2 by exact Hne. left.
    + case_bool_decide as Hk.
      * right. exact He.
      * right. auto.
Qed.

(** X11.  [register_player] evicts exactly the entries of other
    connections whose [dbId] is strictly equal to the [userId] sent:
    such an entry is deleted from the registry and its connection is
    sent [force_disconnect]; every other entry of another connection
    stays as it is and is sent nothing.  So a registration with [null]
    evicts every other entry that has no account, and one with
    [undefined] evicts nobody. *)
Theorem X11_register_player_evicts_exactly s sock userId uuid sId p :
  reachable s -> (sId, p) ∈ players s -> sId <> sock ->
  let s' := fst (register_player sock userId uuid s) in
  let out := snd (register_player sock userId uuid s) in
  (same_dbId (dbId p) userId = true ->
   players_get sId (players s') = None /\
   (sId, force_disconnect) ∈ emitted out) /\
  (same_dbId (dbId p) userId = false ->
   (sId, p) ∈ players s' /\
   forall payload, (sId, payload) ∉ emitted out).
Proof.
  intros Hreach Hin Hne.
  destruct (wf_registry s (wf_reachable s Hreach)) as [Hnd _].
  assert (Hev : same_dbId (dbId p) userId = true ->
                evicted userId sock (sId, p)).
  { intros Hsame. unfold evicted. cbn. rewrite Hsame.
    rewrite bool_decide_eq_false_2 by exact Hne. reflexivity. }
  assert (Hkeep : same_dbId (dbId p) userId = false ->
            forall e0, e0 ∈ players s -> evicted userId sock e0 ->
                       fst e0 <> sId).
  { intros Hsame e0 He0 Hev0 Hk.
    assert (e0 = (sId, p)) as -> by (eapply registry_key_inj; eauto).
    unfold evicted in Hev0. cbn in Hev0. rewrite Hsame in Hev0.
    discriminate. }
  unfold register_player.
  pose proof (evict_fold_notified userId sock (players s) (s, []) (sId, p) Hin)
    as Hnote.
  pose proof (evict_fold_players userId sock (players s) (s, [])) as Hplay.
  pose proof (evict_fold_stays userId sock (players s) (s, []) (sId, p) Hin)
    as Hstay.
  pose proof (evict_fold_sent userId sock (players s) (s, [])) as Hsent.
  destruct (fold_left (evict userId sock) (players s) (s, [])) as [s1 es].
  unfold emit. cbn [fst snd emitted players queues set_players] in *.
  split; intros Hsame.
  - split; [|exact (Hnote (Hev Hsame))].
    rewrite players_get_set_ne by exact Hne.
    apply players_get_None. intros e He.
    destruct (Hplay e He) as [_ Hkeys].
    intros Hk. eapply (Hkeys (sId, p)); eauto.
  - split.
    + apply elem_of_players_set_other; [|exact Hne].
      apply Hstay. exact (Hkeep Hsame).
    + intros payload Hp.
      destruct (Hsent _ Hp) as [Hnil|(e0 & He0 & Hev0 & Heq)].
      * eapply not_elem_of_nil; exact Hnil.
      * injection Heq as Hk _. eapply (Hkeep Hsame e0); eauto.
Qed.

(** *** [disconnect] *)

Lemma make_move_on_same_sessions sock d now s1 s2 :
  heap s1 = heap s2 -> matches s1 = matches s2 ->
  suspended s1 = suspended s2 ->
  heap (fst (make_move sock d now s1)) = heap (fst (make_move sock d now s2))
  /\ matches (fst (make_move sock d now s1))
     = matches (fst (make_move sock d now s2))
  /\ suspended (fst (make_move sock d now s1))
     = suspended (fst (make_move sock d now s2)).
Proof.
  intros Hh Hm Hs. unfold make_move, matches_get. rewrite Hh, Hm.
  repeat case_match; cbn; rewrite ?Hh, ?Hs; auto.
Qed.

(** X12.  [disconnect] forfeits nothing.  It deletes the registry entry
    of the connection and sends nothing; the [Match] objects, the Map
    [matches] and the suspended settlements are as they were, and a
    move handled afterwards has the same effect on them as it has
    without the disconnect. *)
Theorem X12_disconnect_forfeits_nothing sock s sender d now :
  let s1 := fst (disconnect sock s) in
  snd (disconnect sock s) = silent /\
  players_get sock (players s1) = None /\
  (heap s1 = heap s /\ matches s1 = matches s /\ suspended s1 = suspended s)
  /\
  (heap (fst (make_move sender d now s1))
   = heap (fst (make_move sender d now s)) /\
   matches (fst (make_move sender d now s1))
   = matches (fst (make_move sender d now s)) /\
   suspended (fst (make_move sender d now s1))
   = suspended (fst (make_move sender d now s))).
Proof.
  cbv zeta.
  destruct (disconnect_frame sock s) as [[Hh Hm] Hs].
  split_and!; try assumption.
  - unfold disconnect. case_match; reflexivity.
  - unfold disconnect.
    destruct (players_get sock (players s)) as [player|] eqn:Hp; cbn;
      [|exact Hp].
    apply players_get_None.
    intros e [_ Hne]%elem_of_players_delete. exact Hne.
  - apply make_move_on_same_sessions; assumption.
  - apply make_move_on_same_sessions; assumption.
  - apply make_move_on_same_sessions; assumption.
Qed.

(** *** The fallback registration of [join_queue] *)

Lemma players_set_absent k v ps :
  players_get k ps = None -> players_set k v ps = ps ++ [(k, v)].
Proof.
  intros Hnone. induction ps as [|e ps IH]; cbn; [reflexivity|].
  unfold players_get in *. cbn in Hnone.
  case_bool_decide as Hk; [discriminate|].
  rewrite IH by exact Hnone. reflexivity.
Qed.

Lemma matchPlayers_keys mode fee env s :
  fst <$> players (fst (matchPlayers mode fee env s)) = fst <$> players s.
Proof.
  unfold matchPlayers.
  destruct (queues s !! mode) as [q0|]; [|reflexivity].
  destruct (pair_queue (players s) q0) as [q [[p1 p2]|]]; [|reflexivity].
  cbv zeta. cbn [fst players set_players].
  rewrite !update_player_keys. reflexivity.
Qed.

Lemma enqueue_keys_of_registry pid mode fee env s :
  fst <$> players (fst (enqueue pid mode fee env s)) = fst <$> players s.
Proof.
  unfold enqueue. cbv zeta. case_match; [reflexivity|].
  case_match; cbn [fst].
  - rewrite matchPlayers_keys. cbn. apply update_player_keys.
  - cbn. apply update_player_keys.
Qed.

Lemma matchPlayers_sends_match_found mode fee env s x :
  x ∈ emitted (snd (matchPlayers mode fee env s)) ->
  exists mid c f ck o, snd x = match_found mid c f ck o.
Proof.
  unfold matchPlayers.
  destruct (queues s !! mode) as [q0|]; cbn;
    [|intros H; exfalso; eapply not_elem_of_nil; exact H].
  destruct (pair_queue (players s) q0) as [q [[p1 p2]|]]; cbn;
    [|intros H; exfalso; eapply not_elem_of_nil; exact H].
  intros [->|[->|H]%elem_of_cons]%elem_of_cons; cbn; eauto 10.
  exfalso; eapply not_elem_of_nil; exact H.
Qed.

Lemma enqueue_sends_match_found pid mode fee env s x :
  x ∈ emitted (snd (enqueue pid mode fee env s)) ->
  exists mid c f ck o, snd x = match_found mid c f ck o.
Proof.
  unfold enqueue. cbv zeta. case_match;
    [intros Hx; exfalso; eapply not_elem_of_nil; exact Hx|].
  case_match; [apply matchPlayers_sends_match_found|].
  intros Hx; exfalso; eapply not_elem_of_nil; exact Hx.
Qed.

(** X14.  A [join_queue] on a connection that is not registered
    registers it under the [userId] of the payload, as the last entry
    of the registry, and evicts nobody: every other connection keeps
    its entry, also one that holds the same account, and no
    [force_disconnect] is sent. *)
Theorem X14_join_registers_without_eviction sock d uuid env s :
  players_get sock (players s) = None ->
  let s' := fst (join_queue sock d uuid env s) in
  let out := snd (join_queue sock d uuid env s) in
  fst <$> players s' = (fst <$> players s) ++ [sock] /\
  (dbId <$> players_get sock (players s')) = Some (to_dbId (jd_userId d)) /\
  forall sId, (sId, force_disconnect) ∉ emitted out.
Proof.
  intros Hnone. cbv zeta.
  assert (Hkeys : fst <$> players (fst (join_queue sock d uuid env s))
                  = (fst <$> players s) ++ [sock]).
  { unfold join_queue, auto_register. rewrite Hnone.
    rewrite (players_set_absent _ _ _ Hnone).
    case_match; cbn [fst].
    - cbn. rewrite fmap_app. reflexivity.
    - rewrite enqueue_keys_of_registry. cbn. rewrite fmap_app. reflexivity. }
  split_and!; [exact Hkeys | |].
  - unfold join_queue, auto_register, join_player. rewrite Hnone.
    set (p0 := new_Player uuid sock (jd_userId d) (jd_username d)).
    assert (Hget : forall ps, (dbId <$> players_get sock ps)
                              = Some (to_dbId (jd_userId d)) ->
              forall pid f, (forall p, dbId (f p) = dbId p) ->
              (dbId <$> players_get sock (update_player pid f ps))
              = Some (to_dbId (jd_userId d))).
    { intros ps Hps pid f Hf. unfold players_get, update_player in *.
      induction ps as [|e ps IH]; cbn in *; [discriminate|].
      repeat case_bool_decide; cbn in *; rewrite ?Hf; auto; try contradiction. }
    assert (Hnew : (dbId <$> players_get sock
                               (players_set sock p0 (players s)))
                   = Some (to_dbId (jd_userId d)))
      by (rewrite players_get_set_eq; reflexivity).
    case_match; cbn [fst]; [exact Hnew|].
    unfold enqueue. cbv zeta. case_match; [exact Hnew|].
    assert (Hint := Hget _ Hnew (playerId p0)
                      (set_intent (join_mode d) (join_fee d))
                      (fun _ => eq_refl)).
    case_match; cbn [fst]; [|exact Hint].
    unfold matchPlayers.
    destruct (queues _ !! join_mode d) as [q0|]; cbn [fst]; [|exact Hint].
    destruct (pair_queue _ q0) as [q [[p1 p2]|]]; cbn [fst]; [|exact Hint].
    cbn [players set_players matches_set set_queues].
    apply Hget; [|reflexivity]. apply Hget; [|reflexivity]. exact Hint.
  - intros sId Hsent. unfold join_queue in Hsent.
    destruct (truthy _); cbn [snd] in Hsent.
    + eapply not_elem_of_nil; exact Hsent.
    + apply enqueue_sends_match_found in Hsent
        as (mid & c & f & ck & o & Heq).
      discriminate.
Qed.

End Handlers.

(** ** The clock of an accepted move *)

Section Clock.

Context {oracle : RulesOracle}.

(** X17.  In a reachable state, a move that is accepted when the time
    has not gone back since the last one sets [lastMoveTs] to the time
    of the move, adds time to no budget, changes one budget at most,
    and takes from it no more than the time that has passed. *)
Theorem X17_accepted_move_takes_the_elapsed_time
    from to promotion now s mid m pos :
  reachable s -> heap s !! mid = Some m ->
  chess_move (chess m) from to promotion = Some pos ->
  lastMoveTs (clock m) <= now ->
  let c := clock m in
  let c' := clock (fst (makeMove from to promotion now m)) in
  lastMoveTs c' = now /\
  whiteMs c' <= whiteMs c /\ blackMs c' <= blackMs c /\
  (whiteMs c' = whiteMs c \/ blackMs c' = blackMs c) /\
  (whiteMs c - whiteMs c') + (blackMs c - blackMs c')
  <= now - lastMoveTs c.
Proof.
  intros Hreach Hm Hmove Hnow. cbv zeta.
  destruct (wf_heap s (wf_reachable s Hreach) _ _ Hm)
    as (_ & (Hw & Hb & _) & _).
  rewrite (makeMove_clock _ _ _ _ _ _ Hmove).
  destruct (chess_turn pos); cbn; lia.
Qed.

End Clock.

(** ** [POST /api/wallet/add] *)

Section Wallet.

Ltac wallet_cases ok userId amount :=
  unfold wallet_add; cbn [try_queries];
  destruct (ok q_begin) eqn:Hbegin;
  destruct (ok (q_update amount userId)) eqn:Hupdate;
  destruct (ok (q_insert_deposit userId amount)) eqn:Hinsert;
  destruct (ok q_commit) eqn:Hcommit;
  destruct (ok q_rollback) eqn:Hrollback;
  cbn [List.map app fst snd andb].

Ltac not_among :=
  let Hin := fresh "Hin" in
  intros Hin;
  repeat (apply elem_of_cons in Hin as [Hin|Hin]; [discriminate|]);
  eapply not_elem_of_nil; exact Hin.

Ltac refused_at :=
  split_and!;
  [ reflexivity
  | solve [ eexists; cbn; reflexivity ]
  | repeat constructor; assumption
  | assumption
  | reflexivity ].

(** X18.  Once [pool.connect()] has answered, the handler releases the
    client exactly once, as its last call on it, whichever statements
    the store refuses; its first call is [BEGIN]. *)
Theorem X18_wallet_add_releases_the_client_last ok userId amount :
  exists calls,
    fst (wallet_add true ok userId amount)
    = Query q_begin :: calls ++ [Release] /\
    Release ∉ calls.
Proof.
  wallet_cases ok userId amount;
    match goal with
    | |- exists calls, ?q :: ?l = _ /\ _ =>
        exists (removelast l)
    end; cbn; (split; [reflexivity | not_among]).
Qed.

(** X19.  The handler answers [Cash added] exactly when the store
    accepts [BEGIN], the update of the balance, the insertion of the
    deposit and [COMMIT]; then these four statements and no
    [ROLLBACK] were sent.  In every other case nothing is sent behind
    the refused statement but [ROLLBACK], [COMMIT] was not accepted,
    and the answer is the error 500, or none when [ROLLBACK] is
    refused as well.  The amount is not examined. *)
Theorem X19_wallet_add_commits_or_rolls_back ok userId amount :
  let accepted :=
    ok q_begin && ok (q_update amount userId)
    && ok (q_insert_deposit userId amount) && ok q_commit in
  let calls := fst (wallet_add true ok userId amount) in
  let answer := snd (wallet_add true ok userId amount) in
  (if accepted
   then calls = [Query q_begin; Query (q_update amount userId);
                 Query (q_insert_deposit userId amount); Query q_commit;
                 Release] /\
        answer = Some cash_added
   else exists sent refused,
          calls = List.map Query sent
                  ++ [Query refused; Query q_rollback; Release] /\
          sent ++ [refused]
          `prefix_of` [q_begin; q_update amount userId;
                       q_insert_deposit userId amount; q_commit] /\
          Forall (fun q => ok q = true) sent /\
          ok refused = false /\
          answer = (if ok q_rollback then Some server_error else None)).
Proof.
  cbv zeta. wallet_cases ok userId amount; try (split; reflexivity).
  all: first
    [ exists [], q_begin; refused_at
    | exists [q_begin], (q_update amount userId); refused_at
    | exists [q_begin; q_update amount userId],
        (q_insert_deposit userId amount); refused_at
    | exists [q_begin; q_update amount userId;
              q_insert_deposit userId amount], q_commit; refused_at ].
Qed.

End Wallet.

(** ** Further worked runs *)

Lemma with_guest_reachable : reachable with_guest.
Proof. apply state_after_reachable, reachable_initial. Qed.

(** [queued]: the registry holds [sA] and [sB], one entry each. *)
Lemma X1_witness :
  reachable queued /\
  (NoDup (fst <$> players queued) /\
   (forall sock p,
      (sock, p) ∈ players queued ->
      socketId p = sock /\ players_get sock (players queued) = Some p)).
Proof.
  split; [exact queued_reachable|].
  exact (X1_one_registry_entry_per_connection queued queued_reachable).
Defined.

(** [black_to_move]: [m1] is active with 60000 and 55000 ms left. *)
Lemma X2_witness :
  let m := match_of "m1" black_to_move in
  (reachable black_to_move /\ heap black_to_move !! "m1" = Some m) /\
  (0 <= whiteMs (clock m) /\ 0 <= blackMs (clock m) /\
   (status m = active -> 0 < whiteMs (clock m) /\ 0 < blackMs (clock m))).
Proof.
  cbv zeta.
  assert (Hm : heap black_to_move !! "m1"
               = Some (match_of "m1" black_to_move)) by evaluate.
  split; [split; [exact black_to_move_reachable | exact Hm]|].
  exact (X2_clock_budgets_in_range black_to_move "m1" _
           black_to_move_reachable Hm).
Defined.

(** [settling]: [m1] is finished and has its result. *)
Lemma X3_witness :
  let m := match_of "m1" settling in
  (reachable settling /\ heap settling !! "m1" = Some m) /\
  (matchId m = "m1" /\ (status m = finished <-> is_Some (result m))).
Proof.
  cbv zeta.
  assert (Hm : heap settling !! "m1" = Some (match_of "m1" settling))
    by evaluate.
  split; [split; [exact settling_reachable | exact Hm]|].
  exact (X3_result_iff_finished settling "m1" _ settling_reachable Hm).
Defined.

(** [settling]: [m1] is between the accounts [uA] and [uB]. *)
Lemma X4_witness :
  let m := match_of "m1" settling in
  (reachable settling /\ heap settling !! "m1" = Some m) /\
  (players_white m <> players_black m /\
   (truthy (whiteDbId m) = true -> truthy (blackDbId m) = true ->
    whiteDbId m <> blackDbId m)).
Proof.
  cbv zeta.
  assert (Hm : heap settling !! "m1" = Some (match_of "m1" settling))
    by evaluate.
  split; [split; [exact settling_reachable | exact Hm]|].
  exact (X4_no_match_against_oneself settling "m1" _ settling_reachable Hm).
Defined.

(** [settling]: the settlement of [m1] is the first suspended
    continuation. *)
Lemma X5_witness :
  let r := Some {| winner := WinnerWhite; reason := timeout |} in
  (reachable settling /\
   suspended settling !! 0%nat = Some (AwaitSettlement "m1" r)) /\
  exists m out s',
    heap settling !! "m1" = Some m /\
    handleGameOver r m (players settling) = Some out /\
    settlement_done 0 settling = Some (s', out) /\
    length (List.filter (closes "m1") (issued out)) = 1%nat /\
    ("m1" ∉ matches s') /\
    suspended s' = delete 0%nat (suspended settling) /\
    forall k, (k < length (issued out))%nat ->
      exists s'' out',
        settlement_failed 0 k settling = Some (s'', out') /\
        issued out' = take k (issued out) /\
        emitted out' = [] /\
        matches s'' = matches settling /\
        heap s'' = heap settling /\
        suspended s'' = delete 0%nat (suspended settling).
Proof.
  cbv zeta.
  assert (Hi : suspended settling !! 0%nat
               = Some (AwaitSettlement "m1"
                         (Some {| winner := WinnerWhite;
                                  reason := timeout |}))) by evaluate.
  split; [split; [exact settling_reachable | exact Hi]|].
  exact (X5_settlement_accepted_or_rejected settling 0 "m1" _
           settling_reachable Hi).
Defined.

(** [settling]: while the settlement of [m1] waits, black plays the
    mating move d8-h4. *)
Lemma X6_witness :
  let d := move_on "m1" "d8" "h4" in
  let m := match_of "m1" settling in
  let s' := fst (make_move "sB" d 100500 settling) in
  (reachable settling /\
   matches_get (md_matchId d) settling = Some m /\
   chess_move (chess m) (md_from d) (md_to d) (md_promotion d)
   = Some fools_mate) /\
  ((exists r0, AwaitSettlement (md_matchId d) r0 ∈ suspended settling) ->
   status m = finished) /\
  (status m = finished ->
   exists m' r,
     heap s' !! md_matchId d = Some m' /\
     chess m' = fools_mate /\
     status m' = finished /\
     result m' = Some r /\
     suspended s'
     = suspended settling ++ [AwaitSettlement (md_matchId d) (Some r)]).
Proof.
  cbv zeta.
  assert (Hget : matches_get (md_matchId (move_on "m1" "d8" "h4")) settling
                 = Some (match_of "m1" settling)) by evaluate.
  assert (Hmove : chess_move (chess (match_of "m1" settling))
                    (md_from (move_on "m1" "d8" "h4"))
                    (md_to (move_on "m1" "d8" "h4"))
                    (md_promotion (move_on "m1" "d8" "h4"))
                  = Some fools_mate) by evaluate.
  split; [split_conj; solve [assumption | exact settling_reachable]|].
  exact (X6_move_on_finished_match_settles_again "sB"
           (move_on "m1" "d8" "h4") 100500 settling _ fools_mate
           settling_reachable Hget Hmove).
Defined.

(** [black_to_move]: black answers e7-e5 at 7000. *)
Lemma X7_witness :
  let es := [on_make_move "sB" (move_on "m1" "e7" "e5") 7000] in
  let s' := state_after es black_to_move in
  let outs := [last_output es black_to_move] in
  let m := match_of "m1" black_to_move in
  (run es black_to_move = Some (s', outs) /\
   heap black_to_move !! "m1" = Some m) /\
  exists m',
    heap s' !! "m1" = Some m' /\
    matchId m' = matchId m /\
    players_white m' = players_white m /\
    players_black m' = players_black m /\
    whiteDbId m' = whiteDbId m /\
    blackDbId m' = blackDbId m /\
    gameMode m' = gameMode m /\
    entryFee m' = entryFee m /\
    (status m = finished -> status m' = finished).
Proof.
  cbv zeta.
  assert (Hrun : run [on_make_move "sB" (move_on "m1" "e7" "e5") 7000]
                   black_to_move
                 = Some (state_after
                           [on_make_move "sB" (move_on "m1" "e7" "e5") 7000]
                           black_to_move,
                         [last_output
                            [on_make_move "sB" (move_on "m1" "e7" "e5") 7000]
                            black_to_move])) by evaluate.
  assert (Hm : heap black_to_move !! "m1"
               = Some (match_of "m1" black_to_move)) by evaluate.
  split; [split; assumption|].
  exact (X7_session_identity_is_kept _ _ _ _ "m1" _ Hrun Hm).
Defined.

(** [two_in_line]: the stale entry [pZ] is dropped, [pA] and [pB] are
    paired. *)
Lemma X8_witness :
  let env := bullet_env "m1" 1000 in
  let s := two_in_line in
  (queues s !! "BULLET" = Some ["pZ"; "pA"; "pB"] /\
   emitted (snd (matchPlayers "BULLET" 10 env s)) <> []) /\
  exists d1 d2 rest p1 p2,
    ["pZ"; "pA"; "pB"] = d1 ++ playerId p1 :: d2 ++ playerId p2 :: rest /\
    Forall (fun pid => live_player pid (players s) = None) d1 /\
    Forall (dropped_behind p1 (players s)) d2 /\
    live_player (playerId p1) (players s) = Some p1 /\
    live_player (playerId p2) (players s) = Some p2 /\
    self_match p1 p2 = false /\
    queues (fst (matchPlayers "BULLET" 10 env s)) !! "BULLET" = Some rest /\
    List.map fst (emitted (snd (matchPlayers "BULLET" 10 env s)))
    = [socketId p1; socketId p2].
Proof.
  cbv zeta.
  assert (Hq : queues two_in_line !! "BULLET" = Some ["pZ"; "pA"; "pB"])
    by evaluate.
  assert (Hsent : emitted (snd (matchPlayers "BULLET" 10
                                  (bullet_env "m1" 1000) two_in_line)) <> [])
    by (vm_compute; discriminate).
  split; [split; assumption|].
  exact (X8_pairing_takes_the_first_two_in_order "BULLET" 10
           (bullet_env "m1" 1000) two_in_line _ Hq Hsent).
Defined.

(** [queued]: [pA] alone waits in BULLET. *)
Lemma X9_witness :
  (reachable queued /\ queues queued !! "BULLET" = Some ["pA"]) /\
  (length ["pA"] <= 1)%nat.
Proof.
  assert (Hq : queues queued !! "BULLET" = Some ["pA"]) by evaluate.
  split; [split; [exact queued_reachable | exact Hq]|].
  exact (X9_at_most_one_waits_per_mode queued "BULLET" _ queued_reachable Hq).
Defined.

(** [queued]: [pA], waiting in BULLET, joins the mode [constructor]. *)
Lemma X10_witness :
  let env := bullet_env "m2" 2000 in
  let s' := fst (enqueue "pA" "constructor" 10 env queued) in
  (reachable queued /\ "constructor" ∈ object_prototype_keys) /\
  snd (enqueue "pA" "constructor" 10 env queued) = silent /\
  queues s' = remove_from_queues "pA" (queues queued) /\
  queues s' !! "constructor" = None /\
  (forall m q, queues s' !! m = Some q -> "pA" ∉ q) /\
  heap s' = heap queued /\ matches s' = matches queued /\
  players s' = players queued.
Proof.
  cbv zeta.
  assert (Hmode : "constructor" ∈ object_prototype_keys) by by_evaluation.
  split; [split; [exact queued_reachable | exact Hmode]|].
  exact (X10_join_with_an_inherited_name "pA" "constructor" 10
           (bullet_env "m2" 2000) queued queued_reachable Hmode).
Defined.

(** [with_guest]: a connection [sH] registers with [null] while the
    guest of [sG] and the account [uA] of [sA] are in the registry. *)
Lemma X11_witness :
  let p := player_of "sG" with_guest in
  let s' := fst (register_player "sH" JsNull "pH" with_guest) in
  let out := snd (register_player "sH" JsNull "pH" with_guest) in
  (reachable with_guest /\ ("sG", p) ∈ players with_guest /\ "sG" <> "sH") /\
  (same_dbId (dbId p) JsNull = true ->
   players_get "sG" (players s') = None /\
   ("sG", force_disconnect) ∈ emitted out) /\
  (same_dbId (dbId p) JsNull = false ->
   ("sG", p) ∈ players s' /\
   forall payload, ("sG", payload) ∉ emitted out).
Proof.
  cbv zeta.
  assert (Hin : ("sG", player_of "sG" with_guest) ∈ players with_guest).
  { assert (Hps : players with_guest
                  = [("sA", player_of "sA" with_guest);
                     ("sG", player_of "sG" with_guest)]) by evaluate.
    rewrite Hps. right. left. }
  assert (Hne : "sG" <> "sH") by discriminate.
  split; [split_conj; solve [assumption | exact with_guest_reachable]|].
  exact (X11_register_player_evicts_exactly with_guest "sH" JsNull "pH" "sG" _
           with_guest_reachable Hin Hne).
Defined.

(** [registered]: a third connection [sC] joins as account [uA], which
    is registered on [sA]. *)
Lemma X14_witness :
  let d := join_data (JsStr "uA") None 10 "alice" in
  let env := bullet_env "m1" 1000 in
  let s' := fst (join_queue "sC" d "pC" env registered) in
  let out := snd (join_queue "sC" d "pC" env registered) in
  players_get "sC" (players registered) = None /\
  fst <$> players s' = (fst <$> players registered) ++ ["sC"] /\
  (dbId <$> players_get "sC" (players s')) = Some (to_dbId (jd_userId d)) /\
  forall sId, (sId, force_disconnect) ∉ emitted out.
Proof.
  cbv zeta.
  assert (Hnone : players_get "sC" (players registered) = None) by evaluate.
  split; [exact Hnone|].
  exact (X14_join_registers_without_eviction "sC"
           (join_data (JsStr "uA") None 10 "alice") "pC"
           (bullet_env "m1" 1000) registered Hnone).
Defined.

(** [black_to_move]: black answers e7-e5 at 7000, one second after
    white's move. *)
Lemma X17_witness :
  let m := match_of "m1" black_to_move in
  let c := clock m in
  let c' := clock (fst (makeMove "e7" "e5" None 7000 m)) in
  (reachable black_to_move /\
   heap black_to_move !! "m1" = Some m /\
   chess_move (chess m) "e7" "e5" None = Some [("f2", "f3"); ("e7", "e5")] /\
   lastMoveTs (clock m) <= 7000) /\
  lastMoveTs c' = 7000 /\
  whiteMs c' <= whiteMs c /\ blackMs c' <= blackMs c /\
  (whiteMs c' = whiteMs c \/ blackMs c' = blackMs c) /\
  (whiteMs c - whiteMs c') + (blackMs c - blackMs c')
  <= 7000 - lastMoveTs c.
Proof.
  cbv zeta.
  assert (Hm : heap black_to_move !! "m1"
               = Some (match_of "m1" black_to_move)) by evaluate.
  assert (Hmove : chess_move (chess (match_of "m1" black_to_move))
                    "e7" "e5" None
                  = Some [("f2", "f3"); ("e7", "e5")]) by evaluate.
  assert (Hnow : lastMoveTs (clock (match_of "m1" black_to_move)) <= 7000)
    by (vm_compute; discriminate).
  split; [split_conj; solve [assumption | exact black_to_move_reachable]|].
  exact (X17_accepted_move_takes_the_elapsed_time "e7" "e5" None 7000
           black_to_move "m1" _ _ black_to_move_reachable Hm Hmove Hnow).
Defined.


(** ** The names of the queues, and what a handler sends *)

Ltac sent_by H out :=
  injection H as H; apply (f_equal snd) in H; cbn [snd] in H; subst out.

Section Protocol.

Context {oracle : RulesOracle}.

Lemma remove_from_queues_dom pid (qs : gmap string (list string)) :
  dom (remove_from_queues pid qs) = dom qs.
Proof. unfold remove_from_queues. apply dom_fmap_L. Qed.

Lemma evict_fold_dom userId sock l : forall acc,
  dom (queues (fst (fold_left (evict userId sock) l acc)))
  = dom (queues (fst acc)).
Proof.
  induction l as [|e l IH]; intros acc; cbn; [reflexivity|].
  rewrite IH. unfold evict. case_match; cbn; [|reflexivity].
  apply remove_from_queues_dom.
Qed.

Lemma matchPlayers_dom mode fee env s :
  dom (queues s) ⊆ dom (queues (fst (matchPlayers mode fee env s))).
Proof.
  destruct (queues s !! mode) as [q0|] eqn:Hq0.
  - rewrite (matchPlayers_queues_eq _ _ _ _ _ Hq0).
    rewrite dom_insert_L. apply union_subseteq_r.
  - unfold matchPlayers. rewrite Hq0. reflexivity.
Qed.

Lemma enqueue_dom pid mode fee env s :
  dom (queues s) ⊆ dom (queues (fst (enqueue pid mode fee env s))).
Proof.
  unfold enqueue. cbv zeta. case_match.
  - cbn. rewrite remove_from_queues_dom. reflexivity.
  - assert (Hin : dom (queues s)
                  ⊆ dom (<[mode := default []
                                     (remove_from_queues pid (queues s)
                                        !! mode) ++ [pid]]>
                           (remove_from_queues pid (queues s)))).
    { rewrite dom_insert_L, remove_from_queues_dom.
      apply union_subseteq_r. }
    case_match; cbn [fst]; [|exact Hin].
    etransitivity; [exact Hin|].
    match goal with
    | |- _ ⊆ dom (queues (fst (matchPlayers _ _ _ ?s2))) =>
        exact (matchPlayers_dom mode fee env s2)
    end.
Qed.

Lemma step_queues_dom s e s' :
  step s e s' -> dom (queues s) ⊆ dom (queues s').
Proof.
  intros [_ [out Hh]].
  destruct e as [sock u uuid|sock d uuid env|sock d now|sock|i a env|i|i k];
    cbn in Hh.
  - handled Hh s'. unfold register_player.
    pose proof (evict_fold_dom u sock (players s) (s, [])) as Hd.
    destruct (fold_left _ _ _) as [s1 es]. cbn in *. rewrite Hd.
    reflexivity.
  - handled Hh s'. unfold join_queue. case_match; cbn [fst].
    + reflexivity.
    + apply (enqueue_dom _ _ _ _
               (set_players (auto_register sock d uuid (players s)) s)).
  - handled Hh s'. rewrite make_move_queues. reflexivity.
  - handled Hh s'. unfold disconnect. case_match; cbn; [|reflexivity].
    rewrite remove_from_queues_dom. reflexivity.
  - unfold balance_reply in Hh.
    destruct (suspended s !! i) as [[sk pid mode fee|]|]; try discriminate.
    handled Hh s'. unfold join_queue_resume. case_match; cbn [fst].
    + reflexivity.
    + apply (enqueue_dom _ _ _ _
               (set_suspended (delete i (suspended s)) s)).
  - unfold settlement_done in Hh.
    destruct (suspended s !! i) as [[|mid r]|]; try discriminate.
    handled Hh s'. rewrite make_move_resume_queues. reflexivity.
  - apply settlement_failed_frame in Hh as [-> _]. reflexivity.
Qed.

(** X20.  A queue is never removed from [queues]: over any run of
    events each mode that has a queue keeps one, also a mode a client
    has named itself and whose queue is empty again. *)
Theorem X20_queue_names_are_never_removed es : forall s s' outs mode,
  run es s = Some (s', outs) ->
  mode ∈ dom (queues s) -> mode ∈ dom (queues s').
Proof.
  induction es as [|e es IH]; intros s s' outs mode Hrun Hin; cbn in Hrun.
  - injection Hrun as <- _. exact Hin.
  - case_bool_decide as Hf; [|discriminate].
    destruct (handle e s) as [[s1 out]|] eqn:He; [|discriminate].
    destruct (run es s1) as [[s2 outs']|] eqn:Hr; [|discriminate].
    injection Hrun as <- _.
    eapply IH; [exact Hr|].
    assert (Hstep : step s e s1) by (split; eauto).
    apply (step_queues_dom _ _ _ Hstep). exact Hin.
Qed.

(** *** What a handler sends *)

Lemma make_move_sends sock d now s x :
  x ∈ emitted (snd (make_move sock d now s)) ->
  may_send (on_make_move sock d now) (fst x) (snd x) = true.
Proof.
  unfold make_move.
  destruct (matches_get (md_matchId d) s) as [m|]; cbn [snd emitted silent];
    [|intros Hx; exfalso; eapply not_elem_of_nil; exact Hx].
  destruct (makeMove _ _ _ _ m) as [m' [|why]].
  - assert (Hout : x ∈ (match find_player (players_white m') (players s) with
                        | Some p =>
                            [(socketId p,
                              move_result (fen m') (turn m')
                                (whiteMs (clock m')) (blackMs (clock m'))
                                (md_from d) (md_to d) (md_promotion d))]
                        | None => []
                        end
                        ++
                        match find_player (players_black m') (players s) with
                        | Some p =>
                            [(socketId p,
                              move_result (fen m') (turn m')
                                (whiteMs (clock m')) (blackMs (clock m'))
                                (md_from d) (md_to d) (md_promotion d))]
                        | None => []
                        end) ->
                   may_send (on_make_move sock d now) (fst x) (snd x) = true).
    { intros [Hx|Hx]%elem_of_app;
        (destruct (find_player _ _);
         [apply list_elem_of_singleton in Hx; subst x; reflexivity
         |exfalso; eapply not_elem_of_nil; exact Hx]). }
    destruct (status m'); exact Hout.
  - cbn. intros ->%list_elem_of_singleton. cbn.
    apply bool_decide_eq_true_2. reflexivity.
Qed.

Lemma handleGameOver_sends r m ps out x :
  handleGameOver r m ps = Some out -> x ∈ emitted out ->
  exists r1 w t msg, snd x = game_over r1 w t msg.
Proof.
  unfold handleGameOver. intros Hgo Hx.
  destruct r as [r0|]; [|discriminate].
  destruct (winner r0).
  1,2: destruct (result m) as [r1|]; [|discriminate];
    injection Hgo as <-; cbn in Hx;
    apply elem_of_app in Hx as [Hx|Hx];
    (destruct (find_player _ _);
     [apply list_elem_of_singleton in Hx; subst x; cbn; eauto
     |exfalso; eapply not_elem_of_nil; exact Hx]).
  destruct (reason r0); injection Hgo as <-; cbn in Hx;
    exfalso; eapply not_elem_of_nil; exact Hx.
Qed.

(** X21.  What a handler pushes to connections: a registration sends
    only [force_disconnect], a join only [match_found], the answer to a
    balance query only [error_message] or [match_found], a move only
    [move_result], or [illegal_move] to its sender, a settlement only
    [game_over], and a disconnect nothing. *)
Theorem X21_what_each_handler_sends e s s' out to payload :
  handle e s = Some (s', out) ->
  (to, payload) ∈ emitted out ->
  may_send e to payload = true.
Proof.
  intros Hh Hx.
  destruct e as [sock u uuid|sock d uuid env|sock d now|sock|i a env|i|i k];
    cbn in Hh.
  - sent_by Hh out. unfold register_player in Hx.
    pose proof (evict_fold_sent u sock (players s) (s, []) (to, payload))
      as Hsent.
    destruct (fold_left _ _ _) as [s1 es]. cbn in *.
    destruct (Hsent Hx) as [Hnil|(e0 & _ & _ & Heq)].
    + exfalso. eapply not_elem_of_nil; exact Hnil.
    + injection Heq as _ ->. reflexivity.
  - sent_by Hh out. unfold join_queue in Hx.
    case_match; cbn [snd] in Hx.
    + exfalso. eapply not_elem_of_nil; exact Hx.
    + apply enqueue_sends_match_found in Hx as (mid & c & f & ck & o & Heq).
      cbn in Heq. subst payload. reflexivity.
  - sent_by Hh out.
    exact (make_move_sends sock d now s (to, payload) Hx).
  - sent_by Hh out. unfold disconnect in Hx.
    case_match; cbn in Hx; exfalso; eapply not_elem_of_nil; exact Hx.
  - unfold balance_reply in Hh.
    destruct (suspended s !! i) as [[sk pid mode fee|]|]; try discriminate.
    sent_by Hh out. unfold join_queue_resume in Hx.
    case_match; cbn [snd] in Hx.
    + cbn in Hx. apply list_elem_of_singleton in Hx.
      injection Hx as _ ->. reflexivity.
    + apply enqueue_sends_match_found in Hx as (mid & c & f & ck & o & Heq).
      cbn in Heq. subst payload. reflexivity.
  - unfold settlement_done in Hh.
    destruct (suspended s !! i) as [[|mid r]|]; try discriminate.
    sent_by Hh out. unfold make_move_resume in Hx.
    cbn [heap players set_suspended] in Hx.
    destruct (heap s !! mid) as [m|];
      [|exfalso; eapply not_elem_of_nil; exact Hx].
    destruct (handleGameOver r m (players s)) as [out'|] eqn:Hgo;
      [|exfalso; eapply not_elem_of_nil; exact Hx].
    cbn [snd] in Hx.
    destruct (handleGameOver_sends _ _ _ _ _ Hgo Hx)
      as (r1 & w & t & msg & Heq).
    cbn in Heq. subst payload. reflexivity.
  - apply settlement_failed_frame in Hh as [_ Hnone].
    rewrite Hnone in Hx. exfalso. eapply not_elem_of_nil; exact Hx.
Qed.

End Protocol.

(** *** Worked runs *)

Lemma own_mode_reachable : reachable own_mode.
Proof. apply state_after_reachable, reachable_initial. Qed.

(** [own_mode]: [sA], which waits in the queue [ARENA], disconnects;
    the queue [ARENA] stays. *)
Lemma X20_witness :
  let es := [on_disconnect "sA"] in
  let s' := state_after es own_mode in
  let outs := [last_output es own_mode] in
  (run es own_mode = Some (s', outs) /\ "ARENA" ∈ dom (queues own_mode)) /\
  "ARENA" ∈ dom (queues s').
Proof.
  cbv zeta.
  assert (Hrun : run [on_disconnect "sA"] own_mode
                 = Some (state_after [on_disconnect "sA"] own_mode,
                         [last_output [on_disconnect "sA"] own_mode]))
    by evaluate.
  assert (Hin : "ARENA" ∈ dom (queues own_mode)) by by_evaluation.
  split; [split; assumption|].
  exact (X20_queue_names_are_never_removed _ _ _ _ "ARENA" Hrun Hin).
Defined.

(** [black_to_move]: black's answer e7-e5 at 7000 is sent to [sA]. *)
Lemma X21_witness :
  let e := on_make_move "sB" (move_on "m1" "e7" "e5") 7000 in
  let s' := fst (make_move "sB" (move_on "m1" "e7" "e5") 7000 black_to_move) in
  let out := snd (make_move "sB" (move_on "m1" "e7" "e5") 7000 black_to_move) in
  let payload := move_result "f2f3 e7e5" white 59000 55000 "e7" "e5" None in
  (handle e black_to_move = Some (s', out) /\
   ("sA", payload) ∈ emitted out) /\
  may_send e "sA" payload = true.
Proof.
  cbv zeta.
  assert (Hh : handle (on_make_move "sB" (move_on "m1" "e7" "e5") 7000)
                 black_to_move
               = Some (fst (make_move "sB" (move_on "m1" "e7" "e5") 7000
                              black_to_move),
                       snd (make_move "sB" (move_on "m1" "e7" "e5") 7000
                              black_to_move))) by evaluate.
  assert (Hx : ("sA", move_result "f2f3 e7e5" white 59000 55000 "e7" "e5" None)
               ∈ emitted (snd (make_move "sB" (move_on "m1" "e7" "e5") 7000
                                 black_to_move))).
  { assert (Hout : emitted (snd (make_move "sB" (move_on "m1" "e7" "e5") 7000
                                   black_to_move))
                   = [("sA", move_result "f2f3 e7e5" white 59000 55000
                               "e7" "e5" None);
                      ("sB", move_result "f2f3 e7e5" white 59000 55000
                               "e7" "e5" None)]) by evaluate.
    rewrite Hout. left. }
  split; [split; assumption|].
  exact (X21_what_each_handler_sends _ _ _ _ _ _ Hh Hx).
Defined.

(** ** Amounts: settlement, balance check and pairing *)

Section Amounts.

Context {oracle : RulesOracle}.

Lemma settlement_done_runs s i mid r m out :
  suspended s !! i = Some (AwaitSettlement mid r) ->
  heap s !! mid = Some m ->
  handleGameOver r m (players s) = Some out ->
  settlement_done i s
  = Some (matches_delete mid (set_suspended (delete i (suspended s)) s), out).
Proof.
  intros Hi Hm Hgo. unfold settlement_done. rewrite Hi.
  unfold make_move_resume. cbn [heap players set_suspended].
  rewrite Hm, Hgo. reflexivity.
Qed.

(** Both ends of a settlement whose [handleGameOver] does not throw. *)
Lemma settlement_ends s i mid r m out :
  suspended s !! i = Some (AwaitSettlement mid r) ->
  heap s !! mid = Some m ->
  handleGameOver r m (players s) = Some out ->
  (exists s' out',
     settlement_done i s = Some (s', out') /\ issued out' = issued out) /\
  (forall k, (k < length (issued out))%nat ->
     exists s' out',
       settlement_failed i k s = Some (s', out') /\
       issued out' = take k (issued out) /\
       emitted out' = []).
Proof.
  intros Hi Hm Hgo. split.
  - do 2 eexists.
    split; [exact (settlement_done_runs s i mid r m out Hi Hm Hgo)|].
    reflexivity.
  - intros k Hk. do 2 eexists.
    split; [exact (settlement_failed_aborts s i mid r k m out Hi Hm Hgo Hk)|].
    split; reflexivity.
Qed.

(** C5, as the code has it.  Every settlement that waits for the store
    in a reachable state is the settlement of a [Match] [m] that has a
    result; [r0] is the result the settlement was started with, [S] is
    [entryFee m], and the amounts are binary64 numbers.  On a decisive
    [r0] its statements are, in order: the win of the winner, the loss
    of the loser, the end of the match record, one credit of the
    winner's wallet of [S + S * 0.70], one [winnings] transaction of
    that amount, and one earning of [S * 0.30] for the match.  On a
    draw they are, for each side with an account, a credit of [S], a
    [refund] transaction of [S] and the draw counter, and then the end
    of the match record.  When the store accepts them, these are the
    statements of the settlement; when the store rejects the [k]-th of
    them, the [k] statements before it are all that is done, and
    nothing is sent.  The settlement is not the only one the match can
    have: while the match is in the Map [matches], every move for it
    that the rules engine accepts starts another. *)
Theorem C5_settlement_amounts s i mid r :
  reachable s ->
  suspended s !! i = Some (AwaitSettlement mid r) ->
  exists m r0 r1 stmts,
    heap s !! mid = Some m /\
    matchId m = mid /\
    r = Some r0 /\
    result m = Some r1 /\
    (winner r0 <> WinnerDraw ->
     let winnerId :=
       if bool_decide (winner r0 = WinnerWhite)
       then whiteDbId m else blackDbId m in
     let loserId :=
       if bool_decide (winner r0 = WinnerWhite)
       then blackDbId m else whiteDbId m in
     let credit := (entryFee m + entryFee m * 0.70)%float in
     let cut := (entryFee m * 0.30)%float in
     stmts =
       [RecordWin winnerId; RecordLoss loserId;
        EndMatchWon winnerId (reason r1) mid;
        CreditWallet credit winnerId;
        InsertTransaction winnerId credit tx_winnings mid;
        InsertEarning mid cut]) /\
    (winner r0 = WinnerDraw ->
     stmts =
       (if truthy (whiteDbId m)
        then [CreditWallet (entryFee m) (whiteDbId m);
              InsertTransaction (whiteDbId m) (entryFee m) tx_refund mid;
              IncrementDraws (whiteDbId m)]
        else [])
       ++
       (if truthy (blackDbId m)
        then [CreditWallet (entryFee m) (blackDbId m);
              InsertTransaction (blackDbId m) (entryFee m) tx_refund mid;
              IncrementDraws (blackDbId m)]
        else [])
       ++ [EndMatchDraw mid]) /\
    (exists s' out,
       settlement_done i s = Some (s', out) /\ issued out = stmts) /\
    (forall k, (k < length stmts)%nat ->
       exists s' out,
         settlement_failed i k s = Some (s', out) /\
         issued out = take k stmts /\
         emitted out = []) /\
    (forall sock d now pos,
       md_matchId d = mid ->
       mid ∈ matches s ->
       chess_move (chess m) (md_from d) (md_to d) (md_promotion d)
       = Some pos ->
       exists r',
         suspended (fst (make_move sock d now s))
         = suspended s ++ [AwaitSettlement mid (Some r')]).
Proof.
  intros Hreach Hi.
  pose proof (list_elem_of_lookup_2 _ _ _ Hi) as Hin.
  destruct (inv_tasks s (inv_reachable s Hreach) _ Hin) as (m & Hm & Hfin).
  destruct (wf_tasks s (wf_reachable s Hreach) _ Hin) as [[r0 Hr0] Hok].
  destruct (wf_heap s (wf_reachable s Hreach) _ _ Hm) as (Hid & _ & Hset & _).
  destruct (proj1 Hset Hfin) as [r1 Hr1].
  destruct (inv_heap s (inv_reachable s Hreach) mid m Hm) as [Hfee _].
  subst r.
  assert (Hagain : forall sock d now pos,
            md_matchId d = mid ->
            mid ∈ matches s ->
            chess_move (chess m) (md_from d) (md_to d) (md_promotion d)
            = Some pos ->
            exists r',
              suspended (fst (make_move sock d now s))
              = suspended s ++ [AwaitSettlement mid (Some r')]).
  { intros sock d now pos Hd Hmap Hmove. clear Hi Hin Hid.
    rewrite <- Hd in Hmap, Hm |- *.
    assert (Hget : matches_get (md_matchId d) s = Some m)
      by (unfold matches_get; rewrite bool_decide_eq_true_2 by exact Hmap;
          exact Hm).
    destruct (finished_move_settles sock d now s m pos Hreach Hget Hfin
                Hmove) as (m' & r' & _ & _ & _ & _ & Hsusp).
    exists r'. exact Hsusp. }
  pose proof (settlement_ends s i mid (Some r0) m) as Hends.
  unfold handleGameOver in Hends. rewrite Hid in Hends.
  exists m, r0, r1.
  destruct (winner r0) eqn:Hw.
  - rewrite Hr1 in Hends.
    destruct (Hends _ Hi Hm eq_refl) as [Hacc Hrej].
    eexists.
    split_and!; [exact Hm | exact Hid | reflexivity | exact Hr1
                | intros _; reflexivity | discriminate
                | exact Hacc | exact Hrej | exact Hagain].
  - rewrite Hr1 in Hends.
    destruct (Hends _ Hi Hm eq_refl) as [Hacc Hrej].
    eexists.
    split_and!; [exact Hm | exact Hid | reflexivity | exact Hr1
                | intros _; reflexivity | discriminate
                | exact Hacc | exact Hrej | exact Hagain].
  - rewrite (Hok r0 eq_refl Hw), Hfee in Hends.
    destruct (Hends _ Hi Hm eq_refl) as [Hacc Hrej].
    eexists.
    split_and!; [exact Hm | exact Hid | reflexivity | exact Hr1
                | intros Hdraw; exfalso; apply Hdraw; reflexivity
                | intros _; reflexivity
                | exact Hacc | exact Hrej | exact Hagain].
Qed.





(** What a pairing by [matchPlayers] sends, issues and constructs. *)
Lemma matchPlayers_pairing mode fee env s q0 q p1 p2 :
  queues s !! mode = Some q0 ->
  pair_queue (players s) q0 = (q, Some (p1, p2)) ->
  let mid := freshMatchId env in
  let c1 := if isP1White env then white else black in
  let m :=
    new_Match mid
      (if isP1White env then playerId p1 else playerId p2)
      (if isP1White env then playerId p2 else playerId p1)
      (if isP1White env then dbId p1 else dbId p2)
      (if isP1White env then dbId p2 else dbId p1)
      mode fee (pairedAt env) in
  snd (matchPlayers mode fee env s)
  = {| emitted :=
         [(socketId p1, match_found mid c1 (fen m) (clock m) (username p2));
          (socketId p2,
           match_found mid (other_side c1) (fen m) (clock m) (username p1))];
       issued :=
         entry_fee_stmts fee mode p1 p2
         ++ [InsertMatch mid (whiteDbId m) (blackDbId m) fee fee] |} /\
  matches_get mid (fst (matchPlayers mode fee env s)) = Some m.
Proof.
  intros Hq0 Hpair. cbv zeta. unfold matchPlayers. rewrite Hq0, Hpair.
  cbn [fst snd]. split; [reflexivity|].
  unfold matches_get, set_players, matches_set.
  cbn [heap matches].
  rewrite bool_decide_eq_true_2
    by (apply elem_of_union; left; apply elem_of_singleton; reflexivity).
  apply lookup_insert_eq.
Qed.

(** C10.  Whenever the handling of a join with stake [fee] pairs two
    players (it sends [match_found]), the pair is the one
    [pair_queue] takes from the queue of the mode, the joining player
    at its end, on the registry of that time: [p1] and [p2] are the
    registered players of two entries of that queue.  Both are sent
    [match_found]; the statements issued are the debit of [fee] from
    the account of [p1] and from the account of [p2], for each of the
    two that has an account, an [entry_fee] transaction of [fee] for
    each of these accounts, and the new match record with [fee] as
    entry fee and stake; and the [Match] that is put in the Map
    [matches] has [entryFee = fee] and the two players, with their
    accounts, as its sides, [p1] as white or as black as the coin
    falls.  A handler sends [match_found] only in such a pairing, made
    for a [join_queue] with the stake of its payload, at once or when
    the store has answered its balance query.  The stake the first
    player of the pair gave in its own join
    (and its balance was checked against) can be another amount: an
    account that joined with stake 5 is debited 100 when paired by a
    join with stake 100, whichever of the two is white. *)
Theorem C10_pairing_debits_the_fee_of_the_triggering_join :
  (forall pid mode fee env s,
     emitted (snd (enqueue pid mode fee env s)) <> [] ->
     let ps := update_player pid (set_intent mode fee) (players s) in
     let q :=
       default [] (remove_from_queues pid (queues s) !! mode) ++ [pid] in
     let s' := fst (enqueue pid mode fee env s) in
     let out := snd (enqueue pid mode fee env s) in
     let mid := freshMatchId env in
     let c1 := if isP1White env then white else black in
     exists p1 p2 rest m,
       pair_queue ps q = (rest, Some (p1, p2)) /\
       live_player (playerId p1) ps = Some p1 /\
       live_player (playerId p2) ps = Some p2 /\
       playerId p1 ∈ q /\ playerId p2 ∈ q /\
       emitted out
       = [(socketId p1,
           match_found mid c1 (fen m) (clock m) (username p2));
          (socketId p2,
           match_found mid (other_side c1) (fen m) (clock m)
             (username p1))] /\
       issued out
       = (if truthy (dbId p1) then [DebitWallet fee (dbId p1)] else [])
         ++ (if truthy (dbId p2) then [DebitWallet fee (dbId p2)] else [])
         ++ (if truthy (dbId p1)
             then [InsertTransaction (dbId p1) fee tx_entry_fee mode]
             else [])
         ++ (if truthy (dbId p2)
             then [InsertTransaction (dbId p2) fee tx_entry_fee mode]
             else [])
         ++ [InsertMatch mid (whiteDbId m) (blackDbId m) fee fee] /\
       matches_get mid s' = Some m /\
       entryFee m = fee /\
       players_white m = (if isP1White env then playerId p1 else playerId p2) /\
       players_black m = (if isP1White env then playerId p2 else playerId p1) /\
       whiteDbId m = (if isP1White env then dbId p1 else dbId p2) /\
       blackDbId m = (if isP1White env then dbId p2 else dbId p1)) /\
  (forall e s s' out to mid c f ck o,
     handle e s = Some (s', out) ->
     (to, match_found mid c f ck o) ∈ emitted out ->
     exists pid mode fee env s0,
       enqueue pid mode fee env s0 = (s', out) /\
       ((exists sock d uuid,
           e = on_join_queue sock d uuid env /\
           mode = join_mode d /\ fee = join_fee d) \/
        (exists i a sock,
           e = on_balance_reply i a env /\
           suspended s !! i = Some (AwaitBalance sock pid mode fee)))) /\
  (let s := state_after (take 5 uneven_stakes) initial_state in
   reachable s /\
   suspended s = [AwaitBalance "sB" "pB" "BLITZ" 100] /\
   (p_entryFee <$> find_player "pA" (players s)) = Some (Some 5%float) /\
   (dbId <$> find_player "pA" (players s)) = Some (Some "uA") /\
   (dbId <$> find_player "pB" (players s)) = Some (Some "uB") /\
   (exists s' out,
      balance_reply 0 (Rows [500%float]) (bullet_env "m1" 1000) s
      = Some (s', out) /\
      issued out
      = [DebitWallet 100 (Some "uA"); DebitWallet 100 (Some "uB");
         InsertTransaction (Some "uA") 100 tx_entry_fee "BLITZ";
         InsertTransaction (Some "uB") 100 tx_entry_fee "BLITZ";
         InsertMatch "m1" (Some "uA") (Some "uB") 100 100] /\
      (entryFee <$> matches_get "m1" s') = Some 100%float) /\
   (exists s' out,
      balance_reply 0 (Rows [500%float]) (second_is_white "m1" 1000) s
      = Some (s', out) /\
      issued out
      = [DebitWallet 100 (Some "uA"); DebitWallet 100 (Some "uB");
         InsertTransaction (Some "uA") 100 tx_entry_fee "BLITZ";
         InsertTransaction (Some "uB") 100 tx_entry_fee "BLITZ";
         InsertMatch "m1" (Some "uB") (Some "uA") 100 100] /\
      (entryFee <$> matches_get "m1" s') = Some 100%float)).
Proof.
  split; [|split].
  - intros pid mode fee env s Hsent. cbv zeta.
    unfold enqueue in Hsent |- *. cbv zeta in Hsent |- *.
    destruct (bool_decide (mode ∈ object_prototype_keys)
              && bool_decide (remove_from_queues pid (queues s) !! mode
                              = None));
      [exfalso; apply Hsent; reflexivity|].
    set (q := default [] (remove_from_queues pid (queues s) !! mode)
              ++ [pid]) in *.
    set (ps := update_player pid (set_intent mode fee) (players s)) in *.
    set (s2 := set_players ps
                 (set_queues (<[mode := q]>
                                (remove_from_queues pid (queues s))) s))
      in *.
    destruct (2 <=? length q)%nat;
      [|exfalso; apply Hsent; reflexivity].
    destruct (matchPlayers_unpaired mode fee env s2)
      as [Hnone|(q0 & rest & p1 & p2 & Hq0 & Hpair)]; [congruence|].
    assert (Hq : q0 = q).
    { subst s2. cbn [queues set_players set_queues] in Hq0.
      rewrite lookup_insert_eq in Hq0. congruence. }
    subst q0.
    destruct (matchPlayers_pairing mode fee env s2 q rest p1 p2 Hq0 Hpair)
      as [Hout Hget].
    change (players s2) with ps in Hpair.
    destruct (pair_queue_fifo ps q rest p1 p2 Hpair)
      as (d1 & d2 & Hdec & _ & Hl1 & _ & Hl2 & _).
    exists p1, p2, rest. eexists.
    rewrite Hout. cbn [emitted issued].
    split_and!; [exact Hpair | exact Hl1 | exact Hl2 | | | reflexivity
                | unfold entry_fee_stmts; rewrite <- !app_assoc; reflexivity
                | exact Hget | reflexivity | reflexivity | reflexivity
                | reflexivity | reflexivity].
    + rewrite Hdec. apply elem_of_app. right. apply list_elem_of_here.
    + rewrite Hdec. apply elem_of_app. right. apply list_elem_of_further.
      apply elem_of_app. right. apply list_elem_of_here.
  - intros e s s' out to mid c f ck o Hh Hx.
    destruct e as [sock u uuid|sock d uuid env|sock d now|sock|i a env|i|i k];
      cbn in Hh.
    + exfalso. sent_by Hh out. unfold register_player in Hx.
      pose proof (evict_fold_sent u sock (players s) (s, [])
                    (to, match_found mid c f ck o)) as Hsent.
      destruct (fold_left _ _ _) as [s1 es]. cbn in *.
      destruct (Hsent Hx) as [Hnil|(e0 & _ & _ & Heq)].
      * eapply not_elem_of_nil; exact Hnil.
      * discriminate.
    + injection Hh as Hh. unfold join_queue in Hh. cbv zeta in Hh.
      destruct (truthy (dbId (join_player sock d uuid (players s)))).
      * exfalso. apply (f_equal snd) in Hh. cbn [snd] in Hh. subst out.
        eapply not_elem_of_nil; exact Hx.
      * do 5 eexists. split; [exact Hh|]. left. eauto 10.
    + exfalso. sent_by Hh out.
      pose proof (make_move_sends sock d now s _ Hx) as Hmay.
      discriminate.
    + exfalso. sent_by Hh out. unfold disconnect in Hx.
      case_match; cbn in Hx; eapply not_elem_of_nil; exact Hx.
    + unfold balance_reply in Hh.
      destruct (suspended s !! i) as [[sk pid mode fee|]|] eqn:Hi;
        try discriminate.
      injection Hh as Hh. unfold join_queue_resume in Hh.
      destruct (insufficient a fee) as [balance|].
      * exfalso. apply (f_equal snd) in Hh. cbn [snd] in Hh. subst out.
        cbn in Hx. apply list_elem_of_singleton in Hx. discriminate.
      * do 5 eexists. split; [exact Hh|]. right. eauto 10.
    + exfalso. unfold settlement_done in Hh.
      destruct (suspended s !! i) as [[|mid0 r]|]; try discriminate.
      sent_by Hh out. unfold make_move_resume in Hx.
      cbn [heap players set_suspended] in Hx.
      destruct (heap s !! mid0) as [m|];
        [|eapply not_elem_of_nil; exact Hx].
      destruct (handleGameOver r m (players s)) as [out'|] eqn:Hgo;
        [|eapply not_elem_of_nil; exact Hx].
      cbn [snd] in Hx.
      destruct (handleGameOver_sends _ _ _ _ _ Hgo Hx)
        as (r1 & w & t & msg & Heq).
      discriminate.
    + exfalso. apply settlement_failed_frame in Hh as [_ Hnone].
      rewrite Hnone in Hx. eapply not_elem_of_nil; exact Hx.
  - cbv zeta. split; [apply state_after_reachable, reachable_initial|].
    split_conj; try evaluate.
    + do 2 eexists. split_conj; evaluate.
    + do 2 eexists. split_conj; evaluate.
Qed.

End Amounts.

(** ** Worked runs of the amounts *)

Lemma finished_twice_reachable : reachable finished_twice.
Proof. apply state_after_reachable, reachable_initial. Qed.

(** [settling]: the settlement of [m1], won by white on time with stake
    10, is the first suspended continuation. *)
Lemma C5_witness :
  let r := Some {| winner := WinnerWhite; reason := timeout |} in
  (reachable settling /\
   suspended settling !! 0%nat = Some (AwaitSettlement "m1" r)) /\
  exists m r0 r1 stmts,
    heap settling !! "m1" = Some m /\
    matchId m = "m1" /\
    r = Some r0 /\
    result m = Some r1 /\
    (winner r0 <> WinnerDraw ->
     let winnerId :=
       if bool_decide (winner r0 = WinnerWhite)
       then whiteDbId m else blackDbId m in
     let loserId :=
       if bool_decide (winner r0 = WinnerWhite)
       then blackDbId m else whiteDbId m in
     let credit := (entryFee m + entryFee m * 0.70)%float in
     let cut := (entryFee m * 0.30)%float in
     stmts =
       [RecordWin winnerId; RecordLoss loserId;
        EndMatchWon winnerId (reason r1) "m1";
        CreditWallet credit winnerId;
        InsertTransaction winnerId credit tx_winnings "m1";
        InsertEarning "m1" cut]) /\
    (winner r0 = WinnerDraw ->
     stmts =
       (if truthy (whiteDbId m)
        then [CreditWallet (entryFee m) (whiteDbId m);
              InsertTransaction (whiteDbId m) (entryFee m) tx_refund "m1";
              IncrementDraws (whiteDbId m)]
        else [])
       ++
       (if truthy (blackDbId m)
        then [CreditWallet (entryFee m) (blackDbId m);
              InsertTransaction (blackDbId m) (entryFee m) tx_refund "m1";
              IncrementDraws (blackDbId m)]
        else [])
       ++ [EndMatchDraw "m1"]) /\
    (exists s' out,
       settlement_done 0 settling = Some (s', out) /\ issued out = stmts) /\
    (forall k, (k < length stmts)%nat ->
       exists s' out,
         settlement_failed 0 k settling = Some (s', out) /\
         issued out = take k stmts /\
         emitted out = []) /\
    (forall sock d now pos,
       md_matchId d = "m1" ->
       "m1" ∈ matches settling ->
       chess_move (chess m) (md_from d) (md_to d) (md_promotion d)
       = Some pos ->
       exists r',
         suspended (fst (make_move sock d now settling))
         = suspended settling ++ [AwaitSettlement "m1" (Some r')]).
Proof.
  cbv zeta.
  assert (Hi : suspended settling !! 0%nat
               = Some (AwaitSettlement "m1"
                         (Some {| winner := WinnerWhite;
                                  reason := timeout |}))) by evaluate.
  split; [split; [exact settling_reachable | exact Hi]|].
  exact (C5_settlement_amounts settling 0 "m1" _ settling_reachable Hi).
Defined.

(** The claim C5 fails in three ways.

    With stake 7 the winner is credited [7 + 7 * 0.70], which in
    binary64 is 11.899999999999999, below the 11.9 that [1.7 * 7]
    gives; with stake 3 the earning [3 * 0.30] is 0.8999999999999999,
    below 0.9.

    In [finished_twice] the match [m1], with stake 10, has two
    settlements waiting for the store, one for each move made after
    white's time ran out; the store accepts both, and the account [uB]
    is credited 17 twice, with two [winnings] transactions and two
    earnings of 3.

    In [settling] the store rejects the credit, the fourth statement of
    the settlement: the win, the loss and the end of the match record
    are done, nothing is credited, and [m1] stays in the Map [matches]
    with no settlement left waiting. *)
Lemma C5_counterexample :
  let white_on_time := {| winner := WinnerWhite; reason := timeout |} in
  let black_on_time := {| winner := WinnerBlack; reason := timeout |} in
  (reachable (settling_at 7) /\
   suspended (settling_at 7) = [AwaitSettlement "m1" (Some white_on_time)] /\
   entryFee (match_of "m1" (settling_at 7)) = 7%float /\
   (issued <$> (snd <$> settlement_done 0 (settling_at 7)))
   = Some [RecordWin (Some "uA"); RecordLoss (Some "uB");
           EndMatchWon (Some "uA") timeout "m1";
           CreditWallet 11.899999999999999 (Some "uA");
           InsertTransaction (Some "uA") 11.899999999999999 tx_winnings
             "m1";
           InsertEarning "m1" (7 * 0.30)] /\
   (11.899999999999999 <? 11.9)%float = true /\
   (7 * 1.7 =? 11.9)%float = true) /\
  (reachable (settling_at 3) /\
   entryFee (match_of "m1" (settling_at 3)) = 3%float /\
   (issued <$> (snd <$> settlement_done 0 (settling_at 3)))
   = Some [RecordWin (Some "uA"); RecordLoss (Some "uB");
           EndMatchWon (Some "uA") timeout "m1";
           CreditWallet (3 + 3 * 0.70) (Some "uA");
           InsertTransaction (Some "uA") (3 + 3 * 0.70) tx_winnings "m1";
           InsertEarning "m1" 0.8999999999999999] /\
   (0.8999999999999999 <? 0.9)%float = true /\
   (3 * 0.3 =? 0.9)%float = false) /\
  (reachable finished_twice /\
   matches_get "m1" finished_twice = Some (match_of "m1" finished_twice) /\
   entryFee (match_of "m1" finished_twice) = 10%float /\
   suspended finished_twice
   = [AwaitSettlement "m1" (Some black_on_time);
      AwaitSettlement "m1" (Some black_on_time)] /\
   (List.map issued
      <$> (snd <$> run [on_settlement_done 0; on_settlement_done 0]
                     finished_twice))
   = Some [[RecordWin (Some "uB"); RecordLoss (Some "uA");
            EndMatchWon (Some "uB") timeout "m1";
            CreditWallet 17 (Some "uB");
            InsertTransaction (Some "uB") 17 tx_winnings "m1";
            InsertEarning "m1" 3];
           [RecordWin (Some "uB"); RecordLoss (Some "uA");
            EndMatchWon (Some "uB") timeout "m1";
            CreditWallet 17 (Some "uB");
            InsertTransaction (Some "uB") 17 tx_winnings "m1";
            InsertEarning "m1" 3]]) /\
  (reachable settling /\
   suspended settling = [AwaitSettlement "m1" (Some white_on_time)] /\
   (snd <$> settlement_failed 0 3 settling)
   = Some {| emitted := [];
             issued := [RecordWin (Some "uA"); RecordLoss (Some "uB");
                        EndMatchWon (Some "uA") timeout "m1"] |} /\
   (suspended <$> (fst <$> settlement_failed 0 3 settling)) = Some [] /\
   ((fun s' => bool_decide ("m1" ∈ matches s'))
      <$> (fst <$> settlement_failed 0 3 settling)) = Some true).
Proof.
  cbv zeta.
  split_conj;
    try solve [apply state_after_reachable, reachable_initial];
    evaluate.
Qed.



(** [blitz_waiting]: the join of [pB] to BLITZ with stake 100 pairs it
    with the waiting player, and the coin makes [pB] white. *)
Lemma C10_witness :
  let env := second_is_white "m1" 1000 in
  let fee := 100%float in
  let pid := "pB" in
  let mode := "BLITZ" in
  let s := blitz_waiting in
  emitted (snd (enqueue pid mode fee env s)) <> [] /\
  let ps := update_player pid (set_intent mode fee) (players s) in
  let q := default [] (remove_from_queues pid (queues s) !! mode) ++ [pid] in
  let s' := fst (enqueue pid mode fee env s) in
  let out := snd (enqueue pid mode fee env s) in
  let mid := freshMatchId env in
  let c1 := if isP1White env then white else black in
  exists p1 p2 rest m,
    pair_queue ps q = (rest, Some (p1, p2)) /\
    live_player (playerId p1) ps = Some p1 /\
    live_player (playerId p2) ps = Some p2 /\
    playerId p1 ∈ q /\ playerId p2 ∈ q /\
    emitted out
    = [(socketId p1, match_found mid c1 (fen m) (clock m) (username p2));
       (socketId p2,
        match_found mid (other_side c1) (fen m) (clock m) (username p1))] /\
    issued out
    = (if truthy (dbId p1) then [DebitWallet fee (dbId p1)] else [])
      ++ (if truthy (dbId p2) then [DebitWallet fee (dbId p2)] else [])
      ++ (if truthy (dbId p1)
          then [InsertTransaction (dbId p1) fee tx_entry_fee mode]
          else [])
      ++ (if truthy (dbId p2)
          then [InsertTransaction (dbId p2) fee tx_entry_fee mode]
          else [])
      ++ [InsertMatch mid (whiteDbId m) (blackDbId m) fee fee] /\
    matches_get mid s' = Some m /\
    entryFee m = fee /\
    players_white m = (if isP1White env then playerId p1 else playerId p2) /\
    players_black m = (if isP1White env then playerId p2 else playerId p1) /\
    whiteDbId m = (if isP1White env then dbId p1 else dbId p2) /\
    blackDbId m = (if isP1White env then dbId p2 else dbId p1).
Proof.
  cbv zeta.
  assert (Hsent : emitted (snd (enqueue "pB" "BLITZ" 100
                    (second_is_white "m1" 1000) blitz_waiting)) <> [])
    by (vm_compute; discriminate).
  split; [exact Hsent|].
  exact (proj1 C10_pairing_debits_the_fee_of_the_triggering_join
           "pB" "BLITZ" 100%float (second_is_white "m1" 1000)
           blitz_waiting Hsent).
Defined.
